(** * prompteng: the template parser and its render metadata

    A shallow embedding of [packages/core/src/parser.ts] (class
    [TemplateParser]): the three tags ([upper], [must_include_each],
    [section]) and the eight filters that its constructor registers,
    and its methods [render] and [renderWithMeta], embedded from the
    TypeScript source line by line.

    [TemplateParser] drives the LiquidJS engine, which is a dependency
    and not part of the repository.  The part of LiquidJS that the
    statements need is embedded along with it: the parser of a token
    stream ([parseToken], [parseStream]), the render context with its
    scope stack and its environments, the emitters, the renderer, and
    the tags [assign], [capture], [increment] and [decrement].  The
    tokenizer is not embedded: a template is given as its token stream,
    an expression as a literal or a variable name with its filters.

    Around the parser, the functions that call it are embedded as well:
    the engine's [validateVariables], [render], [renderWithMeta],
    [renderMulti] and [generateTypeDefinitions] (from
    [engine-helpers.ts] and [engine.ts]), the test runner's
    [validateAssertions] with the counters of [TestResults], and the
    token estimate of the OpenAI provider.  Loading templates from
    files and calling a provider are not embedded.

    Conventions.
    - The fragment.  A template is made of literal text, outputs, and
      the tags [assign], [capture], [increment], [decrement], [upper],
      [must_include_each] and [section]; an expression is a literal or
      a variable name without a path, piped through filters.  The other
      tags and filters of LiquidJS ([if], [for], [case], [unless],
      [include], [render], ...) are not embedded, and no statement
      speaks of a template that uses them.
    - A computation that can throw returns an [outcome]: the value, or
      the error thrown ([exception]: the errors of the code, the
      [TypeError] of the runtime, and the errors in which LiquidJS
      wraps them, with the position of the token).  The third outcome,
      [OutOfFragment], marks a run that meets a LiquidJS tag or filter
      that is not embedded, a number whose string is not embedded, or a
      mutation that the tree values cannot express; about such a run
      nothing is stated.
    - JavaScript values are the values of JSON and [undefined]; none is
      a function.  They are immutable trees, except for the objects
      that the program mutates: a metadata record ([PromptEngMeta])
      lives in a heap and a value refers to it by a reference
      ([VMeta]); the caller's variables object is the [environments]
      field of the render state.  A caller's object with a
      [constraints] array and a [sections] object is such a record; its
      array and its object are held by the record alone, and only one
      call runs at a time.
    - Numbers are the integers ([Z]); a number is printed when it is a
      safe integer.  Strings are sequences of code units below 256;
      white space is that of JavaScript among them, while case folding
      and ordering are those of ASCII. *)

From Stdlib Require Import ZArith Ascii String List Bool Lia.
From stdpp Require Import gmap strings list pretty.

Set Warnings "-register-all".

Open Scope string_scope.
Open Scope Z_scope.

(** ** Errors

    What the code throws.  [Error] is [new Error(message)] (LiquidJS's
    [AssertionError] included); [TypeError] is the error of the
    JavaScript runtime, whose wording is the runtime's own;
    [TokenizationError] is the error of the LiquidJS tokenizer, whose
    message and position are the tokenizer's own.  LiquidJS
    wraps what a token throws while it is parsed in a [ParseError], and
    what a template throws while it renders in a [RenderError], unless
    the error is one of its own already. *)

(** Where a token begins in the template text. *)
Record Position : Type := {
  pos_line : nat;
  pos_col : nat
}.

Inductive exception : Type :=
| Error (message : string)
| TypeError
| TokenizationError
| ParseError (cause : exception) (pos : Position)
| RenderError (cause : exception) (pos : Position).

Coercion Error : string >-> exception.

(** [e instanceof LiquidError] *)
Definition is_LiquidError (e : exception) : bool :=
  match e with
  | TokenizationError | ParseError _ _ | RenderError _ _ => true
  | _ => false
  end.

(** The [message] of the error, where the wording is known: LiquidJS
    appends the position to the message of the cause. *)
Fixpoint message_of (e : exception) : option string :=
  match e with
  | Error message => Some message
  | TypeError | TokenizationError => None
  | ParseError cause pos | RenderError cause pos =>
      match message_of cause with
      | Some m =>
          Some (m ++ ", line:" ++ pretty (pos_line pos)
                  ++ ", col:" ++ pretty (pos_col pos))
      | None => None
      end
  end.

(** ** Outcomes: normal return, a thrown error, or a LiquidJS feature
    that this development does not embed. *)

Inductive outcome (A : Type) : Type :=
| Ok (a : A)
| Throw (msg : exception)
| OutOfFragment.

Arguments Ok {A} a.
Arguments Throw {A} msg.
Arguments OutOfFragment {A}.

Definition bind {A B : Type} (m : outcome A) (k : A → outcome B) : outcome B :=
  match m with
  | Ok a => k a
  | Throw msg => Throw msg
  | OutOfFragment => OutOfFragment
  end.

Notation "'do' x <- m ; k" := (bind m (fun x => k))
  (at level 10, x pattern, m at level 100, k at level 200).

Definition is_ok {A : Type} (m : outcome A) : bool :=
  match m with Ok _ => true | _ => false end.

Definition is_throw {A : Type} (m : outcome A) : bool :=
  match m with Throw _ => true | _ => false end.

(** ** JavaScript values *)

(** A reference to a metadata record: one allocated during the current
    render call, or one that the caller held before the call. *)
Inductive ref : Type :=
| RLocal (i : nat)
| RCaller (l : nat).

#[global] Instance ref_eq_dec : EqDecision ref.
Proof. solve_decision. Defined.

Inductive value : Type :=
| VUndef
| VNull
| VBool (b : bool)
| VNum (n : Z)
| VStr (s : string)
| VArr (elems : list value)
| VObj (fields : list (string * value))
| VMeta (r : ref).

Definition isArray (v : value) : bool :=
  match v with VArr _ => true | _ => false end.

(** [!!v] *)
Definition truthy (v : value) : bool :=
  match v with
  | VUndef | VNull => false
  | VBool b => b
  | VNum n => negb (n =? 0)
  | VStr s => negb (String.eqb s "")
  | VArr _ | VObj _ | VMeta _ => true
  end.

(** [v ?? d] *)
Definition nullish (v d : value) : value :=
  match v with VUndef | VNull => d | _ => v end.

(** The string that [String(v)] returns; an array prints its elements
    separated by commas, with [null] and [undefined] elements printed
    as nothing.  [to_string] below tells when the conversion returns. *)
Fixpoint js_String (v : value) : string :=
  match v with
  | VUndef => "undefined"
  | VNull => "null"
  | VBool true => "true"
  | VBool false => "false"
  | VNum n => pretty n
  | VStr s => s
  | VArr l =>
      String.concat ","
        ((fix elems (l : list value) : list string :=
            match l with
            | [] => []
            | VUndef :: r => "" :: elems r
            | VNull :: r => "" :: elems r
            | x :: r => js_String x :: elems r
            end) l)
  | VObj _ => "[object Object]"
  | VMeta _ => "[object Object]"
  end.

(** The conversion of an object to a string calls its [toString]
    method, which a plain object inherits from [Object.prototype].  An
    object with a property of its own under that name has no such
    method, since no value here is a function, and the conversion
    throws a [TypeError].  An array converts its elements. *)
Fixpoint convertible (v : value) : bool :=
  match v with
  | VArr l => forallb convertible l
  | VObj fs => negb (existsb (fun kv => String.eqb kv.1 "toString") fs)
  | _ => true
  end.

(** The integers that a double holds with all their digits,
    [Number.MIN_SAFE_INTEGER] to [Number.MAX_SAFE_INTEGER]. *)
Definition safe (n : Z) : bool := Z.abs n <=? 9007199254740991.

(** Every number that the conversion of [v] prints is such an integer.
    The string of another number is not embedded. *)
Fixpoint in_range (v : value) : bool :=
  match v with
  | VNum n => safe n
  | VArr l => forallb in_range l
  | _ => true
  end.

(** The conversion of each of the values to a string, for what it
    throws. *)
Definition convert_all (vs : list value) : outcome unit :=
  if forallb convertible vs then
    if forallb in_range vs then Ok tt else OutOfFragment
  else Throw TypeError.

(** [String(v)], as well as [`${v}`] and [s += v]. *)
Definition to_string (v : value) : outcome string :=
  do _ <- convert_all [v];
  Ok (js_String v).

(** The string an array element contributes to [Array.prototype.join]. *)
Definition join_elem (v : value) : string :=
  match v with VUndef | VNull => "" | _ => js_String v end.

(** [recv.join(sep)]: only arrays have the method.  The separator is
    converted to a string, then each element that is not [null] or
    [undefined]. *)
Definition js_join (recv sep : value) : outcome value :=
  match recv with
  | VArr l =>
      do _ <- convert_all (sep :: l);
      let s := match sep with VUndef => "," | _ => js_String sep end in
      Ok (VStr (String.concat s (map join_elem l)))
  | _ => Throw TypeError
  end.

Definition lower_ascii (c : ascii) : ascii :=
  let n := nat_of_ascii c in
  if (Nat.leb 65 n && Nat.leb n 90)%bool then ascii_of_nat (n + 32) else c.

Definition upper_ascii (c : ascii) : ascii :=
  let n := nat_of_ascii c in
  if (Nat.leb 97 n && Nat.leb n 122)%bool then ascii_of_nat (n - 32) else c.

Fixpoint map_string (f : ascii → ascii) (s : string) : string :=
  match s with
  | EmptyString => EmptyString
  | String c r => String (f c) (map_string f r)
  end.

(** [recv.toLowerCase()] and [recv.toUpperCase()]: string methods. *)
Definition js_toLowerCase (recv : value) : outcome value :=
  match recv with
  | VStr s => Ok (VStr (map_string lower_ascii s))
  | _ => Throw TypeError
  end.

Definition js_toUpperCase (recv : value) : outcome value :=
  match recv with
  | VStr s => Ok (VStr (map_string upper_ascii s))
  | _ => Throw TypeError
  end.

(** [Object.keys(v).length]; [Object.keys] throws on [null] and
    [undefined].  A metadata record has the keys [constraints] and
    [sections]. *)
Definition js_keys_length (v : value) : outcome value :=
  match v with
  | VUndef | VNull => Throw TypeError
  | VObj fs => Ok (VNum (Z.of_nat (length fs)))
  | VMeta _ => Ok (VNum 2)
  | VArr l => Ok (VNum (Z.of_nat (length l)))
  | VStr s => Ok (VNum (Z.of_nat (String.length s)))
  | VBool _ | VNum _ => Ok (VNum 0)
  end.

(** [recv.length] *)
Definition js_length (recv : value) : outcome value :=
  match recv with
  | VArr l => Ok (VNum (Z.of_nat (length l)))
  | VStr s => Ok (VNum (Z.of_nat (String.length s)))
  | VUndef | VNull => Throw TypeError
  | _ => Ok VUndef
  end.

(** SameValueZero, the equality of [Set].  Primitives compare by value
    and references by address; two array or object literals are
    different objects. *)
Definition same_value_zero (a b : value) : bool :=
  match a, b with
  | VUndef, VUndef => true
  | VNull, VNull => true
  | VBool x, VBool y => Bool.eqb x y
  | VNum x, VNum y => x =? y
  | VStr x, VStr y => String.eqb x y
  | VMeta x, VMeta y => bool_decide (x = y)
  | _, _ => false
  end.

(** [Array.from(new Set(arr))]: first occurrences, in order. *)
Fixpoint set_insert (seen : list value) (x : value) : list value :=
  match seen with
  | [] => [x]
  | y :: r => if same_value_zero y x then seen else y :: set_insert r x
  end.

Definition js_uniq (recv : value) : outcome value :=
  match recv with
  | VArr l => Ok (VArr (fold_left set_insert l []))
  | _ => Throw TypeError
  end.

(** [recv.filter(Boolean)] *)
Definition js_filter_Boolean (recv : value) : outcome value :=
  match recv with
  | VArr l => Ok (VArr (List.filter truthy l))
  | _ => Throw TypeError
  end.

(** [[...recv].sort()]: the default order compares the elements'
    string forms, is stable, and puts [undefined] last.  With two or
    more elements other than [undefined], each of these is converted
    to a string for a comparison. *)
Fixpoint sort_insert (x : value) (l : list value) : list value :=
  match l with
  | [] => [x]
  | y :: r =>
      if String.ltb (js_String y) (js_String x) then y :: sort_insert x r
      else x :: l
  end.

Definition is_undef (v : value) : bool :=
  match v with VUndef => true | _ => false end.

Definition js_sort_list (l : list value) : list value :=
  fold_right sort_insert [] (List.filter (fun v => negb (is_undef v)) l)
    ++ List.filter is_undef l.

Definition js_spread_sort (recv : value) : outcome value :=
  match recv with
  | VArr l =>
      let compared := List.filter (fun v => negb (is_undef v)) l in
      do _ <- (if Nat.leb (length compared) 1 then Ok tt else convert_all compared);
      Ok (VArr (js_sort_list l))
  | _ => Throw TypeError
  end.

(** ** The filters registered by the [TemplateParser] constructor

    LiquidJS calls a filter with the piped value followed by the
    evaluated arguments; a parameter without an argument is
    [undefined]. *)

Definition FilterImpl : Type := value → list value → outcome value.

Definition arg (i : nat) (args : list value) : value := nth i args VUndef.

(** [(arr, sep = ', ') => Array.isArray(arr) ? arr.join(sep) : String(arr ?? '')] *)
Definition filter_join : FilterImpl := fun arr args =>
  let sep := match arg 0 args with VUndef => VStr ", " | s => s end in
  if isArray arr then js_join arr sep
  else do s <- to_string (nullish arr (VStr "")); Ok (VStr s).

(** [(arr) => Array.isArray(arr) ? Array.from(new Set(arr)) : arr] *)
Definition filter_uniq : FilterImpl := fun arr _ =>
  if isArray arr then js_uniq arr else Ok arr.

(** [(val, def) => (val === undefined || val === null || val === '') ? def : val] *)
Definition filter_default : FilterImpl := fun val args =>
  let def := arg 0 args in
  match val with
  | VUndef | VNull => Ok def
  | VStr s => if String.eqb s "" then Ok def else Ok val
  | _ => Ok val
  end.

(** The [length] filter, lines 99-104. *)
Definition filter_length : FilterImpl := fun v _ =>
  if isArray v then js_length v
  else match v with
       | VStr _ => js_length v
       | VObj _ | VMeta _ => js_keys_length v
       | _ => Ok (VNum 0)
       end.

(** [(s) => String(s ?? '').toLowerCase()] *)
Definition filter_lower : FilterImpl := fun s _ =>
  do str <- to_string (nullish s (VStr ""));
  js_toLowerCase (VStr str).

(** [(s) => String(s ?? '').toUpperCase()] *)
Definition filter_upper : FilterImpl := fun s _ =>
  do str <- to_string (nullish s (VStr ""));
  js_toUpperCase (VStr str).

(** [(arr) => Array.isArray(arr) ? arr.filter(Boolean) : arr] *)
Definition filter_compact : FilterImpl := fun arr _ =>
  if isArray arr then js_filter_Boolean arr else Ok arr.

(** [(arr) => Array.isArray(arr) ? [...arr].sort() : arr] *)
Definition filter_sort : FilterImpl := fun arr _ =>
  if isArray arr then js_spread_sort arr else Ok arr.

(** ** Tokens and parsed templates

    The LiquidJS tokenizer is not embedded: a template text is given as
    its top-level token stream.  A tag token carries its name, its raw
    argument text [tag_args], its source text [tag_text] (what [getText()]
    returns), and what the tokenizer reads from the arguments: the
    leading identifier [tag_key] and the filtered value [tag_value].
    An expression is a string, a number, [true] or [false], or a
    variable name; [Absent] stands for the expression of empty
    arguments, which evaluates to [undefined].  The literals [nil],
    [null], [empty] and [blank], which LiquidJS evaluates to objects of
    its own, are not embedded.  A value token carries the position of
    the output or tag token that holds it. *)

Inductive Expr : Type :=
| LitStr (s : string)
| LitNum (n : Z)
| LitBool (b : bool)
| Absent
| Var (name : string).

Record FilterToken : Type := {
  ft_name : string;
  ft_args : list Expr
}.

Record ValueToken : Type := {
  vt_initial : Expr;
  vt_filters : list FilterToken;
  vt_pos : Position
}.

Record TagToken : Type := {
  tag_name : string;
  tag_args : string;
  tag_text : string;
  tag_key : string;
  tag_value : ValueToken
}.

(** Where the tag token begins. *)
Definition tag_pos (t : TagToken) : Position := vt_pos (tag_value t).

Inductive TopLevelToken : Type :=
| HTMLToken (str : string)
| OutputToken (v : ValueToken)
| TagTok (t : TagToken).

(** A filter of a parsed value keeps the handler found at parse time. *)
Record Filter : Type := {
  f_name : string;
  f_handler : FilterImpl;
  f_args : list Expr
}.

Record Value : Type := {
  initial : Expr;
  filters : list Filter;
  v_pos : Position
}.

Inductive Template : Type :=
| HTML (str : string)
| Output (v : Value)
| AssignTag (key : string) (v : Value)
| CaptureTag (variable : string) (templates : list Template)
| IncrementTag (variable : string)
| DecrementTag (variable : string)
| UpperTag (v : Value)
| MustIncludeEachTag (v : Value)
| SectionTag (pos : Position) (nameArg : string) (templates : list Template).

(** The classes a tag name can be registered with.  [UnmodelledTag]
    stands for a LiquidJS tag outside this development. *)
Inductive TagClass : Type :=
| AssignClass
| CaptureClass
| IncrementClass
| DecrementClass
| UpperClass
| MustIncludeEachClass
| SectionClass
| UnmodelledTag.

(** The engine instance: its filter and tag tables.  Registration puts
    the new entry in front, so it overrides an older one. *)
Record Liquid : Type := {
  liquid_filters : list (string * FilterImpl);
  liquid_tags : list (string * TagClass)
}.

Fixpoint assoc {A : Type} (k : string) (l : list (string * A)) : option A :=
  match l with
  | [] => None
  | (k', a) :: r => if String.eqb k k' then Some a else assoc k r
  end.

Definition registerFilter (nm : string) (fn : FilterImpl) (lq : Liquid) : Liquid :=
  {| liquid_filters := (nm, fn) :: liquid_filters lq;
     liquid_tags := liquid_tags lq |}.

Definition registerTag (nm : string) (impl : TagClass) (lq : Liquid) : Liquid :=
  {| liquid_filters := liquid_filters lq;
     liquid_tags := (nm, impl) :: liquid_tags lq |}.

Definition unmodelled_filter : FilterImpl := fun _ _ => OutOfFragment.

(** [new Liquid({cache: true, jsTruthy: true, strictVariables: false})]:
    the tables LiquidJS starts with.  The option [strictFilters] is not
    given, so it has its default, [false]. *)
Definition new_Liquid : Liquid :=
  {| liquid_filters :=
       map (fun n => (n, unmodelled_filter))
         ["abs"; "append"; "at_least"; "at_most"; "capitalize"; "ceil";
          "compact"; "concat"; "date"; "default"; "divided_by"; "downcase";
          "escape"; "escape_once"; "first"; "floor"; "join"; "json"; "last";
          "lstrip"; "map"; "minus"; "modulo"; "newline_to_br"; "plus";
          "prepend"; "raw"; "remove"; "remove_first"; "replace";
          "replace_first"; "reverse"; "round"; "rstrip"; "size"; "slice";
          "sort"; "sort_natural"; "split"; "strip"; "strip_html";
          "strip_newlines"; "times"; "truncate"; "truncatewords"; "uniq";
          "upcase"; "url_decode"; "url_encode"; "where"];
     liquid_tags :=
       [("assign", AssignClass); ("capture", CaptureClass);
        ("increment", IncrementClass); ("decrement", DecrementClass)]
       ++ map (fun n => (n, UnmodelledTag))
         ["for"; "case"; "comment"; "include"; "render"; "cycle"; "if";
          "layout"; "block"; "raw"; "tablerow"; "unless"; "break";
          "continue"; "echo"; "liquid"; "#"] |}.

(** The [TemplateParser] constructor, lines 73-164. *)
Definition TemplateParser : Liquid :=
  registerTag "section" SectionClass
    (registerTag "must_include_each" MustIncludeEachClass
      (registerFilter "sort" filter_sort
        (registerFilter "compact" filter_compact
          (registerFilter "upper" filter_upper
            (registerFilter "lower" filter_lower
              (registerFilter "length" filter_length
                (registerFilter "default" filter_default
                  (registerFilter "uniq" filter_uniq
                    (registerFilter "join" filter_join
                      (registerTag "upper" UpperClass new_Liquid)))))))))).

(** ** The parser

    [parseToken] builds the template of one token; a block tag's
    constructor consumes the tokens of its body from the shared
    [remainTokens] array, which is threaded through here.  The recursion
    is bounded by [fuel]; [None] means the bound was too small
    ([parse_fuel] shows that the bound [parse] gives is enough).

    What a tag's constructor throws, [parseToken] wraps in a
    [ParseError] at the tag's token; an error from the body of a block
    is a [ParseError] already and stays as it is, and so does the
    error of the tokenizer at an [assign] or a [capture] without a
    name. *)

Definition fbind {A B : Type} (m : option (outcome A))
    (k : A → option (outcome B)) : option (outcome B) :=
  match m with
  | None => None
  | Some (Ok a) => k a
  | Some (Throw msg) => Some (Throw msg)
  | Some OutOfFragment => Some OutOfFragment
  end.

Notation "'fdo' x <- m ; k" := (fbind m (fun x => k))
  (at level 10, x pattern, m at level 100, k at level 200).

(** The handler of a filter name that is in no table ([strictFilters]
    is off): the value passes through. *)
Definition identify : FilterImpl := fun v _ => Ok v.

Definition is_tag (nm : string) (token : TopLevelToken) : bool :=
  match token with
  | TagTok t => String.eqb (tag_name t) nm
  | _ => false
  end.

Definition dquote : ascii := ascii_of_nat 34.

(** [s] between double quotes. *)
Definition quoted (s : string) : string :=
  String dquote (s ++ String dquote EmptyString).

(** The white space that [trim] and the class [\s] remove, among the
    code units below 256: space, tab to carriage return, and the
    no-break space. *)
Definition is_ws (c : ascii) : bool :=
  let n := nat_of_ascii c in
  (Nat.eqb n 32 || (Nat.leb 9 n && Nat.leb n 13) || Nat.eqb n 160)%bool.

Fixpoint trimStart (s : string) : string :=
  match s with
  | String c r => if is_ws c then trimStart r else s
  | EmptyString => EmptyString
  end.

Fixpoint trimEnd (s : string) : string :=
  match s with
  | String c r =>
      match trimEnd r with
      | EmptyString => if is_ws c then EmptyString else String c EmptyString
      | r' => String c r'
      end
  | EmptyString => EmptyString
  end.

(** [s.trim()] *)
Definition trim (s : string) : string := trimEnd (trimStart s).

Section Parser.

Variable liquid : Liquid.

(** [new Value(token, liquid)] *)
Definition newValue (vt : ValueToken) : Value :=
  {| initial := vt_initial vt;
     filters :=
       map (fun ft =>
              {| f_name := ft_name ft;
                 f_handler :=
                   match assoc (ft_name ft) (liquid_filters liquid) with
                   | Some impl => impl
                   | None => identify
                   end;
                 f_args := ft_args ft |})
           (vt_filters vt);
     v_pos := vt_pos vt |}.

Fixpoint parseToken (fuel : nat) (token : TopLevelToken)
    (remainTokens : list TopLevelToken)
    : option (outcome (Template * list TopLevelToken)) :=
  match fuel with
  | O => None
  | S fuel' =>
      match token with
      | HTMLToken s => Some (Ok (HTML s, remainTokens))
      | OutputToken v => Some (Ok (Output (newValue v), remainTokens))
      | TagTok t =>
          match assoc (tag_name t) (liquid_tags liquid) with
          | None =>
              Some (Throw (ParseError ("tag " ++ quoted (tag_name t) ++ " not found")
                             (tag_pos t)))
          | Some AssignClass =>
              if String.eqb (tag_key t) "" then Some (Throw TokenizationError)
              else Some (Ok (AssignTag (tag_key t) (newValue (tag_value t)), remainTokens))
          | Some CaptureClass =>
              if String.eqb (tag_key t) "" then Some (Throw TokenizationError)
              else
                fdo r <- parseStream fuel' "endcapture" remainTokens;
                let '(tpls, closed, rest) := r in
                if closed : bool then Some (Ok (CaptureTag (tag_key t) tpls, rest))
                else Some (Throw (ParseError ("tag " ++ tag_text t ++ " not closed")
                                    (tag_pos t)))
          | Some IncrementClass => Some (Ok (IncrementTag (tag_key t), remainTokens))
          | Some DecrementClass => Some (Ok (DecrementTag (tag_key t), remainTokens))
          | Some UpperClass =>
              Some (Ok (UpperTag (newValue (tag_value t)), remainTokens))
          | Some MustIncludeEachClass =>
              Some (Ok (MustIncludeEachTag (newValue (tag_value t)), remainTokens))
          | Some SectionClass =>
              (* lines 135-144 *)
              let nameArg := trim (tag_args t) in
              fdo r <- parseStream fuel' "endsection" remainTokens;
              let '(tpls, closed, rest) := r in
              if closed : bool then
                Some (Ok (SectionTag (tag_pos t) nameArg tpls, rest))
              else Some (Throw (ParseError ("tag " ++ tag_text t ++ " not closed")
                                  (tag_pos t)))
          | Some UnmodelledTag => Some OutOfFragment
          end
      end
  end

(** [parseStream(tokens).on('template', push).on('tag:<stop>', stop)]:
    the templates up to the stop tag, whether the stop tag was found
    (otherwise the ['end'] event fires), and the tokens left. *)
with parseStream (fuel : nat) (stop : string) (tokens : list TopLevelToken)
    : option (outcome (list Template * bool * list TopLevelToken)) :=
  match fuel with
  | O => None
  | S fuel' =>
      match tokens with
      | [] => Some (Ok ([], false, []))
      | token :: rest =>
          if is_tag stop token then Some (Ok ([], true, rest))
          else
            fdo r <- parseToken fuel' token rest;
            let '(tpl, rest') := r in
            fdo r' <- parseStream fuel' stop rest';
            let '(tpls, closed, rest'') := r' in
            Some (Ok (tpl :: tpls, closed, rest''))
      end
  end.

Fixpoint parseTokens (fuel : nat) (tokens : list TopLevelToken)
    : option (outcome (list Template)) :=
  match fuel with
  | O => None
  | S fuel' =>
      match tokens with
      | [] => Some (Ok [])
      | token :: rest =>
          fdo r <- parseToken fuel' token rest;
          let '(tpl, rest') := r in
          fdo tpls <- parseTokens fuel' rest';
          Some (Ok (tpl :: tpls))
      end
  end.

(** [liquid.parse(html)], on the token stream of [html]. *)
Definition parse (tokens : list TopLevelToken) : outcome (list Template) :=
  match parseTokens (2 * length tokens + 2) tokens with
  | Some r => r
  | None => OutOfFragment
  end.

End Parser.

(** ** Render metadata and the render state *)

Record Constraint : Type := {
  c_type : string;
  words : list string
}.

Record PromptEngMeta : Type := {
  constraints : list Constraint;
  sections : gmap string string
}.

(** [{ constraints: [], sections: {} }] *)
Definition new_meta : PromptEngMeta :=
  {| constraints := []; sections := ∅ |}.

(** What a render call can read and mutate.
    - [scopes] and [environments] are the fields of the LiquidJS
      [Context]: [scopes] starts as [[{}]], [push] appends at the end and
      [bottom()] is the first element; [environments] is the very object
      that was passed to [parseAndRender].
    - [local] holds the metadata records allocated during the call, in
      allocation order; [caller] holds the records that existed before
      the call, by address.  An address absent from [caller] denotes a
      record that is still empty. *)
Record State : Type := {
  scopes : list (gmap string value);
  environments : gmap string value;
  local : list PromptEngMeta;
  caller : gmap nat PromptEngMeta
}.

Definition set_scopes (sc : list (gmap string value)) (st : State) : State :=
  {| scopes := sc; environments := environments st;
     local := local st; caller := caller st |}.

Definition set_environments (env : gmap string value) (st : State) : State :=
  {| scopes := scopes st; environments := env;
     local := local st; caller := caller st |}.

Definition set_local (lo : list PromptEngMeta) (st : State) : State :=
  {| scopes := scopes st; environments := environments st;
     local := lo; caller := caller st |}.

Definition set_caller (ca : gmap nat PromptEngMeta) (st : State) : State :=
  {| scopes := scopes st; environments := environments st;
     local := local st; caller := ca |}.

(** A stateful computation that may throw.  What it did to the state
    before throwing stays done. *)
Definition M (A : Type) : Type := State → State * outcome A.

Definition ret {A : Type} (a : A) : M A := fun st => (st, Ok a).

Definition throw {A : Type} (msg : exception) : M A := fun st => (st, Throw msg).

Definition lift {A : Type} (o : outcome A) : M A := fun st => (st, o).

Definition mbind {A B : Type} (m : M A) (k : A → M B) : M B := fun st =>
  match m st with
  | (st', Ok a) => k a st'
  | (st', Throw msg) => (st', Throw msg)
  | (st', OutOfFragment) => (st', OutOfFragment)
  end.

Notation "'mdo' x <- m ; k" := (mbind m (fun x => k))
  (at level 10, x pattern, m at level 100, k at level 200).

Definition get_state : M State := fun st => (st, Ok st).

Definition modify (f : State → State) : M unit := fun st => (f st, Ok tt).

(** *** The context: [findScope], [get], [push], [bottom] *)

Definition has_key (k : string) (o : gmap string value) : bool :=
  bool_decide (is_Some (o !! k)).

(** The innermost scope that has the key, else the environments when
    they have it, else the (empty) globals. *)
Definition findScope (st : State) (k : string) : gmap string value :=
  match List.find (has_key k) (rev (scopes st)) with
  | Some candidate => candidate
  | None => if has_key k (environments st) then environments st else ∅
  end.

(** [ctx.get([k])] *)
Definition ctx_get (st : State) (k : string) : value :=
  default VUndef (findScope st k !! k).

(** [ctx.push(scope)] *)
Definition ctx_push (scope : gmap string value) : M unit :=
  modify (fun st => set_scopes (scopes st ++ [scope]) st).

(** [ctx.bottom()[k] = v] *)
Definition bottom_set (k : string) (v : value) : M unit := fun st =>
  match scopes st with
  | s0 :: r => (set_scopes (<[k := v]> s0 :: r) st, Ok tt)
  | [] => (st, Throw TypeError)
  end.

(** *** Expressions and filtered values *)

Definition evalToken (e : Expr) (st : State) : value :=
  match e with
  | LitStr s => VStr s
  | LitNum n => VNum n
  | LitBool b => VBool b
  | Absent => VUndef
  | Var x => ctx_get st x
  end.

(** [filter.render(value, ctx)] for each filter, left to right. *)
Fixpoint apply_filters (fs : list Filter) (val : value) (st : State)
    : outcome value :=
  match fs with
  | [] => Ok val
  | f :: r =>
      do val' <- f_handler f val (map (fun a => evalToken a st) (f_args f));
      apply_filters r val' st
  end.

(** [value.value(ctx)] *)
Definition Value_value (v : Value) : M value := fun st =>
  (st, apply_filters (filters v) (evalToken (initial v) st) st).

(** *** Emitters *)

Inductive EmitterKind : Type :=
| SimpleEmitter
| CaptureEmitter.

Record Emitter : Type := {
  kind : EmitterKind;
  buffer : string
}.

(** The string that LiquidJS [stringify] returns: nil prints as
    nothing, an array as its elements' forms put side by side, and
    another value as [String] prints it. *)
Fixpoint stringified (v : value) : string :=
  match v with
  | VStr s => s
  | VUndef | VNull => ""
  | VArr l =>
      (fix elems (l : list value) : string :=
         match l with
         | [] => ""
         | x :: r => stringified x ++ elems r
         end) l
  | _ => js_String v
  end.

(** [stringify(v)] *)
Definition stringify (v : value) : outcome string :=
  do _ <- convert_all [v];
  Ok (stringified v).

(** The emitter after [write(v)] has returned. *)
Definition written (v : value) (e : Emitter) : Emitter :=
  match kind e with
  | SimpleEmitter => {| kind := SimpleEmitter; buffer := buffer e ++ stringified v |}
  | CaptureEmitter => {| kind := CaptureEmitter; buffer := buffer e ++ js_String v |}
  end.

(** [emitter.write(v)]: the simple emitter does
    [buffer += stringify(v)], the section's [CaptureEmitter] does
    [buffer += v] (lines 152-156).  Either converts [v] to a string. *)
Definition write (v : value) (e : Emitter) : outcome Emitter :=
  do _ <- convert_all [v];
  Ok (written v e).

(** *** Strings *)

Definition squote : ascii := ascii_of_nat 39.
Definition comma : ascii := ascii_of_nat 44.

Definition startsWith (c : ascii) (s : string) : bool :=
  match s with
  | String a _ => Ascii.eqb a c
  | EmptyString => false
  end.

Fixpoint endsWith (c : ascii) (s : string) : bool :=
  match s with
  | EmptyString => false
  | String a EmptyString => Ascii.eqb a c
  | String _ r => endsWith c r
  end.

Fixpoint dropLast (s : string) : string :=
  match s with
  | EmptyString => EmptyString
  | String _ EmptyString => EmptyString
  | String a r => String a (dropLast r)
  end.

(** [s.slice(1, -1)] *)
Definition slice_1_m1 (s : string) : string :=
  match s with
  | EmptyString => EmptyString
  | String _ r => dropLast r
  end.

(** [s.split(sep)] for a one-character separator. *)
Fixpoint split (sep : ascii) (s : string) : list string :=
  match s with
  | EmptyString => [EmptyString]
  | String a r =>
      if Ascii.eqb a sep then EmptyString :: split sep r
      else match split sep r with
           | piece :: pieces => String a piece :: pieces
           | [] => [String a EmptyString]
           end
  end.

Definition nonempty (s : string) : bool := negb (String.eqb s "").

(** *** The two writes to a metadata record *)

Definition push_constraint (c : Constraint) (m : PromptEngMeta) : PromptEngMeta :=
  {| constraints := constraints m ++ [c]; sections := sections m |}.

(** [obj[k] = s] on a plain object, for a string [s]: the key
    [__proto__] is the prototype accessor, which ignores a string. *)
Definition obj_set (k : string) (s : string) (o : gmap string string)
    : gmap string string :=
  if String.eqb k "__proto__" then o else <[k := s]> o.

Definition set_section (k : string) (s : string) (m : PromptEngMeta) : PromptEngMeta :=
  {| constraints := constraints m; sections := obj_set k s (sections m) |}.

(** Apply [f] to the record that [r] refers to. *)
Definition update_meta (r : ref) (f : PromptEngMeta → PromptEngMeta) : M unit :=
  fun st =>
    match r with
    | RLocal i =>
        match local st !! i with
        | Some m => (set_local (<[i := f m]> (local st)) st, Ok tt)
        | None => (st, OutOfFragment)
        end
    | RCaller l =>
        (set_caller (<[l := f (default new_meta (caller st !! l))]> (caller st)) st,
         Ok tt)
    end.

(** [meta.constraints.push(c)] for a truthy [meta].  A plain object
    with an array under [constraints] would be mutated in place, which
    the tree values cannot express. *)
Definition meta_constraints_push (meta : value) (c : Constraint) : M unit :=
  match meta with
  | VMeta r => update_meta r (push_constraint c)
  | VObj fs =>
      match assoc "constraints" fs with
      | Some (VArr _) => lift OutOfFragment
      | Some VUndef | Some VNull | None =>
          throw TypeError
      | Some _ => throw TypeError
      end
  | _ => throw TypeError
  end.

(** [meta.sections[name] = s] for a truthy [meta]. *)
Definition meta_sections_set (meta : value) (k : string) (s : string) : M unit :=
  match meta with
  | VMeta r => update_meta r (set_section k s)
  | VObj fs =>
      match assoc "sections" fs with
      | Some (VArr _) | Some (VObj _) | Some (VMeta _) => lift OutOfFragment
      | Some VUndef | Some VNull | None =>
          throw TypeError
      | Some _ => throw TypeError
      end
  | _ => throw TypeError
  end.

(** Lines 122-123 and 150-151:
    [let meta = ctx.get(['__promptengMeta']);
     if (!meta) { meta = { constraints: [], sections: {} };
                  ctx.push({ __promptengMeta: meta }); }] *)
Definition get_or_create_meta : M value := fun st =>
  let meta := ctx_get st "__promptengMeta" in
  if truthy meta then (st, Ok meta)
  else
    let r := VMeta (RLocal (length (local st))) in
    let st' := set_local (local st ++ [new_meta]) st in
    mbind (ctx_push {[ "__promptengMeta" := r ]}) (fun _ => ret r) st'.

(** ** Rendering *)

(** [renderer.renderTemplates(templates, ctx, emitter)], given how one
    template renders: each template in turn, into the same emitter. *)
Definition renderList (render1 : Template → Emitter → M Emitter)
    : list Template → Emitter → M Emitter :=
  fix go (templates : list Template) (emitter : Emitter) : M Emitter :=
    match templates with
    | [] => ret emitter
    | tpl :: rest => mdo emitter' <- render1 tpl emitter; go rest emitter'
    end.

(** The words of a [must_include_each] argument, lines 119-121, and
    the conversions that compute them: [String(x)] for each element of
    an array. *)
Definition words_of (raw : value) : list string :=
  match raw with
  | VArr l => map js_String l
  | VStr s => List.filter nonempty (map trim (split comma s))
  | _ => []
  end.

Definition read_words (raw : value) : outcome (list string) :=
  do _ <- match raw with
          | VArr l => convert_all l
          | _ => Ok tt
          end;
  Ok (words_of raw).

(** The sentence [must_include_each] returns, line 125. *)
Definition helper_text (ws : list string) : string :=
  match ws with
  | [] => ""
  | _ => "IMPORTANT: You MUST use EACH of these words at least once: "
           ++ String.concat ", " ws ++ "."
  end.

(** The section name, lines 146-149. *)
Definition section_name (nameArg : string) : string :=
  if ((startsWith dquote nameArg && endsWith dquote nameArg)
      || (startsWith squote nameArg && endsWith squote nameArg))%bool
  then slice_1_m1 nameArg
  else nameArg.

Definition is_number (v : option value) : bool :=
  match v with Some (VNum _) => true | _ => false end.

(** A string that a tag returns is written by the renderer when it is
    not empty ([html && emitter.write(html)]). *)
Definition write_html (html : string) (e : Emitter) : Emitter :=
  if String.eqb html "" then e else written (VStr html) e.

(** The [catch] of [renderTemplates]: what a template throws while it
    renders comes out as a [RenderError] at the template's token,
    unless it is an error of LiquidJS already. *)
Definition catching {A : Type} (pos : Position) (m : M A) : M A := fun st =>
  match m st with
  | (st', Throw e) =>
      (st', Throw (if is_LiquidError e then e else RenderError e pos))
  | r => r
  end.

Fixpoint renderTemplate (tpl : Template) (emitter : Emitter) {struct tpl}
    : M Emitter :=
  match tpl with
  | HTML str => lift (write (VStr str) emitter)
  | Output v =>
      catching (v_pos v)
        (mdo val <- Value_value v;
         lift (write val emitter))
  | AssignTag k v =>
      catching (v_pos v)
        (mdo val <- Value_value v;
         mdo _ <- bottom_set k val;
         ret emitter)
  | CaptureTag variable templates =>
      mdo e <- renderList renderTemplate templates
                 {| kind := SimpleEmitter; buffer := "" |};
      mdo _ <- bottom_set variable (VStr (buffer e));
      ret emitter
  | IncrementTag variable =>
      mdo _ <- modify (fun st =>
                 if is_number (environments st !! variable) then st
                 else set_environments (<[variable := VNum 0]> (environments st)) st);
      mdo st <- get_state;
      let val := default VUndef (environments st !! variable) in
      mdo _ <- modify (fun st =>
                 match val with
                 | VNum n => set_environments
                               (<[variable := VNum (n + 1)]> (environments st)) st
                 | _ => st
                 end);
      mdo s <- lift (stringify val);
      lift (write (VStr s) emitter)
  | DecrementTag variable =>
      mdo _ <- modify (fun st =>
                 if is_number (environments st !! variable) then st
                 else set_environments (<[variable := VNum 0]> (environments st)) st);
      mdo st <- get_state;
      let val := match environments st !! variable with
                 | Some (VNum n) => VNum (n - 1)
                 | _ => VUndef
                 end in
      mdo _ <- modify (fun st =>
                 set_environments (<[variable := val]> (environments st)) st);
      mdo s <- lift (stringify val);
      lift (write (VStr s) emitter)
  | UpperTag v =>
      (* lines 88-91 *)
      catching (v_pos v)
        (mdo str <- Value_value v;
         mdo s <- lift (to_string str);
         mdo up <- lift (js_toUpperCase (VStr s));
         ret (write_html (js_String up) emitter))
  | MustIncludeEachTag v =>
      (* lines 117-126 *)
      catching (v_pos v)
        (mdo raw <- Value_value v;
         mdo ws <- lift (read_words raw);
         mdo meta <- get_or_create_meta;
         mdo _ <- meta_constraints_push meta
                    {| c_type := "must_include_each"; words := ws |};
         ret (write_html (helper_text ws) emitter))
  | SectionTag pos nameArg templates =>
      (* lines 145-161 *)
      catching pos
        (let nm := section_name nameArg in
         mdo meta <- get_or_create_meta;
         mdo e <- renderList renderTemplate templates
                    {| kind := CaptureEmitter; buffer := "" |};
         mdo _ <- meta_sections_set meta nm (buffer e);
         ret (write_html "" emitter))
  end.

Definition renderTemplates : list Template → Emitter → M Emitter :=
  renderList renderTemplate.

(** ** The public methods of [TemplateParser] *)

(** What a call leaves behind for its caller: the returned value or the
    thrown error, the caller's variables object after the call, and the
    caller's metadata records after the call. *)
Record Returned (A : Type) : Type := {
  result : outcome A;
  variables_after : gmap string value;
  heap_after : gmap nat PromptEngMeta
}.

Arguments result {A} r.
Arguments variables_after {A} r.
Arguments heap_after {A} r.

(** [new Context(scope)] *)
Definition new_Context (scope : gmap string value)
    (lo : list PromptEngMeta) (heap : gmap nat PromptEngMeta) : State :=
  {| scopes := [∅]; environments := scope; local := lo; caller := heap |}.

(** [engine.parseAndRender(template, scope)]: parse, then render the
    templates into a fresh simple emitter and return its buffer. *)
Definition parseAndRender (liquid : Liquid) (template : list TopLevelToken)
    (st : State) : State * outcome string :=
  match parse liquid template with
  | Ok tpls =>
      match renderTemplates tpls {| kind := SimpleEmitter; buffer := "" |} st with
      | (st', Ok e) => (st', Ok (buffer e))
      | (st', Throw msg) => (st', Throw msg)
      | (st', OutOfFragment) => (st', OutOfFragment)
      end
  | Throw msg => (st, Throw msg)
  | OutOfFragment => (st, OutOfFragment)
  end.

(** Lines 166-168.  The caller's [variables] object itself becomes the
    environments of the context. *)
Definition render (liquid : Liquid) (template : list TopLevelToken)
    (variables : gmap string value) (heap : gmap nat PromptEngMeta)
    : Returned string :=
  let '(st, r) := parseAndRender liquid template (new_Context variables [] heap) in
  {| result := r; variables_after := environments st; heap_after := caller st |}.

Record TextAndMeta : Type := {
  text : string;
  meta : PromptEngMeta
}.

(** Lines 170-175.  [meta] is the first record allocated by the call;
    [scope] is a new object, so [variables] is not reachable from the
    context. *)
Definition renderWithMeta (liquid : Liquid) (template : list TopLevelToken)
    (variables : gmap string value) (heap : gmap nat PromptEngMeta)
    : Returned TextAndMeta :=
  let meta0 := VMeta (RLocal 0) in
  let scope := <[ "__promptengMeta" := meta0 ]> variables in
  let '(st, r) := parseAndRender liquid template (new_Context scope [new_meta] heap) in
  {| result := do t <- r;
               match local st !! 0%nat with
               | Some m => Ok {| text := t; meta := m |}
               | None => OutOfFragment
               end;
     variables_after := variables;
     heap_after := caller st |}.

(** * The prompt engine: [engine-helpers.ts] and [engine.ts]

    A loaded template carries the token stream of its [content] and the
    variable definitions of its frontmatter.  The fields of the two
    records are prefixed, since [name] and [variables] occur in both and
    as parameters of the functions below.  The [metadata] of a template
    and the [default] of a variable are read by none of these
    functions.  A [Map] of templates is the list of its entries in
    insertion order; [get] is [assoc]. *)

Record VariableDefinition : Type := {
  var_name : string;
  var_type : string;
  required : bool;
  var_description : option string
}.

Record PromptTemplate : Type := {
  tpl_name : string;
  tpl_content : list TopLevelToken;
  tpl_variables : list VariableDefinition
}.

Record ValidationResult : Type := {
  valid : bool;
  errors : list string
}.

(** The property names that every plain object inherits from
    [Object.prototype]. *)
Definition object_prototype_names : list string :=
  ["constructor"; "__defineGetter__"; "__defineSetter__"; "hasOwnProperty";
   "__lookupGetter__"; "__lookupSetter__"; "isPrototypeOf";
   "propertyIsEnumerable"; "toString"; "valueOf"; "__proto__";
   "toLocaleString"].

(** [k in o] for a plain object [o]: an own or an inherited property. *)
Definition js_in (k : string) (o : gmap string value) : bool :=
  (has_key k o || existsb (String.eqb k) object_prototype_names)%bool.

Definition not_found (templateName : string) : string :=
  "Template '" ++ templateName ++ "' not found.".

Definition missing_required (varDef : VariableDefinition) : string :=
  "Missing required variable: '" ++ var_name varDef ++ "'".

(** [engine-helpers.ts], lines 48-64. *)
Definition validateVariablesCommon (templates : list (string * PromptTemplate))
    (templateName : string) (variables : gmap string value)
    : outcome ValidationResult :=
  match assoc templateName templates with
  | None => Throw (not_found templateName)
  | Some template =>
      let errors :=
        fold_left
          (fun errors varDef =>
             if (required varDef && negb (js_in (var_name varDef) variables))%bool
             then (errors ++ [missing_required varDef])%list
             else errors)
          (tpl_variables template) [] in
      Ok {| valid := Nat.eqb (length errors) 0; errors := errors |}
  end.

(** A call that throws before it renders. *)
Definition rejected {A : Type} (o : outcome A) (variables : gmap string value)
    (heap : gmap nat PromptEngMeta) : Returned A :=
  {| result := o; variables_after := variables; heap_after := heap |}.

(** [engine-helpers.ts], lines 4-16.  The result of the validation is
    not looked at. *)
Definition renderCommon (parser : Liquid)
    (templates : list (string * PromptTemplate)) (templateName : string)
    (variables : gmap string value) (heap : gmap nat PromptEngMeta)
    : Returned string :=
  match assoc templateName templates with
  | None => rejected (Throw (not_found templateName)) variables heap
  | Some template =>
      match validateVariablesCommon templates templateName variables with
      | Ok _ => render parser (tpl_content template) variables heap
      | Throw msg => rejected (Throw msg) variables heap
      | OutOfFragment => rejected OutOfFragment variables heap
      end
  end.

(** What [renderWithMeta] of the engine returns:
    [{ text, sections, constraints }]. *)
Record Rendered : Type := {
  r_text : string;
  r_sections : gmap string string;
  r_constraints : list Constraint
}.

(** [engine-helpers.ts], lines 18-33.  The record that the parser
    returns always has its two fields, so the fallbacks [|| {}] and
    [|| []] are never taken. *)
Definition renderWithMetaCommon (parser : Liquid)
    (templates : list (string * PromptTemplate)) (templateName : string)
    (variables : gmap string value) (heap : gmap nat PromptEngMeta)
    : Returned Rendered :=
  match assoc templateName templates with
  | None => rejected (Throw (not_found templateName)) variables heap
  | Some template =>
      match validateVariablesCommon templates templateName variables with
      | Ok _ =>
          let r := renderWithMeta parser (tpl_content template) variables heap in
          {| result := do tm <- result r;
                       Ok {| r_text := text tm;
                             r_sections := sections (meta tm);
                             r_constraints := constraints (meta tm) |};
             variables_after := variables_after r;
             heap_after := heap_after r |}
      | Throw msg => rejected (Throw msg) variables heap
      | OutOfFragment => rejected OutOfFragment variables heap
      end
  end.

(** [engine-helpers.ts], lines 35-46. *)
Definition renderMultiCommon (parser : Liquid)
    (templates : list (string * PromptTemplate)) (templateName : string)
    (variables : gmap string value) (heap : gmap nat PromptEngMeta)
    : Returned (gmap string string) :=
  let r := renderWithMetaCommon parser templates templateName variables heap in
  {| result := do x <- result r;
               if Nat.eqb (size (r_sections x)) 0
               then Ok {[ "prompt" := r_text x ]}
               else Ok (r_sections x);
     variables_after := variables_after r;
     heap_after := heap_after r |}.

(** ** The class [PromptEngine], [engine.ts] *)

Record PromptEngine : Type := {
  engine_templates : list (string * PromptTemplate);
  engine_parser : Liquid
}.

(** [engine.ts], lines 133-147. *)
Definition PromptEngine_validateVariables (this : PromptEngine)
    (templateName : string) (variables : gmap string value)
    : outcome ValidationResult :=
  match assoc templateName (engine_templates this) with
  | None => Throw (not_found templateName)
  | Some template =>
      let errors :=
        fold_left
          (fun errors varDef =>
             if (required varDef && negb (js_in (var_name varDef) variables))%bool
             then (errors ++ [missing_required varDef])%list
             else errors)
          (tpl_variables template) [] in
      Ok {| valid := Nat.eqb (length errors) 0; errors := errors |}
  end.

(** [engine.ts], lines 85-93. *)
Definition PromptEngine_render (this : PromptEngine) (templateName : string)
    (variables : gmap string value) (heap : gmap nat PromptEngMeta)
    : Returned string :=
  match assoc templateName (engine_templates this) with
  | None => rejected (Throw (not_found templateName)) variables heap
  | Some template =>
      match PromptEngine_validateVariables this templateName variables with
      | Ok _ => render (engine_parser this) (tpl_content template) variables heap
      | Throw msg => rejected (Throw msg) variables heap
      | OutOfFragment => rejected OutOfFragment variables heap
      end
  end.

(** [engine.ts], lines 105-115. *)
Definition PromptEngine_renderWithMeta (this : PromptEngine)
    (templateName : string) (variables : gmap string value)
    (heap : gmap nat PromptEngMeta) : Returned Rendered :=
  match assoc templateName (engine_templates this) with
  | None => rejected (Throw (not_found templateName)) variables heap
  | Some template =>
      match PromptEngine_validateVariables this templateName variables with
      | Ok _ =>
          let r := renderWithMeta (engine_parser this) (tpl_content template)
                     variables heap in
          {| result := do tm <- result r;
                       Ok {| r_text := text tm;
                             r_sections := sections (meta tm);
                             r_constraints := constraints (meta tm) |};
             variables_after := variables_after r;
             heap_after := heap_after r |}
      | Throw msg => rejected (Throw msg) variables heap
      | OutOfFragment => rejected OutOfFragment variables heap
      end
  end.

(** [engine.ts], lines 124-131. *)
Definition PromptEngine_renderMulti (this : PromptEngine)
    (templateName : string) (variables : gmap string value)
    (heap : gmap nat PromptEngMeta) : Returned (gmap string string) :=
  let r := PromptEngine_renderWithMeta this templateName variables heap in
  {| result := do x <- result r;
               if Nat.eqb (size (r_sections x)) 0
               then Ok {[ "prompt" := r_text x ]}
               else Ok (r_sections x);
     variables_after := variables_after r;
     heap_after := heap_after r |}.

(** [getTemplate] and [listTemplates], lines 149-155. *)
Definition getTemplate (this : PromptEngine) (templateName : string)
    : option PromptTemplate :=
  assoc templateName (engine_templates this).

Definition listTemplates (this : PromptEngine) : list string :=
  map fst (engine_templates this).

(** ** Type definitions, [engine-helpers.ts], lines 66-100 *)

Definition is_separator (c : ascii) : bool :=
  (Ascii.eqb c "-" || Ascii.eqb c "_" || is_ws c)%bool.

(** [str.split(/[-_\s]+/)]: the pieces between the runs of separator
    characters.  [in_run] tells that the character before was a
    separator. *)
Fixpoint split_runs (in_run : bool) (str : string) : list string :=
  match str with
  | EmptyString => [EmptyString]
  | String c r =>
      if is_separator c then
        if in_run then split_runs true r else EmptyString :: split_runs true r
      else
        match split_runs false r with
        | word :: words => String c word :: words
        | [] => [String c EmptyString]
        end
  end.

(** [word.charAt(0).toUpperCase() + word.slice(1).toLowerCase()] *)
Definition capitalize (word : string) : string :=
  match word with
  | EmptyString => EmptyString
  | String c r => String (upper_ascii c) (map_string lower_ascii r)
  end.

Definition toPascalCase (str : string) : string :=
  String.concat "" (map capitalize (split_runs false str)).

Definition mapToTsType (type : string) : string :=
  if String.eqb type "string" then "string"
  else if String.eqb type "number" then "number"
  else if String.eqb type "boolean" then "boolean"
  else if String.eqb type "array" then "any[]"
  else if String.eqb type "object" then "Record<string, any>"
  else "any".

Definition newline : string := String (ascii_of_nat 10) EmptyString.

(** One line of an interface, lines 72-75. *)
Definition property_line (varDef : VariableDefinition) : string :=
  let tsType := mapToTsType (var_type varDef) in
  let optional := if required varDef then "" else "?" in
  let comment := match var_description varDef with
                 | Some d => if String.eqb d "" then "" else " // " ++ d
                 | None => ""
                 end in
  "    " ++ var_name varDef ++ optional ++ ": " ++ tsType ++ ";" ++ comment.

Definition interface_text (name : string) (template : PromptTemplate) : string :=
  "export interface " ++ toPascalCase name ++ "Variables" ++ " {" ++ newline
  ++ String.concat newline (map property_line (tpl_variables template))
  ++ newline ++ "}".

Definition generateTypeDefinitionsCommon
    (templates : list (string * PromptTemplate)) : string :=
  let interfaces :=
    fold_left
      (fun interfaces '(name, template) =>
         if Nat.ltb 0 (length (map property_line (tpl_variables template)))
         then (interfaces ++ [interface_text name template])%list
         else interfaces)
      templates [] in
  String.concat (newline ++ newline) interfaces.

(** * The test runner: [testing/runner.ts] and [types.ts] *)

Record AssertionResult : Type := {
  description : string;
  passed : bool
}.

(** [s.includes(searchString)] *)
Fixpoint includes (searchString : string) (s : string) : bool :=
  (String.prefix searchString s
   || match s with
      | String _ r => includes searchString r
      | EmptyString => false
      end)%bool.

(** One turn of the loop of [TestRunner.validateAssertions].  An
    assertion is an object, given by its properties in the order of
    [Object.keys]; [key] is the first property name, if any, and
    [value] is what is stored under it.  The template literal and
    [includes] convert [value] to a string. *)
Definition validateAssertion (responseText : string)
    (assertion : list (string * value)) : outcome AssertionResult :=
  let key := match assertion with
             | (k, _) :: _ => Some k
             | [] => None
             end in
  let value := match assertion with
               | (_, v) :: _ => v
               | [] => VUndef
               end in
  match key with
  | Some k =>
      if String.eqb k "contains" then
        do s <- to_string value;
        Ok {| description := "contains " ++ quoted s;
              passed := includes s responseText |}
      else if String.eqb k "not_contains" then
        do s <- to_string value;
        Ok {| description := "not_contains " ++ quoted s;
              passed := negb (includes s responseText) |}
      else
        Ok {| description := "unknown assertion " ++ quoted k;
              passed := false |}
  | None =>
      Ok {| description := "unknown assertion " ++ quoted "undefined";
            passed := false |}
  end.

(** [TestRunner.validateAssertions]: the results are pushed one after
    the other; an error ends the loop. *)
Definition validateAssertions (responseText : string)
    (assertions : list (list (string * value)))
    : outcome (list AssertionResult) :=
  fold_left
    (fun results assertion =>
       do results <- results;
       do r <- validateAssertion responseText assertion;
       Ok (results ++ [r])%list)
    assertions (Ok []).

(** [TestResult], without its fields [tokenUsage] and [assertions]. *)
Record TestResult : Type := {
  testCase : string;
  provider : string;
  success : bool;
  responseTime : Z;
  error : option string
}.

(** The getters [passed] and [failed] of [TestResults],
    [types.ts] lines 67-73. *)
Definition TestResults_passed (results : list TestResult) : nat :=
  length (List.filter (fun r => success r) results).

Definition TestResults_failed (results : list TestResult) : nat :=
  length (List.filter (fun r => negb (success r)) results).

(** * The OpenAI provider: [providers/openai.ts] *)

(** [Math.ceil(n / d)] for a length [n] and a positive [d]. *)
Definition ceil_div (n d : Z) : Z :=
  if n mod d =? 0 then n / d else n / d + 1.

(** Lines 46-49. *)
Definition estimateTokens (text : string) : Z :=
  ceil_div (Z.of_nat (String.length text)) 4.

(** * Vocabulary of the statements *)

(** ** Tokens *)

(** The filters that the constructor registers, lines 96-108. *)
Definition builtin_filter_names : list string :=
  ["default"; "join"; "uniq"; "length"; "lower"; "upper"; "compact"; "sort"].

(** The values that a registered filter converts to a string on the
    piped value [v] and the arguments [args]: [join] the value itself,
    or the separator and the elements of an array; [lower] and [upper]
    the value; [sort] the elements of an array other than [undefined],
    when there are two or more; the other filters none. *)
Definition conversions (nm : string) (v : value) (args : list value)
    : list value :=
  if String.eqb nm "join" then
    match v with
    | VArr l => arg 0 args :: l
    | _ => [v]
    end
  else if (String.eqb nm "lower" || String.eqb nm "upper")%bool then [v]
  else if String.eqb nm "sort" then
    match v with
    | VArr l =>
        let compared := List.filter (fun x => negb (is_undef x)) l in
        if Nat.leb (length compared) 1 then [] else compared
    | _ => []
    end
  else [].

(** The tag names that close a block.  They are in no tag table: a
    block's stream consumes them. *)
Definition terminator (nm : string) : bool :=
  (String.eqb nm "endsection" || String.eqb nm "endcapture")%bool.

(** A token that only [parseToken] can consume. *)
Definition ordinary (tok : TopLevelToken) : bool :=
  match tok with
  | TagTok t => negb (terminator (tag_name t))
  | _ => true
  end.

(** A token of the embedded part of LiquidJS. *)
Definition in_fragment (liquid : Liquid) (tok : TopLevelToken) : bool :=
  match tok with
  | TagTok t =>
      match assoc (tag_name t) (liquid_tags liquid) with
      | Some UnmodelledTag => false
      | _ => true
      end
  | _ => true
  end.

(** Every element of a sequence given to [must_include_each] can be
    converted to a string. *)
Definition words_convert (raw : value) : bool :=
  match raw with
  | VArr l => (forallb convertible l && forallb in_range l)%bool
  | _ => true
  end.

(** The filter chain without the filters whose name is in no table. *)
Definition known_filters (liquid : Liquid) (vt : ValueToken) : ValueToken :=
  {| vt_initial := vt_initial vt;
     vt_filters :=
       List.filter
         (fun ft => match assoc (ft_name ft) (liquid_filters liquid) with
                    | Some _ => true
                    | None => false
                    end)
         (vt_filters vt);
     vt_pos := vt_pos vt |}.

(** ** Templates *)

(** [all_nodes p tpl]: [p] holds of [tpl] and of every template nested
    in its blocks. *)
Fixpoint all_nodes (p : Template → bool) (tpl : Template) : bool :=
  (p tpl &&
   match tpl with
   | CaptureTag _ templates | SectionTag _ _ templates =>
       forallb (all_nodes p) templates
   | _ => true
   end)%bool.

(** The tags that write counters into the environments. *)
Definition is_counter (tpl : Template) : bool :=
  match tpl with
  | IncrementTag _ | DecrementTag _ => true
  | _ => false
  end.

Definition is_section (tpl : Template) : bool :=
  match tpl with
  | SectionTag _ _ _ => true
  | _ => false
  end.

(** The name under which the metadata record travels. *)
Definition META : string := "__promptengMeta".

(** The tags that bind a name: [assign] and [capture] write it into the
    bottom scope, [increment] and [decrement] into the environments. *)
Definition binds (k : string) (tpl : Template) : bool :=
  match tpl with
  | AssignTag x _ | CaptureTag x _ | IncrementTag x | DecrementTag x =>
      String.eqb x k
  | _ => false
  end.

Definition expr_mentions (k : string) (e : Expr) : bool :=
  match e with
  | Var x => String.eqb x k
  | _ => false
  end.

Definition value_mentions (k : string) (v : Value) : bool :=
  (expr_mentions k (initial v)
   || existsb (fun f => existsb (expr_mentions k) (f_args f)) (filters v))%bool.

(** The templates that read the name in an expression. *)
Definition reads (k : string) (tpl : Template) : bool :=
  match tpl with
  | Output v | AssignTag _ v | UpperTag v | MustIncludeEachTag v =>
      value_mentions k v
  | _ => false
  end.

(** No [increment] or [decrement] anywhere in the template. *)
Definition no_counter (tpl : Template) : bool :=
  all_nodes (fun t => negb (is_counter t)) tpl.

(** No tag of the template binds the metadata name. *)
Definition no_rebind (tpl : Template) : bool :=
  all_nodes (fun t => negb (binds META t)) tpl.

(** No [section] anywhere in the template. *)
Definition no_section (tpl : Template) : bool :=
  all_nodes (fun t => negb (is_section t)) tpl.

(** No [section], and the metadata name is neither bound nor read. *)
Definition quiet (tpl : Template) : bool :=
  all_nodes
    (fun t => (negb (is_section t) && negb (binds META t)
               && negb (reads META t))%bool) tpl.

(** ** Induction over templates and their blocks *)

Section TemplateInduction.

Variable P : Template → Prop.
Hypothesis P_HTML : ∀ s, P (HTML s).
Hypothesis P_Output : ∀ v, P (Output v).
Hypothesis P_Assign : ∀ k v, P (AssignTag k v).
Hypothesis P_Capture : ∀ x b, Forall P b → P (CaptureTag x b).
Hypothesis P_Increment : ∀ x, P (IncrementTag x).
Hypothesis P_Decrement : ∀ x, P (DecrementTag x).
Hypothesis P_Upper : ∀ v, P (UpperTag v).
Hypothesis P_MustIncludeEach : ∀ v, P (MustIncludeEachTag v).
Hypothesis P_Section : ∀ p n b, Forall P b → P (SectionTag p n b).

Fixpoint Template_nested_ind (tpl : Template) : P tpl :=
  let blocks :=
    fix blocks (l : list Template) : Forall P l :=
      match l with
      | [] => @List.Forall_nil _ P
      | x :: r => @List.Forall_cons _ P x r (Template_nested_ind x) (blocks r)
      end in
  match tpl with
  | HTML s => P_HTML s
  | Output v => P_Output v
  | AssignTag k v => P_Assign k v
  | CaptureTag x b => P_Capture x b (blocks b)
  | IncrementTag x => P_Increment x
  | DecrementTag x => P_Decrement x
  | UpperTag v => P_Upper v
  | MustIncludeEachTag v => P_MustIncludeEach v
  | SectionTag p n b => P_Section p n b (blocks b)
  end.

End TemplateInduction.

(** ** States *)

(** The state in which [renderWithMeta] starts a render, and which a
    template that does not bind the metadata name keeps: the name is
    bound in the environments, to the call's own record, and no scope
    shadows it. *)
Definition meta_bound (st : State) : Prop :=
  environments st !! META = Some (VMeta (RLocal 0))
  ∧ Forall (λ s : gmap string value, s !! META = None) (scopes st)
  ∧ scopes st ≠ []
  ∧ (0 < length (local st))%nat.

(** The record a reference denotes. *)
Definition deref (r : ref) (st : State) : option PromptEngMeta :=
  match r with
  | RLocal i => local st !! i
  | RCaller l => Some (default new_meta (caller st !! l))
  end.

(** The metadata name resolves to a record, or to nothing (a falsy
    value), in which case a directive creates the record. *)
Definition meta_ready (st : State) : Prop :=
  match ctx_get st META with
  | VMeta (RLocal i) => (i < length (local st))%nat
  | VMeta (RCaller _) => True
  | v => truthy v = false
  end.

(** The render metadata of a state: the record the name resolves to
    and its content, or the record about to be created. *)
Definition render_meta (st : State) : ref * PromptEngMeta :=
  match ctx_get st META with
  | VMeta r => (r, default new_meta (deref r st))
  | _ => (RLocal (length (local st)), new_meta)
  end.

(** The scope that the first executed directive pushes when the name
    is not bound yet. *)
Definition meta_scope : gmap string value := {[ META := VMeta (RLocal 0) ]}.

(** A state of [render] beside the state of [renderWithMeta] at the
    same point of the same template: [renderWithMeta] has the name in
    its environments from the start; [render] gets it, in a scope on
    top, when the first directive creates the record. *)
Definition with_meta (a b : State) : Prop :=
  environments a !! META = None
  ∧ environments b = <[META := VMeta (RLocal 0)]> (environments a)
  ∧ Forall (λ s : gmap string value, s !! META = None) (scopes b)
  ∧ scopes b ≠ []
  ∧ ((scopes a = scopes b ∧ local a = [] ∧ local b = [new_meta])
     ∨ (scopes a = (scopes b ++ [meta_scope])%list ∧ local a = local b
        ∧ (0 < length (local b))%nat)).

(** No record allocated by the call has a section. *)
Definition no_sections_yet (st : State) : Prop :=
  Forall (λ m, sections m = ∅) (local st).

(** Two runs of the same code from related states return the same and
    end in related states. *)
Definition simulates (S : State → State → Prop) (run : Emitter → M Emitter)
    : Prop :=
  ∀ e a b, S a b →
    (run e a).2 = (run e b).2 ∧ S (run e a).1 (run e b).1.

(** ** Templates made of sections and literal text *)

(** A section block, whatever its body, or literal text. *)
Definition section_or_text (tpl : Template) : bool :=
  match tpl with
  | HTML _ | SectionTag _ _ _ => true
  | _ => false
  end.

(** The literal text outside the blocks. *)
Fixpoint literal_text (tpls : list Template) : string :=
  match tpls with
  | [] => ""
  | HTML s :: rest => s ++ literal_text rest
  | _ :: rest => literal_text rest
  end.






(** ** Example templates *)

(** ** Errors and counters *)

(** The error of a block tag that is not closed, and of a tag whose
    name is in no table, each at the tag's token. *)
Definition not_closed (t : TagToken) : exception :=
  ParseError ("tag " ++ tag_text t ++ " not closed") (tag_pos t).

Definition not_found_tag (t : TagToken) : exception :=
  ParseError ("tag " ++ quoted (tag_name t) ++ " not found") (tag_pos t).

(** What [catching] makes of an outcome. *)
Definition caught {A : Type} (p : Position) (o : outcome A) : outcome A :=
  match o with
  | Throw x => Throw (if is_LiquidError x then x else RenderError x p)
  | _ => o
  end.

(** The state in which a counter tag reads its counter: a counter that
    is no number is first set to 0. *)
Definition counter_ready (x : string) (st : State) : State :=
  if is_number (environments st !! x) then st
  else set_environments (<[x := VNum 0]> (environments st)) st.

(** Tokens of example templates: [{% nm args %}] and a value without
    filters, as the token that begins the text.  The position of a
    token shows in the errors only. *)
Definition tag (nm args key : string) (v : ValueToken) : TopLevelToken :=
  TagTok {| tag_name := nm; tag_args := args;
            tag_text := "{% " ++ nm ++ " " ++ args ++ " %}";
            tag_key := key; tag_value := v |}.

Definition pos_1_1 : Position := {| pos_line := 1; pos_col := 1 |}.

Definition bare (e : Expr) : ValueToken :=
  {| vt_initial := e; vt_filters := []; vt_pos := pos_1_1 |}.

Definition piped (e : Expr) (nm : string) (fargs : list Expr) : ValueToken :=
  {| vt_initial := e; vt_filters := [{| ft_name := nm; ft_args := fargs |}];
     vt_pos := pos_1_1 |}.

(** The token, beginning at line [l] and column [c]. *)
Definition at_pos (l c : nat) (tok : TopLevelToken) : TopLevelToken :=
  let move v := {| vt_initial := vt_initial v; vt_filters := vt_filters v;
                   vt_pos := {| pos_line := l; pos_col := c |} |} in
  match tok with
  | HTMLToken s => HTMLToken s
  | OutputToken v => OutputToken (move v)
  | TagTok t =>
      TagTok {| tag_name := tag_name t; tag_args := tag_args t;
                tag_text := tag_text t; tag_key := tag_key t;
                tag_value := move (tag_value t) |}
  end.

(** [{% section p %}Hi{% endsection %}] *)
Definition section_template : list TopLevelToken :=
  [tag "section" "p" "p" (bare (Var "p")); HTMLToken "Hi";
   tag "endsection" "" "" (bare Absent)].

(** [{% must_include_each ws %}] *)
Definition words_template : list TopLevelToken :=
  [tag "must_include_each" "ws" "ws" (bare (Var "ws"))].

(** [{% assign __promptengMeta = m %}{% must_include_each "leak" %}] *)
Definition rebinding_template : list TopLevelToken :=
  [tag "assign" "__promptengMeta = m" "__promptengMeta" (bare (Var "m"));
   at_pos 1 33 (tag "must_include_each" "'leak'" "" (bare (LitStr "leak")))].

(** [{% assign __promptengMeta = "x" %}{% must_include_each "a" %}] *)
Definition shadowing_template : list TopLevelToken :=
  [tag "assign" "__promptengMeta = 'x'" "__promptengMeta" (bare (LitStr "x"));
   at_pos 1 35 (tag "must_include_each" "'a'" "" (bare (LitStr "a")))].


(** The state in which [renderWithMeta] starts on the variables
    [{words: "a, b"}], and the value [words]. *)
Definition example_state : State :=
  new_Context (<[META := VMeta (RLocal 0)]> {[ "words" := VStr "a, b" ]})
    [new_meta] ∅.

Definition example_value : Value :=
  newValue TemplateParser (bare (Var "words")).

Definition empty_emitter : Emitter := {| kind := SimpleEmitter; buffer := "" |}.

(** ** Lists of values *)

(** No two elements of the list are the same value to a [Set]. *)
Fixpoint no_repeat (l : list value) : bool :=
  match l with
  | [] => true
  | x :: r => (forallb (fun y => negb (same_value_zero x y)) r && no_repeat r)%bool
  end.

(** Neighbours stand in the order of their string forms. *)
Fixpoint ascending (l : list value) : bool :=
  match l with
  | x :: r =>
      (match r with
       | y :: _ => negb (String.ltb (js_String y) (js_String x))
       | [] => true
       end && ascending r)%bool
  | [] => true
  end.

(** The character occurs in the string. *)
Fixpoint has_char (c : ascii) (s : string) : bool :=
  match s with
  | EmptyString => false
  | String a r => (Ascii.eqb a c || has_char c r)%bool
  end.

(** [s] between single quotes. *)
Definition squoted (s : string) : string :=
  String squote (s ++ String squote EmptyString).

(** ** Engines side by side *)

(** The [upper] filter as a parsed filter without arguments. *)
Definition upper_filter : Filter :=
  {| f_name := "upper"; f_handler := filter_upper; f_args := [] |}.

(** The token pipes a value through the filter called [nm]. *)
Definition uses_filter (nm : string) (tok : TopLevelToken) : bool :=
  match tok with
  | HTMLToken _ => false
  | OutputToken v => existsb (fun ft => String.eqb (ft_name ft) nm) (vt_filters v)
  | TagTok t => existsb (fun ft => String.eqb (ft_name ft) nm) (vt_filters (tag_value t))
  end.

(** Two engines treat the token alike: they have the same class for
    its tag name and the same handlers for its filters. *)
Definition agree (a b : Liquid) (tok : TopLevelToken) : Prop :=
  match tok with
  | HTMLToken _ => True
  | OutputToken v => newValue a v = newValue b v
  | TagTok t =>
      assoc (tag_name t) (liquid_tags a) = assoc (tag_name t) (liquid_tags b)
      ∧ newValue a (tag_value t) = newValue b (tag_value t)
  end.

(** The metadata name does not resolve to a record of the caller. *)
Definition meta_is_local (st : State) : Prop :=
  ∀ l, ctx_get st META ≠ VMeta (RCaller l).

(** The metadata name is neither bound nor read, anywhere in the
    template; sections are allowed. *)
Definition calm (tpl : Template) : bool :=
  all_nodes (fun t => (negb (binds META t) && negb (reads META t))%bool) tpl.

(** The value that an assertion has converted to a string: the value of
    a [contains] or a [not_contains]. *)
Definition checked_value (assertion : list (string * value)) : list value :=
  match assertion with
  | (k, v) :: _ =>
      if (String.eqb k "contains" || String.eqb k "not_contains")%bool then [v]
      else []
  | [] => []
  end.

(** The definition is of a required variable for which [variables] has
    no property. *)
Definition is_missing (variables : gmap string value)
    (varDef : VariableDefinition) : bool :=
  (required varDef && negb (js_in (var_name varDef) variables))%bool.

Definition has_variables (entry : string * PromptTemplate) : bool :=
  Nat.ltb 0 (length (tpl_variables entry.2)).

Fixpoint has_separator (s : string) : bool :=
  match s with
  | EmptyString => false
  | String c r => (is_separator c || has_separator r)%bool
  end.

(** ** Example engine *)

(** [Hello {{ name }}], with [name] required. *)
Definition greet : PromptTemplate :=
  {| tpl_name := "greet";
     tpl_content := [HTMLToken "Hello "; OutputToken (bare (Var "name"))];
     tpl_variables := [{| var_name := "name"; var_type := "string";
                          required := true; var_description := None |}] |}.

(** [{% section system %}Be brief.{% endsection %}Footer] *)
Definition with_system : PromptTemplate :=
  {| tpl_name := "with-system";
     tpl_content := [tag "section" "system" "system" (bare (Var "system"));
                     HTMLToken "Be brief.";
                     tag "endsection" "" "" (bare Absent);
                     HTMLToken "Footer"];
     tpl_variables := [] |}.

Definition example_templates : list (string * PromptTemplate) :=
  [("greet", greet); ("with-system", with_system)].

(** ** The templates of [engine.test.ts] and [worker.test.ts] *)

Definition default_world : ValueToken :=
  piped (Var "name") "default" [LitStr "world"].

(** [{% section system %}You are a helpful assistant.{% endsection %}
    {% section prompt %}Hello {{ name | default: 'world' }}{% endsection %}
    Footer], with the line breaks between the blocks. *)
Definition with_system_and_prompt : PromptTemplate :=
  {| tpl_name := "with-system";
     tpl_content :=
       [tag "section" "system" "system" (bare (Var "system"));
        HTMLToken "You are a helpful assistant.";
        tag "endsection" "" "" (bare Absent);
        HTMLToken newline;
        tag "section" "prompt" "prompt" (bare (Var "prompt"));
        HTMLToken "Hello "; OutputToken default_world;
        tag "endsection" "" "" (bare Absent);
        HTMLToken (newline ++ "Footer")];
     tpl_variables := [{| var_name := "name"; var_type := "string";
                          required := false; var_description := None |}] |}.

(** [Plain {{ x | default: 'ok' }}] *)
Definition no_sections : PromptTemplate :=
  {| tpl_name := "no-sections";
     tpl_content := [HTMLToken "Plain ";
                     OutputToken (piped (Var "x") "default" [LitStr "ok"])];
     tpl_variables := [{| var_name := "x"; var_type := "string";
                          required := false; var_description := None |}] |}.

(** [Topic: {{ topic }}], with a described and an optional variable. *)
Definition typed : PromptTemplate :=
  {| tpl_name := "typed";
     tpl_content := [HTMLToken "Topic: "; OutputToken (bare (Var "topic"))];
     tpl_variables := [{| var_name := "topic"; var_type := "string";
                          required := true;
                          var_description := Some "The topic" |};
                       {| var_name := "optional"; var_type := "number";
                          required := false; var_description := None |}] |}.

Definition test_templates : list (string * PromptTemplate) :=
  [("greet", greet); ("with-system", with_system_and_prompt);
   ("no-sections", no_sections); ("typed", typed)].

(** * Properties *)

(** ** The parser's fuel *)

Lemma fbind_Some {A B : Type} (m : option (outcome A))
    (k : A → option (outcome B)) (r : outcome B) :
  fbind m k = Some r →
  (∃ a, m = Some (Ok a) ∧ k a = Some r)
  ∨ (∃ msg, m = Some (Throw msg) ∧ r = Throw msg)
  ∨ (m = Some OutOfFragment ∧ r = OutOfFragment).
Proof.
  destruct m as [[a|msg|]|]; simpl; intros H.
  - left. eauto.
  - right. left. exists msg. split; congruence.
  - right. right. split; congruence.
  - discriminate.
Qed.

Section ParserFuel.

Variable liquid : Liquid.

(** More fuel never changes an answer. *)
Lemma parse_mono (n : nat) :
  (∀ tok rem r, parseToken liquid n tok rem = Some r →
     ∀ m, (n ≤ m)%nat → parseToken liquid m tok rem = Some r)
  ∧ (∀ stop toks r, parseStream liquid n stop toks = Some r →
     ∀ m, (n ≤ m)%nat → parseStream liquid m stop toks = Some r).
Proof.
  induction n as [|n [IHt IHs]]; [split; intros; discriminate|].
  assert (Hblock : ∀ stop rem (k : _ → option (outcome (Template * list TopLevelToken))) r m,
    (fdo x <- parseStream liquid n stop rem; k x) = Some r → (n ≤ m)%nat →
    (fdo x <- parseStream liquid m stop rem; k x) = Some r).
  { intros stop rem k r m H Hm.
    destruct (parseStream liquid n stop rem) as [o|] eqn:E; [|discriminate].
    rewrite (IHs _ _ _ E m Hm). exact H. }
  split.
  - intros tok rem r H [|m] Hm; [lia|]. simpl in *.
    destruct tok as [s|v|t]; try exact H.
    destruct (assoc (tag_name t) (liquid_tags liquid)) as [[]|]; try exact H.
    + destruct (String.eqb (tag_key t) ""); [exact H|].
      apply Hblock with (m := m) in H; [exact H|lia].
    + apply Hblock with (m := m) in H; [exact H|lia].
  - intros stop toks r H [|m] Hm; [lia|]. simpl in *.
    destruct toks as [|token rest]; [exact H|].
    destruct (is_tag stop token); [exact H|].
    destruct (parseToken liquid n token rest) as [o|] eqn:E; [|discriminate].
    rewrite (IHt _ _ _ E m) by lia.
    destruct o as [[tpl rest']| |]; simpl in *; try exact H.
    destruct (parseStream liquid n stop rest') as [o|] eqn:E'; [|discriminate].
    rewrite (IHs _ _ _ E' m) by lia. exact H.
Qed.

Lemma parseTokens_mono (n : nat) : ∀ toks r,
  parseTokens liquid n toks = Some r →
  ∀ m, (n ≤ m)%nat → parseTokens liquid m toks = Some r.
Proof.
  induction n as [|n IH]; [intros; discriminate|].
  intros toks r H [|m] Hm; [lia|]. simpl in *.
  destruct toks as [|token rest]; [exact H|].
  destruct (parseToken liquid n token rest) as [o|] eqn:E; [|discriminate].
  rewrite (proj1 (parse_mono n) _ _ _ E m) by lia.
  destruct o as [[tpl rest']| |]; simpl in *; try exact H.
  destruct (parseTokens liquid n rest') as [o|] eqn:E'; [|discriminate].
  rewrite (IH _ _ E' m) by lia. exact H.
Qed.

(** Enough fuel gives an answer, and a parse never returns more
    tokens than it was given. *)
Lemma parse_enough (n : nat) :
  (∀ tok rem, (2 * length rem + 1 < n)%nat →
     ∃ r, parseToken liquid n tok rem = Some r
          ∧ ∀ tpl rest, r = Ok (tpl, rest) → (length rest ≤ length rem)%nat)
  ∧ (∀ stop toks, (2 * length toks < n)%nat →
     ∃ r, parseStream liquid n stop toks = Some r
          ∧ ∀ tpls closed rest, r = Ok (tpls, closed, rest) →
              (length rest ≤ length toks)%nat).
Proof.
  induction n as [|n [IHt IHs]]; [split; intros; lia|].
  assert (Hblock : ∀ stop rem (k : list Template → list TopLevelToken → Template) msg,
    (2 * length rem + 1 < S n)%nat →
    ∃ r, (fdo r <- parseStream liquid n stop rem;
          let '(tpls, closed, rest) := r in
          if closed : bool then Some (Ok (k tpls rest, rest))
          else Some (Throw msg)) = Some r
         ∧ ∀ tpl rest, r = Ok (tpl, rest) → (length rest ≤ length rem)%nat).
  { intros stop rem k msg Hn.
    destruct (IHs stop rem) as (r & -> & Hr); [lia|].
    destruct r as [[[tpls closed] rest]| |]; simpl.
    - destruct closed; eexists; split; try reflexivity; intros ? ? [=]; subst.
      eapply Hr; reflexivity.
    - eexists; split; [reflexivity|]. intros; discriminate.
    - eexists; split; [reflexivity|]. intros; discriminate. }
  split.
  - intros tok rem Hn. simpl.
    destruct tok as [s|v|t];
      try (eexists; split; [reflexivity|]; intros ? ? [=]; subst; lia).
    destruct (assoc (tag_name t) (liquid_tags liquid)) as [[]|];
      try (eexists; split; [reflexivity|]; intros ? ? [=]; subst; lia).
    + destruct (String.eqb (tag_key t) "");
        eexists; split; try reflexivity; intros ? ? [=]; subst; lia.
    + destruct (String.eqb (tag_key t) "").
      * eexists; split; [reflexivity|]; intros; discriminate.
      * apply (Hblock "endcapture" rem (fun tpls _ => CaptureTag (tag_key t) tpls)), Hn.
    + apply (Hblock "endsection" rem
               (fun tpls _ => SectionTag (tag_pos t) (trim (tag_args t)) tpls)), Hn.
  - intros stop toks Hn. simpl.
    destruct toks as [|token rest].
    { eexists; split; [reflexivity|]. intros ? ? ? [=]; subst. simpl; lia. }
    destruct (is_tag stop token).
    { eexists; split; [reflexivity|]. intros ? ? ? [=]; subst. simpl; lia. }
    simpl in Hn.
    destruct (IHt token rest) as (r & -> & Hr); [lia|].
    destruct r as [[tpl rest']| |]; simpl;
      try (eexists; split; [reflexivity|]; intros; discriminate).
    specialize (Hr _ _ eq_refl).
    destruct (IHs stop rest') as (r' & -> & Hr'); [lia|].
    destruct r' as [[[tpls closed] rest'']| |]; simpl;
      try (eexists; split; [reflexivity|]; intros; discriminate).
    eexists; split; [reflexivity|]. intros ? ? ? [=]; subst.
    specialize (Hr' _ _ _ eq_refl). simpl. lia.
Qed.

Lemma parseTokens_enough (n : nat) : ∀ toks,
  (2 * length toks < n)%nat → ∃ r, parseTokens liquid n toks = Some r.
Proof.
  induction n as [|n IH]; [intros; lia|].
  intros toks Hn. simpl.
  destruct toks as [|token rest]; [eauto|]. simpl in Hn.
  destruct (proj1 (parse_enough n) token rest) as (r & -> & Hr); [lia|].
  destruct r as [[tpl rest']| |]; simpl; eauto.
  specialize (Hr _ _ eq_refl).
  destruct (IH rest') as (r' & ->); [lia|].
  destruct r' as [tpls| |]; simpl; eauto.
Qed.

(** [parse] is the answer of [parseTokens] at any fuel that gives
    one. *)
Lemma parse_fuel (toks : list TopLevelToken) (r : outcome (list Template)) :
  parse liquid toks = r ↔ ∃ n, parseTokens liquid n toks = Some r.
Proof.
  unfold parse.
  destruct (parseTokens_enough (2 * length toks + 2) toks) as [r0 E]; [lia|].
  rewrite E. split.
  - intros <-. eauto.
  - intros [n Hn].
    destruct (Nat.le_ge_cases n (2 * length toks + 2)) as [Hle|Hle].
    + rewrite (parseTokens_mono _ _ _ Hn _ Hle) in E. congruence.
    + rewrite (parseTokens_mono _ _ _ E _ Hle) in Hn. congruence.
Qed.

End ParserFuel.

(** ** The registered filters *)

Lemma convert_all_true (vs : list value) :
  forallb convertible vs = true → forallb in_range vs = true →
  convert_all vs = Ok tt.
Proof. unfold convert_all. now intros -> ->. Qed.

Lemma convert_all_false (vs : list value) :
  forallb convertible vs = false → convert_all vs = Throw TypeError.
Proof. unfold convert_all. now intros ->. Qed.

Lemma convert_all_nullish (v : value) :
  convert_all [nullish v (VStr "")] = convert_all [v].
Proof. now destruct v. Qed.

Lemma filter_join_scalar (v : value) (args : list value) :
  isArray v = false →
  filter_join v args
  = do _ <- convert_all [v]; Ok (VStr (js_String (nullish v (VStr "")))).
Proof.
  intros H. unfold filter_join. rewrite H. unfold to_string.
  rewrite convert_all_nullish.
  now destruct (convert_all [v]) as [[]| |].
Qed.

Lemma filter_join_array (l : list value) (args : list value) :
  ∃ r, filter_join (VArr l) args = do _ <- convert_all (arg 0 args :: l); Ok r.
Proof.
  unfold filter_join. cbn [isArray js_join].
  destruct (arg 0 args); eexists; destruct (convert_all _) as [[]| |]; reflexivity.
Qed.

(** What each registered filter converts, and that it returns when the
    conversions do. *)
Lemma builtin_filter_converts (nm : string) (v : value) (args : list value) :
  In nm builtin_filter_names →
  ∃ impl r, assoc nm (liquid_filters TemplateParser) = Some impl
    ∧ impl v args = do _ <- convert_all (conversions nm v args); Ok r.
Proof.
  intros Hin. simpl in Hin.
  repeat (destruct Hin as [<-|Hin]); try contradiction;
    unfold conversions; cbn [String.eqb Ascii.eqb Bool.eqb orb].
  - exists filter_default, (match filter_default v args with Ok r => r | _ => VUndef end).
    split; [reflexivity|].
    unfold filter_default. destruct v; try reflexivity.
    now destruct (String.eqb s "").
  - destruct (isArray v) eqn:E.
    + destruct v; try discriminate.
      destruct (filter_join_array elems args) as [r Hr].
      exists filter_join, r. split; [reflexivity|]. exact Hr.
    + do 2 eexists. split; [reflexivity|].
      rewrite (filter_join_scalar v args E). now destruct v.
  - exists filter_uniq, (match filter_uniq v args with Ok r => r | _ => VUndef end).
    split; [reflexivity|]. now destruct v.
  - exists filter_length, (match filter_length v args with Ok r => r | _ => VUndef end).
    split; [reflexivity|]. now destruct v.
  - do 2 eexists; split; [reflexivity|].
    unfold filter_lower, to_string. rewrite convert_all_nullish.
    destruct (convert_all _) as [[]| |]; reflexivity.
  - do 2 eexists; split; [reflexivity|].
    unfold filter_upper, to_string. rewrite convert_all_nullish.
    destruct (convert_all _) as [[]| |]; reflexivity.
  - exists filter_compact, (match filter_compact v args with Ok r => r | _ => VUndef end).
    split; [reflexivity|]. now destruct v.
  - exists filter_sort, (match v with VArr l => VArr (js_sort_list l) | _ => v end).
    split; [reflexivity|]. unfold filter_sort.
    destruct v as [| | | | |elems| |]; cbn [isArray js_spread_sort];
      try reflexivity.
    destruct (Nat.leb _ 1); [reflexivity|].
    destruct (convert_all _) as [[]| |]; reflexivity.
Qed.

(** C9. Each of the eight filters that the constructor registers is
    found in the engine's filter table.  [default], [uniq], [length]
    and [compact] convert nothing to a string and return a value on
    every input.  [join], [lower], [upper] and [sort] throw a
    [TypeError] when one of the values they convert to a string cannot
    be converted, and return a value otherwise. *)
Theorem builtin_filters_return (nm : string) (v : value) (args : list value) :
  In nm builtin_filter_names →
  ∃ impl, assoc nm (liquid_filters TemplateParser) = Some impl
    ∧ (forallb convertible (conversions nm v args) = false →
       impl v args = Throw TypeError)
    ∧ (forallb convertible (conversions nm v args) = true →
       forallb in_range (conversions nm v args) = true →
       ∃ r, impl v args = Ok r).
Proof.
  intros Hin.
  destruct (builtin_filter_converts nm v args Hin) as (impl & r & Hi & E).
  exists impl. split; [exact Hi|]. rewrite E. split.
  - intros H. now rewrite (convert_all_false _ H).
  - intros H H'. rewrite (convert_all_true _ H H'). simpl. eauto.
Qed.

Lemma builtin_filters_return_witness :
  In "join" builtin_filter_names
  ∧ ∃ impl, assoc "join" (liquid_filters TemplateParser) = Some impl
      ∧ (forallb convertible
           (conversions "join" (VArr [VStr "a"; VNum 1]) [VStr "-"]) = false →
         impl (VArr [VStr "a"; VNum 1]) [VStr "-"] = Throw TypeError)
      ∧ (forallb convertible
           (conversions "join" (VArr [VStr "a"; VNum 1]) [VStr "-"]) = true →
         forallb in_range
           (conversions "join" (VArr [VStr "a"; VNum 1]) [VStr "-"]) = true →
         ∃ r, impl (VArr [VStr "a"; VNum 1]) [VStr "-"] = Ok r).
Proof.
  split; [simpl; auto|].
  apply (builtin_filters_return "join"). simpl. auto.
Defined.

(** [lower], [upper], [join] and [sort] throw on an object that has a
    [toString] property of its own: [{toString: 1}]. *)
Lemma filters_throw_on_unconvertible :
  let o := VObj [("toString", VNum 1)] in
  filter_lower o [] = Throw TypeError
  ∧ filter_upper o [] = Throw TypeError
  ∧ filter_join o [] = Throw TypeError
  ∧ filter_join (VArr [o]) [] = Throw TypeError
  ∧ filter_sort (VArr [o; o]) [] = Throw TypeError
  ∧ ¬ (∀ v args, ∃ r, filter_lower v args = Ok r).
Proof.
  repeat split; try reflexivity.
  intros H. destruct (H (VObj [("toString", VNum 1)]) []) as [r Hr].
  discriminate.
Qed.

(** ** What a successful parse has consumed *)

Section ParserShape.

Variable liquid : Liquid.

(** Every ordinary token of a successfully parsed stream was itself
    parsed successfully, with the tokens after it as its
    [remainTokens]; or it is still among the tokens left. *)
Lemma parse_reaches (n : nat) :
  (∀ tok0 rem tpl rest, parseToken liquid n tok0 rem = Some (Ok (tpl, rest)) →
     ∀ (pre : list TopLevelToken) tok post, rem = (pre ++ tok :: post)%list → ordinary tok = true →
       (∃ m r, parseToken liquid m tok post = Some (Ok r))
       ∨ (∃ pre', rest = (pre' ++ tok :: post)%list))
  ∧ (∀ stop toks tpls closed rest, terminator stop = true →
     parseStream liquid n stop toks = Some (Ok (tpls, closed, rest)) →
     ∀ (pre : list TopLevelToken) tok post, toks = (pre ++ tok :: post)%list → ordinary tok = true →
       (∃ m r, parseToken liquid m tok post = Some (Ok r))
       ∨ (∃ pre', rest = (pre' ++ tok :: post)%list)).
Proof.
  induction n as [|n [IHt IHs]]; [split; intros; discriminate|].
  assert (Hblock : ∀ stop rem (k : list Template → Template) msg tpl rest,
    terminator stop = true →
    (fdo r <- parseStream liquid n stop rem;
     let '(tpls, closed, rest) := r in
     if closed : bool then Some (Ok (k tpls, rest)) else Some (Throw msg))
      = Some (Ok (tpl, rest)) →
    ∀ (pre : list TopLevelToken) tok post, rem = (pre ++ tok :: post)%list → ordinary tok = true →
      (∃ m r, parseToken liquid m tok post = Some (Ok r))
      ∨ (∃ pre', rest = (pre' ++ tok :: post)%list)).
  { intros stop rem k msg tpl rest Hstop H pre tok post Hrem Hord.
    apply fbind_Some in H as [([[tpls closed] rest0] & E & H)|[(? & _ & [=])|[_ [=]]]].
    destruct closed; [|discriminate]. injection H as <- <-.
    eapply IHs; eauto. }
  split.
  - intros tok0 rem tpl rest H pre tok post Hrem Hord. simpl in H.
    destruct tok0 as [s|v|t];
      try (injection H as <- <-; right; eauto).
    destruct (assoc (tag_name t) (liquid_tags liquid)) as [[]|];
      try discriminate; try (injection H as <- <-; right; eauto).
    + destruct (String.eqb (tag_key t) ""); [discriminate|].
      injection H as <- <-; right; eauto.
    + destruct (String.eqb (tag_key t) ""); [discriminate|].
      eapply (Hblock "endcapture" rem (CaptureTag (tag_key t))); eauto.
    + eapply (Hblock "endsection" rem (SectionTag (tag_pos t) (trim (tag_args t)))); eauto.
  - intros stop toks tpls closed rest Hstop H pre tok post Htoks Hord.
    simpl in H. destruct toks as [|token rest0].
    { destruct pre; discriminate. }
    destruct (is_tag stop token) eqn:Estop.
    + injection H as <- <- <-.
      destruct pre as [|a pre']; injection Htoks as -> ->.
      * exfalso. destruct tok as [| |t]; try discriminate.
        simpl in Estop, Hord. apply String.eqb_eq in Estop.
        rewrite Estop, Hstop in Hord. discriminate.
      * right. eauto.
    + apply fbind_Some in H as [([tpl rest'] & E & H)|[(? & _ & [=])|[_ [=]]]].
      apply fbind_Some in H as [([[tpls' closed'] rest''] & E' & H)|[(? & _ & [=])|[_ [=]]]].
      injection H as <- <- <-.
      destruct pre as [|a pre']; injection Htoks as -> ->.
      * left. eauto.
      * destruct (IHt _ _ _ _ E pre' tok post eq_refl Hord) as [Hl|[p ->]];
          [left; exact Hl|].
        eapply IHs; eauto.
Qed.

Lemma parseTokens_reaches (n : nat) : ∀ toks tpls,
  parseTokens liquid n toks = Some (Ok tpls) →
  ∀ (pre : list TopLevelToken) tok post, toks = (pre ++ tok :: post)%list → ordinary tok = true →
    ∃ m r, parseToken liquid m tok post = Some (Ok r).
Proof.
  induction n as [|n IH]; [intros; discriminate|].
  intros toks tpls H pre tok post Htoks Hord. simpl in H.
  destruct toks as [|token rest0]; [destruct pre; discriminate|].
  apply fbind_Some in H as [([tpl rest'] & E & H)|[(? & _ & [=])|[_ [=]]]].
  apply fbind_Some in H as [(tpls' & E' & H)|[(? & _ & [=])|[_ [=]]]].
  destruct pre as [|a pre']; injection Htoks as -> ->.
  - eauto.
  - destruct (proj1 (parse_reaches n) _ _ _ _ E pre' tok post eq_refl Hord)
      as [Hl|[p ->]]; [exact Hl|].
    eapply IH; eauto.
Qed.

(** Tokens of the embedded fragment never make the parser give up. *)
Lemma parse_in_fragment (n : nat) :
  (∀ tok rem, in_fragment liquid tok = true →
     forallb (in_fragment liquid) rem = true →
     parseToken liquid n tok rem ≠ Some OutOfFragment
     ∧ ∀ tpl rest, parseToken liquid n tok rem = Some (Ok (tpl, rest)) →
         forallb (in_fragment liquid) rest = true)
  ∧ (∀ stop toks, forallb (in_fragment liquid) toks = true →
     parseStream liquid n stop toks ≠ Some OutOfFragment
     ∧ ∀ tpls closed rest,
         parseStream liquid n stop toks = Some (Ok (tpls, closed, rest)) →
         forallb (in_fragment liquid) rest = true).
Proof.
  induction n as [|n [IHt IHs]]; [split; intros; split; intros; discriminate|].
  assert (Hblock : ∀ stop rem (k : list Template → Template) msg,
    forallb (in_fragment liquid) rem = true →
    let p := fdo r <- parseStream liquid n stop rem;
             let '(tpls, closed, rest) := r in
             if closed : bool then Some (Ok (k tpls, rest)) else Some (Throw msg) in
    p ≠ Some OutOfFragment
    ∧ ∀ tpl rest, p = Some (Ok (tpl, rest)) →
        forallb (in_fragment liquid) rest = true).
  { intros stop rem k msg Hrem. destruct (IHs stop rem Hrem) as [Hne Hok].
    simpl. destruct (parseStream liquid n stop rem) as [[[[tpls closed] rest]| |]|];
      simpl; try (split; [congruence|intros; discriminate]).
    destruct closed; split; try congruence; try (intros; discriminate).
    intros ? ? [= <- <-]. eapply Hok; reflexivity. }
  split.
  - intros tok rem Htok Hrem. simpl.
    destruct tok as [s|v|t];
      try (split; [congruence|intros ? ? [= <- <-]; exact Hrem]).
    simpl in Htok.
    destruct (assoc (tag_name t) (liquid_tags liquid)) as [[]|];
      try discriminate;
      try (split; [congruence|intros ? ? [= <- <-]; exact Hrem]);
      try (split; [congruence|intros; discriminate]).
    + destruct (String.eqb (tag_key t) "");
        split; try congruence; try (intros; discriminate).
    + destruct (String.eqb (tag_key t) "").
      * split; [congruence|intros; discriminate].
      * apply (Hblock "endcapture" rem (CaptureTag (tag_key t))), Hrem.
    + apply (Hblock "endsection" rem (SectionTag (tag_pos t) (trim (tag_args t)))), Hrem.
  - intros stop toks Htoks. simpl.
    destruct toks as [|token rest0].
    { split; [congruence|]. intros ? ? ? [= <- <- <-]. reflexivity. }
    simpl in Htoks. apply andb_true_iff in Htoks as [Htok Hrest].
    destruct (is_tag stop token).
    { split; [congruence|]. intros ? ? ? [= <- <- <-]. exact Hrest. }
    destruct (IHt token rest0 Htok Hrest) as [Hne Hok].
    destruct (parseToken liquid n token rest0) as [[[tpl rest']| |]|];
      simpl; try (split; [congruence|intros; discriminate]).
    specialize (Hok _ _ eq_refl).
    destruct (IHs stop rest' Hok) as [Hne' Hok'].
    destruct (parseStream liquid n stop rest') as [[[[tpls closed] rest'']| |]|];
      simpl; try (split; [congruence|intros; discriminate]).
    split; [congruence|]. intros ? ? ? [= <- <- <-]. eapply Hok'; reflexivity.
Qed.

Lemma parseTokens_in_fragment (n : nat) : ∀ toks,
  forallb (in_fragment liquid) toks = true →
  parseTokens liquid n toks ≠ Some OutOfFragment.
Proof.
  induction n as [|n IH]; [intros; discriminate|].
  intros toks Htoks. simpl.
  destruct toks as [|token rest0]; [congruence|].
  simpl in Htoks. apply andb_true_iff in Htoks as [Htok Hrest].
  destruct (proj1 (parse_in_fragment n) token rest0 Htok Hrest) as [Hne Hok].
  destruct (parseToken liquid n token rest0) as [[[tpl rest']| |]|];
    simpl; try congruence.
  specialize (IH rest' (Hok _ _ eq_refl)).
  destruct (parseTokens liquid n rest') as [[tpls| |]|]; simpl; congruence.
Qed.

End ParserShape.

(** ** Parse errors abort the call *)

Lemma render_parse_failed (liquid : Liquid) (toks : list TopLevelToken)
    (vars : gmap string value) (heap : gmap nat PromptEngMeta) :
  (∀ tpls, parse liquid toks ≠ Ok tpls) →
  result (render liquid toks vars heap)
    = match parse liquid toks with Ok _ => OutOfFragment | Throw m => Throw m
      | OutOfFragment => OutOfFragment end
  ∧ variables_after (render liquid toks vars heap) = vars
  ∧ heap_after (render liquid toks vars heap) = heap
  ∧ result (renderWithMeta liquid toks vars heap)
    = match parse liquid toks with Ok _ => OutOfFragment | Throw m => Throw m
      | OutOfFragment => OutOfFragment end
  ∧ variables_after (renderWithMeta liquid toks vars heap) = vars
  ∧ heap_after (renderWithMeta liquid toks vars heap) = heap.
Proof.
  intros Hno. unfold render, renderWithMeta, parseAndRender.
  destruct (parse liquid toks) as [tpls|msg|] eqn:E.
  - exfalso. exact (Hno tpls eq_refl).
  - simpl. auto 10.
  - simpl. auto 10.
Qed.

Lemma apply_filters_known (liquid : Liquid) (fts : list FilterToken)
    (v : value) (st : State) :
  apply_filters
    (filters (newValue liquid
       {| vt_initial := Absent; vt_filters := fts; vt_pos := pos_1_1 |})) v st
  = apply_filters
      (filters (newValue liquid
         (known_filters liquid
            {| vt_initial := Absent; vt_filters := fts; vt_pos := pos_1_1 |}))) v st.
Proof.
  revert v. induction fts as [|ft fts IH]; intros v; [reflexivity|].
  simpl in *.
  destruct (assoc (ft_name ft) (liquid_filters liquid)) as [impl|] eqn:E; simpl.
  - rewrite E. destruct (impl v _); simpl; auto.
  - apply IH.
Qed.

(** C5. In a template of the embedded fragment, a tag token whose
    name is in no tag table (and is not a block terminator) makes the
    parse fail, wherever it stands: [render] and [renderWithMeta] throw
    the parse error, return nothing and leave the caller's variables
    and records alone.  A filter whose name is in no filter table is
    not an error: the value of the expression is the value it has with
    that filter left out of the chain. *)
Theorem unknown_tag_is_fatal (liquid : Liquid) (pre : list TopLevelToken)
    (t : TagToken) (post : list TopLevelToken)
    (vars : gmap string value) (heap : gmap nat PromptEngMeta) :
  assoc (tag_name t) (liquid_tags liquid) = None →
  terminator (tag_name t) = false →
  let template := (pre ++ TagTok t :: post)%list in
  forallb (in_fragment liquid) template = true →
  (∃ msg, parse liquid template = Throw msg
          ∧ result (render liquid template vars heap) = Throw msg
          ∧ result (renderWithMeta liquid template vars heap) = Throw msg)
  ∧ variables_after (render liquid template vars heap) = vars
  ∧ heap_after (render liquid template vars heap) = heap
  ∧ heap_after (renderWithMeta liquid template vars heap) = heap
  ∧ (∀ vt st, Value_value (newValue liquid vt) st
              = Value_value (newValue liquid (known_filters liquid vt)) st).
Proof.
  intros Hnone Hterm template Hfrag.
  assert (Hno : ∀ tpls, parse liquid template ≠ Ok tpls).
  { intros tpls E. apply parse_fuel in E as [n E].
    destruct (parseTokens_reaches liquid n _ _ E pre (TagTok t) post eq_refl)
      as (m & r & Hr).
    { simpl. rewrite Hterm. reflexivity. }
    destruct m; simpl in Hr; [discriminate|].
    rewrite Hnone in Hr. discriminate. }
  destruct (render_parse_failed liquid template vars heap Hno)
    as (R1 & R2 & R3 & R4 & R5 & R6).
  split; [|split; [|split; [|split]]]; auto.
  - rewrite R1, R4.
    destruct (parse liquid template) as [tpls|msg|] eqn:E.
    + exfalso. exact (Hno tpls eq_refl).
    + eauto.
    + exfalso. apply parse_fuel in E as [n E].
      exact (parseTokens_in_fragment liquid n _ Hfrag E).
  - intros vt st. unfold Value_value. f_equal.
    destruct vt as [e fts]. apply (apply_filters_known liquid fts).
Qed.

Lemma unknown_tag_is_fatal_witness :
  assoc "bogus" (liquid_tags TemplateParser) = None
  ∧ terminator "bogus" = false
  ∧ forallb (in_fragment TemplateParser)
      [HTMLToken "a"; at_pos 1 2 (tag "bogus" "x" "x" (bare (Var "x")));
       HTMLToken "b"] = true
  ∧ result (render TemplateParser
              [HTMLToken "a"; at_pos 1 2 (tag "bogus" "x" "x" (bare (Var "x")));
               HTMLToken "b"]
              ∅ ∅)
    = Throw (ParseError ("tag " ++ quoted "bogus" ++ " not found")
               {| pos_line := 1; pos_col := 2 |})
  ∧ message_of (ParseError ("tag " ++ quoted "bogus" ++ " not found")
                  {| pos_line := 1; pos_col := 2 |})
    = Some ("tag " ++ quoted "bogus" ++ " not found, line:1, col:2").
Proof.
  split; [reflexivity|]. split; [reflexivity|]. split; [reflexivity|].
  split; [|reflexivity].
  destruct (unknown_tag_is_fatal TemplateParser [HTMLToken "a"]
              {| tag_name := "bogus"; tag_args := "x";
                 tag_text := "{% bogus x %}"; tag_key := "x";
                 tag_value := {| vt_initial := Var "x"; vt_filters := [];
                                 vt_pos := {| pos_line := 1; pos_col := 2 |} |} |}
              [HTMLToken "b"] ∅ ∅ eq_refl eq_refl eq_refl)
    as ((msg & Hp & Hr & _) & _).
  vm_compute in Hp. injection Hp as <-. exact Hr.
Defined.

(** The template [{{ "a" | frobnicate }}] uses a filter that is in no
    table, and renders to [a]. *)
Lemma unknown_filter_is_skipped :
  assoc "frobnicate" (liquid_filters TemplateParser) = None
  ∧ result (render TemplateParser
              [OutputToken (piped (LitStr "a") "frobnicate" [])] ∅ ∅) = Ok "a"
  ∧ (do r <- result (renderWithMeta TemplateParser
                       [OutputToken (piped (LitStr "a") "frobnicate" [])] ∅ ∅);
     Ok (text r)) = Ok "a".
Proof. vm_compute. auto. Qed.

(** ** Parsing a stream that continues *)

Section ParserAppend.

Variable liquid : Liquid.

(** A token that parses, and a block that closes, parse the same
    way when more tokens follow. *)
Lemma parse_app (n : nat) :
  (∀ tok rem tpl rest, parseToken liquid n tok rem = Some (Ok (tpl, rest)) →
     ∀ extra, parseToken liquid n tok (rem ++ extra)%list
              = Some (Ok (tpl, (rest ++ extra)%list)))
  ∧ (∀ stop toks tpls rest,
       parseStream liquid n stop toks = Some (Ok (tpls, true, rest)) →
       ∀ extra, parseStream liquid n stop (toks ++ extra)%list
                = Some (Ok (tpls, true, (rest ++ extra)%list))).
Proof.
  induction n as [|n [IHt IHs]]; [split; intros; discriminate|].
  assert (Hblock : ∀ stop rem (k : list Template → Template) msg tpl rest extra,
    (fdo r <- parseStream liquid n stop rem;
     let '(tpls, closed, rest) := r in
     if closed : bool then Some (Ok (k tpls, rest)) else Some (Throw msg))
      = Some (Ok (tpl, rest)) →
    (fdo r <- parseStream liquid n stop (rem ++ extra)%list;
     let '(tpls, closed, rest) := r in
     if closed : bool then Some (Ok (k tpls, rest)) else Some (Throw msg))
      = Some (Ok (tpl, (rest ++ extra)%list))).
  { intros stop rem k msg tpl rest extra H.
    apply fbind_Some in H as [([[tpls closed] rest0] & E & H)|[(? & _ & [=])|[_ [=]]]].
    destruct closed; [|discriminate]. injection H as <- <-.
    rewrite (IHs _ _ _ _ E extra). reflexivity. }
  split.
  - intros tok rem tpl rest H extra. simpl in *.
    destruct tok as [s|v|t]; try (injection H as <- <-; reflexivity).
    destruct (assoc (tag_name t) (liquid_tags liquid)) as [[]|];
      try discriminate; try (injection H as <- <-; reflexivity).
    + destruct (String.eqb (tag_key t) ""); [discriminate|].
      injection H as <- <-; reflexivity.
    + destruct (String.eqb (tag_key t) ""); [discriminate|].
      apply (Hblock "endcapture" rem (CaptureTag (tag_key t))), H.
    + apply (Hblock "endsection" rem (SectionTag (tag_pos t) (trim (tag_args t)))), H.
  - intros stop toks tpls rest H extra. simpl in *.
    destruct toks as [|token rest0]; [discriminate|]. simpl.
    destruct (is_tag stop token).
    { injection H as <- <-. reflexivity. }
    apply fbind_Some in H as [([tpl rest'] & E & H)|[(? & _ & [=])|[_ [=]]]].
    apply fbind_Some in H as [([[tpls' closed'] rest''] & E' & H)|[(? & _ & [=])|[_ [=]]]].
    injection H as <- -> <-.
    rewrite (IHt _ _ _ _ E extra). simpl.
    rewrite (IHs _ _ _ _ E' extra). reflexivity.
Qed.

Lemma parseTokens_app (n : nat) : ∀ pre tpls,
  parseTokens liquid n pre = Some (Ok tpls) →
  ∀ m extra r, parseTokens liquid m extra = Some r →
    parseTokens liquid (n + m) (pre ++ extra)%list
    = Some (do tpls' <- r; Ok (tpls ++ tpls')%list).
Proof.
  induction n as [|n IH]; [intros; discriminate|].
  intros pre tpls H m extra r Hr. simpl in H.
  destruct pre as [|token rest0].
  - injection H as <-. simpl app.
    rewrite (parseTokens_mono liquid m extra r Hr (S n + m)) by lia.
    destruct r; reflexivity.
  - apply fbind_Some in H as [([tpl rest'] & E & H)|[(? & _ & [=])|[_ [=]]]].
    apply fbind_Some in H as [(tpls' & E' & H)|[(? & _ & [=])|[_ [=]]]].
    injection H as <-.
    change (parseTokens liquid (S (n + m)) (token :: rest0 ++ extra)%list
            = Some (do tpls'0 <- r; Ok ((tpl :: tpls') ++ tpls'0)%list)).
    simpl parseTokens.
    rewrite (proj1 (parse_mono liquid n) _ _ _
               (proj1 (parse_app n) _ _ _ _ E extra) (n + m)%nat) by lia.
    simpl. rewrite (IH _ _ E' m extra r Hr).
    destruct r; reflexivity.
Qed.

End ParserAppend.

(** C6. In a template of the embedded fragment, a section tag whose
    body stream never reaches a matching [endsection] makes the parse
    fail whatever stands before and after it: [render] and
    [renderWithMeta] throw a parse error, return no output and leave
    the caller's variables and records alone.  When the tokens before
    the tag parse and the tokens after it parse up to the end of the
    template, the error is a [ParseError] at the section tag, with the
    message [tag <text of the tag> not closed, line:L, col:C] for the
    line [L] and the column [C] where the tag begins. *)
Theorem unterminated_section (liquid : Liquid) (pre : list TopLevelToken)
    (t : TagToken) (post : list TopLevelToken)
    (vars : gmap string value) (heap : gmap nat PromptEngMeta) :
  assoc (tag_name t) (liquid_tags liquid) = Some SectionClass →
  terminator (tag_name t) = false →
  (∀ n body rest,
     parseStream liquid n "endsection" post ≠ Some (Ok (body, true, rest))) →
  let template := (pre ++ TagTok t :: post)%list in
  forallb (in_fragment liquid) template = true →
  (∃ msg, result (render liquid template vars heap) = Throw msg
          ∧ result (renderWithMeta liquid template vars heap) = Throw msg)
  ∧ variables_after (render liquid template vars heap) = vars
  ∧ heap_after (render liquid template vars heap) = heap
  ∧ heap_after (renderWithMeta liquid template vars heap) = heap
  ∧ (∀ tpls0 n body,
       parse liquid pre = Ok tpls0 →
       parseStream liquid n "endsection" post = Some (Ok (body, false, [])) →
       result (render liquid template vars heap) = Throw (not_closed t)
       ∧ result (renderWithMeta liquid template vars heap) = Throw (not_closed t)
       ∧ message_of (not_closed t)
         = Some (("tag " ++ tag_text t ++ " not closed")
                 ++ ", line:" ++ pretty (pos_line (tag_pos t))
                 ++ ", col:" ++ pretty (pos_col (tag_pos t)))).
Proof.
  intros Hsec Hterm Hopen template Hfrag.
  assert (Hno : ∀ tpls, parse liquid template ≠ Ok tpls).
  { intros tpls E. apply parse_fuel in E as [n E].
    destruct (parseTokens_reaches liquid n _ _ E pre (TagTok t) post eq_refl)
      as (m & r & Hr).
    { simpl. rewrite Hterm. reflexivity. }
    destruct m; simpl in Hr; [discriminate|].
    rewrite Hsec in Hr.
    apply fbind_Some in Hr as [([[tpls' closed] rest0] & E' & H)|[(? & _ & [=])|[_ [=]]]].
    destruct closed; [|discriminate].
    exact (Hopen _ _ _ E'). }
  destruct (render_parse_failed liquid template vars heap Hno)
    as (R1 & R2 & R3 & R4 & R5 & R6).
  split; [|split; [|split; [|split]]]; auto.
  - rewrite R1, R4.
    destruct (parse liquid template) as [tpls|msg|] eqn:E.
    + exfalso. exact (Hno tpls eq_refl).
    + eauto.
    + exfalso. apply parse_fuel in E as [n E].
      exact (parseTokens_in_fragment liquid n _ Hfrag E).
  - intros tpls0 n body Hpre Hbody.
    assert (Hp : parse liquid template = Throw (not_closed t)).
    { apply parse_fuel in Hpre as [n1 Hpre].
      apply parse_fuel. exists (n1 + S (S n))%nat. unfold template.
      rewrite (parseTokens_app liquid n1 pre tpls0 Hpre (S (S n))
                 (TagTok t :: post) (Throw (not_closed t))).
      - reflexivity.
      - simpl parseTokens. simpl parseToken.
        rewrite Hsec, Hbody. reflexivity. }
    rewrite R1, R4, Hp. split; [reflexivity|]. split; reflexivity.
Qed.

Lemma text_never_closes (liquid : Liquid) (s : string) :
  ∀ n body rest,
    parseStream liquid n "endsection" [HTMLToken s] ≠ Some (Ok (body, true, rest)).
Proof.
  intros [|[|[|n]]] body rest; simpl; discriminate.
Qed.

Lemma unterminated_section_witness :
  assoc "section" (liquid_tags TemplateParser) = Some SectionClass
  ∧ terminator "section" = false
  ∧ (∀ n body rest,
       parseStream TemplateParser n "endsection" [HTMLToken "x"]
       ≠ Some (Ok (body, true, rest)))
  ∧ forallb (in_fragment TemplateParser)
      [HTMLToken "a"; at_pos 1 2 (tag "section" "p" "p" (bare (Var "p")));
       HTMLToken "x"] = true
  ∧ result (render TemplateParser
              [HTMLToken "a"; at_pos 1 2 (tag "section" "p" "p" (bare (Var "p")));
               HTMLToken "x"]
              ∅ ∅)
    = Throw (ParseError "tag {% section p %} not closed"
               {| pos_line := 1; pos_col := 2 |})
  ∧ message_of (ParseError "tag {% section p %} not closed"
                  {| pos_line := 1; pos_col := 2 |})
    = Some "tag {% section p %} not closed, line:1, col:2".
Proof.
  split; [reflexivity|]. split; [reflexivity|].
  split; [apply text_never_closes|]. split; [reflexivity|].
  destruct (unterminated_section TemplateParser [HTMLToken "a"]
              {| tag_name := "section"; tag_args := "p";
                 tag_text := "{% section p %}"; tag_key := "p";
                 tag_value := {| vt_initial := Var "p"; vt_filters := [];
                                 vt_pos := {| pos_line := 1; pos_col := 2 |} |} |}
              [HTMLToken "x"] ∅ ∅ eq_refl eq_refl
              (text_never_closes TemplateParser "x") eq_refl)
    as (_ & _ & _ & _ & H).
  destruct (H [HTML "a"] 3%nat [HTML "x"] eq_refl eq_refl) as (Hr & _ & Hm).
  split; [exact Hr|exact Hm].
Defined.

(** The template [{% bogus  %}{% section p %}x] has a section that is
    never closed, and the error that is thrown names [bogus]: its
    message is [tag "bogus" not found, line:1, col:1]. *)
Lemma unterminated_section_other_error :
  let template :=
    [tag "bogus" "" "" (bare Absent);
     at_pos 1 13 (tag "section" "p" "p" (bare (Var "p"))); HTMLToken "x"] in
  let e := ParseError ("tag " ++ quoted "bogus" ++ " not found") pos_1_1 in
  (∀ n body rest,
     parseStream TemplateParser n "endsection" [HTMLToken "x"]
     ≠ Some (Ok (body, true, rest)))
  ∧ result (render TemplateParser template ∅ ∅) = Throw e
  ∧ result (renderWithMeta TemplateParser template ∅ ∅) = Throw e
  ∧ message_of e = Some ("tag " ++ quoted "bogus" ++ " not found, line:1, col:1").
Proof.
  split; [apply text_never_closes|]. vm_compute. auto.
Qed.

(** ** Unfolding the renderer *)

Ltac by_cases :=
  repeat first
    [ reflexivity
    | match goal with
      | |- context [match ?x with _ => _ end] => destruct x
      end ].

Lemma renderTemplates_nil (e : Emitter) (st : State) :
  renderTemplates [] e st = (st, Ok e).
Proof. reflexivity. Qed.

Lemma renderTemplates_cons (tpl : Template) (rest : list Template)
    (e : Emitter) (st : State) :
  renderTemplates (tpl :: rest) e st
  = match renderTemplate tpl e st with
    | (st', Ok e') => renderTemplates rest e' st'
    | (st', Throw msg) => (st', Throw msg)
    | (st', OutOfFragment) => (st', OutOfFragment)
    end.
Proof. reflexivity. Qed.

Lemma render_Capture (x : string) (b : list Template) (e : Emitter) (st : State) :
  renderTemplate (CaptureTag x b) e st
  = match renderTemplates b {| kind := SimpleEmitter; buffer := "" |} st with
    | (st', Ok e') =>
        match bottom_set x (VStr (buffer e')) st' with
        | (st'', Ok _) => (st'', Ok e)
        | (st'', Throw msg) => (st'', Throw msg)
        | (st'', OutOfFragment) => (st'', OutOfFragment)
        end
    | (st', Throw msg) => (st', Throw msg)
    | (st', OutOfFragment) => (st', OutOfFragment)
    end.
Proof.
  simpl. unfold mbind, renderTemplates. by_cases.
Qed.

Lemma render_Section (p : Position) (n : string) (b : list Template)
    (e : Emitter) (st : State) :
  renderTemplate (SectionTag p n b) e st
  = catching p (fun st =>
      match get_or_create_meta st with
      | (st1, Ok meta) =>
          match renderTemplates b {| kind := CaptureEmitter; buffer := "" |} st1 with
          | (st2, Ok e') =>
              match meta_sections_set meta (section_name n) (buffer e') st2 with
              | (st3, Ok _) => (st3, Ok e)
              | (st3, Throw msg) => (st3, Throw msg)
              | (st3, OutOfFragment) => (st3, OutOfFragment)
              end
          | (st2, Throw msg) => (st2, Throw msg)
          | (st2, OutOfFragment) => (st2, OutOfFragment)
          end
      | (st1, Throw msg) => (st1, Throw msg)
      | (st1, OutOfFragment) => (st1, OutOfFragment)
      end) st.
Proof.
  simpl. unfold catching, mbind, renderTemplates. by_cases.
Qed.

Lemma render_MustIncludeEach (v : Value) (e : Emitter) (st : State) :
  renderTemplate (MustIncludeEachTag v) e st
  = catching (v_pos v) (fun st =>
      match apply_filters (filters v) (evalToken (initial v) st) st with
      | Ok raw =>
          match read_words raw with
          | Ok ws =>
              match get_or_create_meta st with
              | (st1, Ok meta) =>
                  match meta_constraints_push meta
                          {| c_type := "must_include_each"; words := ws |} st1 with
                  | (st2, Ok _) => (st2, Ok (write_html (helper_text ws) e))
                  | (st2, Throw msg) => (st2, Throw msg)
                  | (st2, OutOfFragment) => (st2, OutOfFragment)
                  end
              | (st1, Throw msg) => (st1, Throw msg)
              | (st1, OutOfFragment) => (st1, OutOfFragment)
              end
          | Throw msg => (st, Throw msg)
          | OutOfFragment => (st, OutOfFragment)
          end
      | Throw msg => (st, Throw msg)
      | OutOfFragment => (st, OutOfFragment)
      end) st.
Proof.
  simpl. unfold catching, mbind, Value_value, lift. by_cases.
Qed.

(** The state after [catching], and its result. *)
Lemma catching_state {A : Type} (p : Position) (m : M A) (st : State) :
  (catching p m st).1 = (m st).1.
Proof. unfold catching. now destruct (m st) as [st' [a|x|]]. Qed.

Lemma catching_result {A : Type} (p : Position) (m : M A) (st : State) :
  (catching p m st).2 = caught p (m st).2.
Proof. unfold catching. now destruct (m st) as [st' [a|x|]]. Qed.

Lemma append_nil_r (s : string) : s ++ "" = s.
Proof.
  induction s as [|c s IH]; [reflexivity|].
  change (String c (s ++ "") = String c s). f_equal. exact IH.
Qed.

Lemma append_assoc (a b c : string) : (a ++ b) ++ c = a ++ (b ++ c).
Proof.
  induction a as [|x a IH]; [reflexivity|].
  change (String x ((a ++ b) ++ c) = String x (a ++ (b ++ c))). f_equal. exact IH.
Qed.

Lemma written_string (s : string) (e : Emitter) :
  written (VStr s) e = {| kind := kind e; buffer := buffer e ++ s |}.
Proof. unfold written. destruct (kind e); reflexivity. Qed.

Lemma write_string (s : string) (e : Emitter) :
  write (VStr s) e = Ok {| kind := kind e; buffer := buffer e ++ s |}.
Proof. unfold write. simpl. now rewrite written_string. Qed.

Lemma write_html_string (s : string) (e : Emitter) :
  write_html s e = {| kind := kind e; buffer := buffer e ++ s |}.
Proof.
  unfold write_html. destruct (String.eqb s "") eqn:E.
  - apply String.eqb_eq in E. subst. rewrite append_nil_r. destruct e; reflexivity.
  - apply written_string.
Qed.

Lemma renderTemplates_app (a b : list Template) (e : Emitter) (st : State) :
  renderTemplates (a ++ b) e st
  = match renderTemplates a e st with
    | (st', Ok e') => renderTemplates b e' st'
    | (st', Throw msg) => (st', Throw msg)
    | (st', OutOfFragment) => (st', OutOfFragment)
    end.
Proof.
  revert e st. induction a as [|tpl a IH]; intros e st; [reflexivity|].
  change ((tpl :: a) ++ b)%list with (tpl :: (a ++ b))%list.
  rewrite !renderTemplates_cons.
  destruct (renderTemplate tpl e st) as [st' [e'| |]]; auto.
Qed.

Lemma render_HTML (s : string) (e : Emitter) (st : State) :
  renderTemplate (HTML s) e st
  = (st, Ok {| kind := kind e; buffer := buffer e ++ s |}).
Proof. simpl. unfold lift. now rewrite write_string. Qed.

Lemma render_Output (v : Value) (e : Emitter) (st : State) :
  renderTemplate (Output v) e st
  = (st, caught (v_pos v)
           (do val <- apply_filters (filters v) (evalToken (initial v) st) st;
            write val e)).
Proof.
  simpl. unfold catching, mbind, Value_value, lift.
  destruct (apply_filters _ _ _); try reflexivity.
  simpl. now destruct (write a e).
Qed.

Lemma render_Increment (x : string) (e : Emitter) (st : State) :
  renderTemplate (IncrementTag x) e st
  = let st1 := counter_ready x st in
    let val := default VUndef (environments st1 !! x) in
    (match val with
     | VNum n => set_environments (<[x := VNum (n + 1)]> (environments st1)) st1
     | _ => st1
     end,
     do s <- stringify val; write (VStr s) e).
Proof.
  simpl. unfold mbind, modify, get_state, lift, counter_ready. simpl.
  now destruct (stringify _).
Qed.

Lemma render_Decrement (x : string) (e : Emitter) (st : State) :
  renderTemplate (DecrementTag x) e st
  = let st1 := counter_ready x st in
    let val := match environments st1 !! x with
               | Some (VNum n) => VNum (n - 1)
               | _ => VUndef
               end in
    (set_environments (<[x := val]> (environments st1)) st1,
     do s <- stringify val; write (VStr s) e).
Proof.
  simpl. unfold mbind, modify, get_state, lift, counter_ready. simpl.
  now destruct (stringify _).
Qed.

Lemma render_Assign (k : string) (v : Value) (e : Emitter) (st : State) :
  renderTemplate (AssignTag k v) e st
  = catching (v_pos v) (fun st =>
      match apply_filters (filters v) (evalToken (initial v) st) st with
      | Ok val =>
          match bottom_set k val st with
          | (st', Ok _) => (st', Ok e)
          | (st', Throw msg) => (st', Throw msg)
          | (st', OutOfFragment) => (st', OutOfFragment)
          end
      | Throw msg => (st, Throw msg)
      | OutOfFragment => (st, OutOfFragment)
      end) st.
Proof.
  simpl. unfold catching, mbind, Value_value. by_cases.
Qed.

Lemma render_Upper (v : Value) (e : Emitter) (st : State) :
  renderTemplate (UpperTag v) e st
  = (st, caught (v_pos v)
           (do str <- apply_filters (filters v) (evalToken (initial v) st) st;
            do s <- to_string str;
            Ok (write_html (map_string upper_ascii s) e))).
Proof.
  simpl. unfold catching, mbind, Value_value, lift, ret.
  destruct (apply_filters _ _ _); try reflexivity.
  simpl. destruct (to_string a); reflexivity.
Qed.

(** ** What rendering does to the state, block by block *)

Section Steps.

(** A preorder on states that every template of a block respects is
    respected by the block. *)
Variable R : State → State → Prop.
Hypothesis R_refl : ∀ st, R st st.
Hypothesis R_trans : ∀ a b c, R a b → R b c → R a c.

Lemma renderTemplates_steps (b : list Template) :
  Forall (λ tpl, ∀ e st, R st (renderTemplate tpl e st).1) b →
  ∀ e st, R st (renderTemplates b e st).1.
Proof.
  induction 1 as [|tpl rest Htpl _ IH]; intros e st.
  - apply R_refl.
  - rewrite renderTemplates_cons. specialize (Htpl e st).
    destruct (renderTemplate tpl e st) as [st' [e'| |]]; simpl in *; auto.
    eapply R_trans; [exact Htpl|apply IH].
Qed.

End Steps.

Lemma Forall_mp {A : Type} (P Q : A → Prop) (l : list A) :
  Forall (λ x, P x → Q x) l → Forall P l → Forall Q l.
Proof.
  induction 1 as [|x r Hx _ IH]; intros HP; [constructor|].
  apply Forall_cons in HP as [HPx HPr]. constructor; auto.
Qed.

Lemma all_nodes_block (p : Template → bool) (tpl : Template) :
  all_nodes p tpl = true →
  p tpl = true
  ∧ match tpl with
    | CaptureTag _ b | SectionTag _ _ b => Forall (λ t, all_nodes p t = true) b
    | _ => True
    end.
Proof.
  destruct tpl; simpl; intros H; apply andb_true_iff in H as [H1 H2];
    split; auto; apply Forall_forall; intros t Ht;
    rewrite forallb_forall in H2; apply H2, list_elem_of_In, Ht.
Qed.

(** *** The environments *)

Lemma env_get_or_create_meta (st : State) :
  environments (get_or_create_meta st).1 = environments st.
Proof. unfold get_or_create_meta. destruct (truthy _); reflexivity. Qed.

Lemma env_bottom_set (k : string) (v : value) (st : State) :
  environments (bottom_set k v st).1 = environments st.
Proof. unfold bottom_set. destruct (scopes st); reflexivity. Qed.

Lemma env_update_meta (r : ref) (f : PromptEngMeta → PromptEngMeta) (st : State) :
  environments (update_meta r f st).1 = environments st.
Proof.
  unfold update_meta. destruct r; [|reflexivity].
  destruct (local st !! i); reflexivity.
Qed.

Lemma env_meta_constraints_push (m : value) (c : Constraint) (st : State) :
  environments (meta_constraints_push m c st).1 = environments st.
Proof.
  unfold meta_constraints_push. destruct m; try reflexivity.
  - destruct (assoc "constraints" fields) as [[]|]; reflexivity.
  - apply env_update_meta.
Qed.

Lemma env_meta_sections_set (m : value) (k s : string) (st : State) :
  environments (meta_sections_set m k s st).1 = environments st.
Proof.
  unfold meta_sections_set. destruct m; try reflexivity.
  - destruct (assoc "sections" fields) as [[]|]; reflexivity.
  - apply env_update_meta.
Qed.

(** A template without counters leaves the environments as they are,
    whether it returns or throws. *)
Lemma no_counter_environments (tpl : Template) :
  no_counter tpl = true →
  ∀ e st, environments (renderTemplate tpl e st).1 = environments st.
Proof.
  unfold no_counter.
  induction tpl as [s|v|k v|x b IH|x|x|v|v|p n b IH] using Template_nested_ind;
    intros Hnc e st; apply all_nodes_block in Hnc as [Hp Hb]; try discriminate.
  - now rewrite render_HTML.
  - now rewrite render_Output.
  - rewrite render_Assign, catching_state.
    destruct (apply_filters _ _ _); try reflexivity.
    pose proof (env_bottom_set k a st) as Hb'.
    destruct (bottom_set k a st) as [st' [[]| |]]; exact Hb'.
  - rewrite render_Capture.
    assert (Hbody : ∀ e st, environments (renderTemplates b e st).1 = environments st).
    { apply (renderTemplates_steps (λ a c, environments c = environments a));
        [reflexivity|intros ? ? ? H1 H2; congruence|].
      exact (Forall_mp _ _ _ IH Hb). }
    specialize (Hbody {| kind := SimpleEmitter; buffer := "" |} st).
    destruct (renderTemplates b _ st) as [st' [e'| |]]; simpl in *; auto.
    pose proof (env_bottom_set x (VStr (buffer e')) st') as Hb'.
    destruct (bottom_set x _ st') as [st'' [[]| |]]; simpl in *; congruence.
  - now rewrite render_Upper.
  - rewrite render_MustIncludeEach, catching_state.
    destruct (apply_filters _ _ _); try reflexivity.
    destruct (read_words a) as [ws| |]; try reflexivity.
    pose proof (env_get_or_create_meta st) as H1.
    destruct (get_or_create_meta st) as [st1 [m| |]]; simpl in *; auto.
    pose proof (env_meta_constraints_push m
                  {| c_type := "must_include_each"; words := ws |} st1) as H2.
    destruct (meta_constraints_push m _ st1) as [st2 [[]| |]]; simpl in *; congruence.
  - rewrite render_Section, catching_state.
    assert (Hbody : ∀ e st, environments (renderTemplates b e st).1 = environments st).
    { apply (renderTemplates_steps (λ a c, environments c = environments a));
        [reflexivity|intros ? ? ? H1 H2; congruence|].
      exact (Forall_mp _ _ _ IH Hb). }
    pose proof (env_get_or_create_meta st) as H1.
    destruct (get_or_create_meta st) as [st1 [m| |]]; simpl in *; auto.
    specialize (Hbody {| kind := CaptureEmitter; buffer := "" |} st1).
    destruct (renderTemplates b _ st1) as [st2 [e'| |]]; simpl in *; try congruence.
    pose proof (env_meta_sections_set m (section_name n) (buffer e') st2) as H3.
    destruct (meta_sections_set m _ _ st2) as [st3 [[]| |]]; simpl in *; congruence.
Qed.

(** ** The caller's variables *)

Lemma render_keeps_variables (liquid : Liquid) (toks : list TopLevelToken)
    (vars : gmap string value) (heap : gmap nat PromptEngMeta) :
  (∀ tpls, parse liquid toks = Ok tpls → forallb no_counter tpls = true) →
  variables_after (render liquid toks vars heap) = vars.
Proof.
  intros Hnc. unfold render, parseAndRender.
  destruct (parse liquid toks) as [tpls| |]; try reflexivity.
  specialize (Hnc tpls eq_refl).
  assert (H : environments
                (renderTemplates tpls {| kind := SimpleEmitter; buffer := "" |}
                   (new_Context vars [] heap)).1 = vars).
  { apply (renderTemplates_steps (λ a c, environments c = environments a));
      [reflexivity|intros ? ? ? H1 H2; congruence|].
    apply Forall_forall. intros t Ht.
    apply no_counter_environments.
    rewrite forallb_forall in Hnc. apply Hnc, list_elem_of_In, Ht. }
  destruct (renderTemplates tpls _ _) as [st [e| |]]; exact H.
Qed.

(** C4. [render] on the template [{% increment c %}] and the empty map
    returns [0], and afterwards the caller's map binds [c] to [1]:
    [render] hands the caller's object to the engine.  [renderWithMeta]
    on the same template and map returns the same text and leaves the
    map empty: it renders against a copy. *)
Lemma increment_writes_variables :
  let template := [tag "increment" "c" "c" (bare (Var "c"))] in
  result (render TemplateParser template ∅ ∅) = Ok "0"
  ∧ variables_after (render TemplateParser template ∅ ∅) !! "c" = Some (VNum 1)
  ∧ (∅ : gmap string value) !! "c" = None
  ∧ (do r <- result (renderWithMeta TemplateParser template ∅ ∅); Ok (text r))
    = Ok "0"
  ∧ variables_after (renderWithMeta TemplateParser template ∅ ∅) = ∅.
Proof. vm_compute. auto 6. Qed.

(** ** The metadata name while nothing rebinds it *)

Lemma find_has_key_None (k : string) (l : list (gmap string value)) :
  Forall (λ s : gmap string value, s !! k = None) l →
  List.find (has_key k) l = None.
Proof.
  induction 1 as [|s r Hs _ IH]; [reflexivity|]. simpl.
  unfold has_key at 1. rewrite Hs.
  rewrite bool_decide_eq_false_2; [exact IH|]. intros [? ?]; discriminate.
Qed.

Lemma Forall_rev_list {A : Type} (P : A → Prop) (l : list A) :
  Forall P l → Forall P (rev l).
Proof.
  rewrite !Forall_forall. intros H x Hx. apply H.
  apply list_elem_of_In, in_rev, list_elem_of_In, Hx.
Qed.

Lemma ctx_get_meta_bound (st : State) :
  meta_bound st → ctx_get st META = VMeta (RLocal 0).
Proof.
  intros (Henv & Hsc & _ & _). unfold ctx_get, findScope.
  rewrite (find_has_key_None META (rev (scopes st)) (Forall_rev_list _ _ Hsc)).
  unfold has_key. rewrite Henv.
  rewrite bool_decide_eq_true_2 by eauto. rewrite Henv. reflexivity.
Qed.

Lemma get_or_create_meta_bound (st : State) :
  meta_bound st → get_or_create_meta st = (st, Ok (VMeta (RLocal 0))).
Proof.
  intros H. unfold get_or_create_meta.
  pose proof (ctx_get_meta_bound st H) as E. unfold META in E. rewrite E.
  reflexivity.
Qed.

(** Writing to the call's own record. *)
Lemma update_meta_own (f : PromptEngMeta → PromptEngMeta) (st : State) :
  (0 < length (local st))%nat →
  ∃ m rest, local st = m :: rest
            ∧ update_meta (RLocal 0) f st = (set_local (f m :: rest) st, Ok tt).
Proof.
  intros Hlen. unfold update_meta.
  destruct (local st) as [|m rest] eqn:E; [simpl in Hlen; lia|].
  exists m, rest. split; [reflexivity|]. reflexivity.
Qed.

Lemma meta_bound_set_local (lo : list PromptEngMeta) (st : State) :
  meta_bound st → (0 < length lo)%nat → meta_bound (set_local lo st).
Proof. intros (H1 & H2 & H3 & _) Hlo. repeat split; auto. Qed.

Lemma meta_bound_bottom_set (k : string) (v : value) (st : State) :
  k ≠ META → meta_bound st →
  ∃ st', bottom_set k v st = (st', Ok tt)
         ∧ meta_bound st' ∧ caller st' = caller st ∧ local st' = local st.
Proof.
  intros Hk (H1 & H2 & H3 & H4). unfold bottom_set.
  destruct (scopes st) as [|s0 r] eqn:E; [contradiction|].
  eexists. split; [reflexivity|]. repeat split; simpl; auto.
  apply Forall_cons in H2 as [Hs0 Hr]. constructor; auto.
  rewrite lookup_insert_ne; auto.
Qed.

Lemma binds_ne (tpl : Template) (x : string) :
  negb (binds META tpl) = true →
  match tpl with
  | AssignTag k _ | CaptureTag k _ | IncrementTag k | DecrementTag k => k ≠ META
  | _ => True
  end.
Proof.
  destruct tpl; simpl; auto; intros H ->;
    rewrite String.eqb_refl in H; discriminate.
Qed.

Lemma meta_bound_set_environments (x : string) (v : value) (st : State) :
  x ≠ META → meta_bound st →
  meta_bound (set_environments (<[x := v]> (environments st)) st).
Proof.
  intros Hx (H1 & H2 & H3 & H4). repeat split; auto. simpl.
  rewrite lookup_insert_ne; auto.
Qed.

(** A template that does not bind the metadata name keeps it bound to
    the call's own record, and touches no record of the caller. *)
Lemma meta_bound_counter_ready (x : string) (st : State) :
  x ≠ META → meta_bound st →
  meta_bound (counter_ready x st) ∧ caller (counter_ready x st) = caller st.
Proof.
  intros Hx Hst. unfold counter_ready.
  destruct (is_number _); [auto|].
  split; [|reflexivity]. now apply meta_bound_set_environments.
Qed.

Lemma no_rebind_stable (tpl : Template) :
  no_rebind tpl = true →
  ∀ e st, meta_bound st →
    meta_bound (renderTemplate tpl e st).1
    ∧ caller (renderTemplate tpl e st).1 = caller st.
Proof.
  unfold no_rebind.
  induction tpl as [s|v|k v|x b IH|x|x|v|v|p n b IH] using Template_nested_ind;
    intros Hnr e st Hst; apply all_nodes_block in Hnr as [Hp Hb];
    pose proof (binds_ne _ "" Hp) as Hne; clear Hp.
  - rewrite render_HTML. auto.
  - rewrite render_Output. auto.
  - rewrite render_Assign, catching_state.
    destruct (apply_filters _ _ _); auto.
    destruct (meta_bound_bottom_set k a st Hne Hst) as (st' & -> & H1 & H2 & _).
    auto.
  - rewrite render_Capture.
    assert (Hbody : ∀ e st, meta_bound st →
              meta_bound (renderTemplates b e st).1
              ∧ caller (renderTemplates b e st).1 = caller st).
    { apply (renderTemplates_steps
               (λ a c, meta_bound a → meta_bound c ∧ caller c = caller a)).
      - auto.
      - intros a b0 c Hab Hbc Ha. destruct (Hab Ha) as [Hb1 Hb2].
        destruct (Hbc Hb1) as [Hc1 Hc2]. split; [auto|congruence].
      - exact (Forall_mp _ _ _ IH Hb). }
    destruct (Hbody {| kind := SimpleEmitter; buffer := "" |} st Hst) as [H1 H2].
    destruct (renderTemplates b _ st) as [st' [e'| |]]; simpl in *; auto.
    destruct (meta_bound_bottom_set x (VStr (buffer e')) st' Hne H1)
      as (st'' & -> & H3 & H4 & _).
    simpl. split; [auto|congruence].
  - rewrite render_Increment. cbn [fst]. simpl in Hne.
    destruct (meta_bound_counter_ready x st Hne Hst) as [H1 H2].
    destruct (default VUndef _); auto.
    split; [|exact H2]. now apply meta_bound_set_environments.
  - rewrite render_Decrement. cbn [fst]. simpl in Hne.
    destruct (meta_bound_counter_ready x st Hne Hst) as [H1 H2].
    split; [|exact H2]. now apply meta_bound_set_environments.
  - rewrite render_Upper. auto.
  - rewrite render_MustIncludeEach, catching_state.
    destruct (apply_filters _ _ _); auto.
    destruct (read_words a) as [ws| |]; auto.
    rewrite (get_or_create_meta_bound st Hst). cbv beta iota.
    unfold meta_constraints_push.
    destruct (update_meta_own
                (push_constraint {| c_type := "must_include_each";
                                    words := ws |}) st)
      as (m & rest & Hlo & ->); [apply Hst|].
    simpl. split; [|reflexivity].
    apply meta_bound_set_local; [exact Hst|simpl; lia].
  - rewrite render_Section, catching_state.
    assert (Hbody : ∀ e st, meta_bound st →
              meta_bound (renderTemplates b e st).1
              ∧ caller (renderTemplates b e st).1 = caller st).
    { apply (renderTemplates_steps
               (λ a c, meta_bound a → meta_bound c ∧ caller c = caller a)).
      - auto.
      - intros a b0 c Hab Hbc Ha. destruct (Hab Ha) as [Hb1 Hb2].
        destruct (Hbc Hb1) as [Hc1 Hc2]. split; [auto|congruence].
      - exact (Forall_mp _ _ _ IH Hb). }
    rewrite (get_or_create_meta_bound st Hst).
    destruct (Hbody {| kind := CaptureEmitter; buffer := "" |} st Hst) as [H1 H2].
    destruct (renderTemplates b _ st) as [st2 [e'| |]]; cbn [fst snd] in *; auto.
    unfold meta_sections_set.
    destruct (update_meta_own (set_section (section_name n) (buffer e')) st2)
      as (m & rest & Hlo & ->); [apply H1|].
    simpl. split; [|exact H2].
    apply meta_bound_set_local; [exact H1|simpl; lia].
Qed.

Lemma meta_bound_new_Context (vars : gmap string value)
    (heap : gmap nat PromptEngMeta) :
  meta_bound (new_Context (<[META := VMeta (RLocal 0)]> vars) [new_meta] heap).
Proof.
  repeat split; simpl.
  - apply lookup_insert_eq.
  - constructor; [apply lookup_empty|constructor].
  - discriminate.
  - lia.
Qed.

Lemma no_rebind_block (b : list Template) :
  forallb no_rebind b = true →
  ∀ e st, meta_bound st →
    meta_bound (renderTemplates b e st).1
    ∧ caller (renderTemplates b e st).1 = caller st.
Proof.
  intros Hb.
  apply (renderTemplates_steps
           (λ a c, meta_bound a → meta_bound c ∧ caller c = caller a)).
  - auto.
  - intros a b0 c Hab Hbc Ha. destruct (Hab Ha) as [Hb1 Hb2].
    destruct (Hbc Hb1) as [Hc1 Hc2]. split; [auto|congruence].
  - apply Forall_forall. intros t Ht. apply no_rebind_stable.
    rewrite forallb_forall in Hb. apply Hb, list_elem_of_In, Ht.
Qed.

Lemma renderWithMeta_keeps_heap (liquid : Liquid) (toks : list TopLevelToken)
    (vars : gmap string value) (heap : gmap nat PromptEngMeta) :
  (∀ tpls, parse liquid toks = Ok tpls → forallb no_rebind tpls = true) →
  heap_after (renderWithMeta liquid toks vars heap) = heap.
Proof.
  intros Hnr. unfold renderWithMeta, parseAndRender.
  destruct (parse liquid toks) as [tpls| |]; try reflexivity.
  destruct (no_rebind_block tpls (Hnr tpls eq_refl)
              {| kind := SimpleEmitter; buffer := "" |}
              (new_Context (<[META := VMeta (RLocal 0)]> vars) [new_meta] heap)
              (meta_bound_new_Context _ heap)) as [_ H].
  unfold META in H.
  destruct (renderTemplates tpls _ _) as [st [e| |]]; exact H.
Qed.

(** ** The record that [renderWithMeta] returns *)

(** C10. [renderWithMeta] binds the metadata name to the record it has
    just created, after spreading the caller's variables: whatever the
    caller's map binds under that name, the render starts with the name
    resolving to the call's own record, and the call returns and leaves
    behind exactly what it does when the caller's map has no such key.
    For a template of the embedded fragment that does not rebind the
    name, the caller's records, the supplied one included, are left as
    they were. *)
Theorem meta_is_the_calls_own (liquid : Liquid) (toks : list TopLevelToken)
    (vars : gmap string value) (heap : gmap nat PromptEngMeta) (v : value) :
  ctx_get (new_Context (<[META := VMeta (RLocal 0)]> (<[META := v]> vars))
             [new_meta] heap) META = VMeta (RLocal 0)
  ∧ result (renderWithMeta liquid toks (<[META := v]> vars) heap)
    = result (renderWithMeta liquid toks (delete META vars) heap)
  ∧ heap_after (renderWithMeta liquid toks (<[META := v]> vars) heap)
    = heap_after (renderWithMeta liquid toks (delete META vars) heap)
  ∧ ((∀ tpls, parse liquid toks = Ok tpls → forallb no_rebind tpls = true) →
     result (renderWithMeta liquid toks (<[META := v]> vars) heap) ≠ OutOfFragment →
     heap_after (renderWithMeta liquid toks (<[META := v]> vars) heap) = heap).
Proof.
  split; [apply ctx_get_meta_bound, meta_bound_new_Context|].
  assert (E : <["__promptengMeta" := VMeta (RLocal 0)]> (<[META := v]> vars)
              = <["__promptengMeta" := VMeta (RLocal 0)]> (delete META vars)).
  { unfold META. rewrite insert_insert_eq, insert_delete_eq. reflexivity. }
  split; [unfold renderWithMeta; rewrite E;
          destruct (parseAndRender _ _ _); reflexivity|].
  split; [unfold renderWithMeta; rewrite E;
          destruct (parseAndRender _ _ _); reflexivity|].
  intros Hnr _. apply renderWithMeta_keeps_heap, Hnr.
Qed.

(** The caller's map binds the metadata name to a record of the
    caller's: the call leaves that record alone. *)
Lemma meta_is_the_calls_own_witness :
  (∀ tpls, parse TemplateParser words_template = Ok tpls →
           forallb no_rebind tpls = true)
  ∧ result (renderWithMeta TemplateParser words_template
              (<[META := VMeta (RCaller 5)]> {[ "ws" := VStr "a" ]})
              {[ 5%nat := new_meta ]}) ≠ OutOfFragment
  ∧ heap_after (renderWithMeta TemplateParser words_template
                  (<[META := VMeta (RCaller 5)]> {[ "ws" := VStr "a" ]})
                  {[ 5%nat := new_meta ]})
    = {[ 5%nat := new_meta ]}.
Proof.
  assert (H : ∀ tpls, parse TemplateParser words_template = Ok tpls →
                      forallb no_rebind tpls = true).
  { intros tpls E. vm_compute in E. injection E as <-. reflexivity. }
  assert (H' : result (renderWithMeta TemplateParser words_template
              (<[META := VMeta (RCaller 5)]> {[ "ws" := VStr "a" ]})
              {[ 5%nat := new_meta ]}) ≠ OutOfFragment)
    by (vm_compute; discriminate).
  split; [exact H|]. split; [exact H'|].
  destruct (meta_is_the_calls_own TemplateParser words_template
              {[ "ws" := VStr "a" ]} {[ 5%nat := new_meta ]} (VMeta (RCaller 5)))
    as (_ & _ & _ & Hheap).
  exact (Hheap H H').
Defined.

(** ** The [must_include_each] directive *)

Lemma write_html_nonempty (s : string) (e : Emitter) :
  s ≠ "" → buffer (write_html s e) = buffer e ++ s.
Proof.
  intros Hs. unfold write_html.
  destruct (String.eqb s "") eqn:E; [apply String.eqb_eq in E; contradiction|].
  unfold written. destruct (kind e); reflexivity.
Qed.

Lemma update_meta_deref (r : ref) (f : PromptEngMeta → PromptEngMeta)
    (st : State) (m : PromptEngMeta) :
  deref r st = Some m →
  ∃ st', update_meta r f st = (st', Ok tt) ∧ deref r st' = Some (f m).
Proof.
  destruct r as [i|l]; simpl; intros H.
  - rewrite H. eexists. split; [reflexivity|]. simpl.
    apply list_lookup_insert_eq. apply lookup_lt_Some in H. exact H.
  - injection H as <-. eexists. split; [reflexivity|]. simpl.
    rewrite lookup_insert_eq. reflexivity.
Qed.

Lemma get_or_create_meta_falsy (st : State) :
  truthy (ctx_get st META) = false →
  ∃ st', get_or_create_meta st = (st', Ok (VMeta (RLocal (length (local st)))))
         ∧ local st' = (local st ++ [new_meta])%list
         ∧ caller st' = caller st.
Proof.
  intros H. unfold get_or_create_meta. unfold META in H. rewrite H.
  eexists. split; [reflexivity|]. split; reflexivity.
Qed.

Lemma get_or_create_meta_truthy (st : State) :
  truthy (ctx_get st META) = true →
  get_or_create_meta st = (st, Ok (ctx_get st META)).
Proof.
  intros H. unfold get_or_create_meta. unfold META in *. rewrite H. reflexivity.
Qed.

Lemma read_words_convert (raw : value) :
  words_convert raw = true → read_words raw = Ok (words_of raw).
Proof.
  unfold read_words, words_convert. destruct raw; try reflexivity.
  intros H. apply andb_true_iff in H as [H1 H2].
  now rewrite (convert_all_true _ H1 H2).
Qed.

(** C2. Whenever the directive's expression evaluates, to [raw]: when
    every element of a sequence [raw] can be converted to a string and
    the metadata name resolves to a metadata record or to nothing, the
    directive returns; the render metadata (the record the name
    resolves to, or the one created on the spot) has exactly one more
    constraint, [{type: "must_include_each", words}], at the end of its
    list; [words] is each element stringified when [raw] is a sequence,
    the comma-split pieces, trimmed, without the empty ones, when [raw]
    is a string; the directive emits nothing when [words] is empty and
    the sentence listing the words otherwise.  When the name resolves
    to a truthy value that is not an object, or to an array, or when an
    element of the sequence cannot be converted, the directive throws:
    a [RenderError] at the tag, caused by a [TypeError]; nothing is
    recorded and nothing is emitted. *)
Theorem must_include_each_records (v : Value) (e : Emitter) (st : State)
    (raw : value) :
  apply_filters (filters v) (evalToken (initial v) st) st = Ok raw →
  let ws := words_of raw in
  (words_convert raw = true → meta_ready st →
   ∃ st',
     renderTemplate (MustIncludeEachTag v) e st
       = (st', Ok (write_html (helper_text ws) e))
     ∧ deref (render_meta st).1 st'
       = Some {| constraints :=
                   constraints (render_meta st).2
                   ++ [{| c_type := "must_include_each"; words := ws |}];
                 sections := sections (render_meta st).2 |}
     ∧ (∀ l, raw = VArr l → ws = map js_String l)
     ∧ (∀ s, raw = VStr s → ws = List.filter nonempty (map trim (split comma s)))
     ∧ (ws = [] → write_html (helper_text ws) e = e)
     ∧ (ws ≠ [] →
        buffer (write_html (helper_text ws) e)
        = buffer e ++ "IMPORTANT: You MUST use EACH of these words at least once: "
            ++ String.concat ", " ws ++ "."))
  ∧ (words_convert raw = true →
     truthy (ctx_get st META) = true →
     (∀ r, ctx_get st META ≠ VMeta r) → (∀ fs, ctx_get st META ≠ VObj fs) →
     renderTemplate (MustIncludeEachTag v) e st
       = (st, Throw (RenderError TypeError (v_pos v))))
  ∧ (∀ l, raw = VArr l → forallb convertible l = false →
     renderTemplate (MustIncludeEachTag v) e st
       = (st, Throw (RenderError TypeError (v_pos v)))).
Proof.
  intros Hraw ws.
  assert (Hwords :
    (∀ l, raw = VArr l → ws = map js_String l)
    ∧ (∀ s, raw = VStr s → ws = List.filter nonempty (map trim (split comma s)))
    ∧ (ws = [] → write_html (helper_text ws) e = e)
    ∧ (ws ≠ [] →
       buffer (write_html (helper_text ws) e)
       = buffer e ++ "IMPORTANT: You MUST use EACH of these words at least once: "
           ++ String.concat ", " ws ++ ".")).
  { split; [intros l ->; reflexivity|]. split; [intros s ->; reflexivity|].
    split; [intros ->; reflexivity|].
    intros Hne. destruct ws as [|w ws']; [contradiction|].
    apply write_html_nonempty. discriminate. }
  rewrite render_MustIncludeEach. unfold catching. rewrite Hraw.
  split; [|split].
  - intros Hconv Hready. rewrite (read_words_convert raw Hconv). fold ws.
    set (c := {| c_type := "must_include_each"; words := ws |}).
    unfold meta_ready, render_meta in *.
    destruct (ctx_get st META) as [| |b|n|s|l|fs|r] eqn:Eget; simpl in Hready;
      try discriminate.
    1-5: destruct (get_or_create_meta_falsy st) as (st1 & -> & Hlo & _);
         [rewrite Eget; exact Hready|]; cbv beta iota;
         unfold meta_constraints_push;
         destruct (update_meta_deref (RLocal (length (local st))) (push_constraint c)
                     st1 new_meta) as (st2 & -> & Hd);
         [simpl; rewrite Hlo; apply list_lookup_middle; reflexivity|];
         exists st2; split; [reflexivity|]; split; [exact Hd|exact Hwords].
    rewrite get_or_create_meta_truthy by (rewrite Eget; reflexivity).
    rewrite Eget. cbv beta iota. unfold meta_constraints_push.
    assert (Hd0 : ∃ m, deref r st = Some m) by
      (destruct r; simpl; [apply lookup_lt_is_Some_2, Hready|eauto]).
    destruct Hd0 as [m Hm].
    destruct (update_meta_deref r (push_constraint c) st m Hm) as (st2 & -> & Hd).
    exists st2. split; [reflexivity|]. simpl. rewrite Hm. simpl.
    split; [exact Hd|exact Hwords].
  - intros Hconv Ht Hr Ho. rewrite (read_words_convert raw Hconv).
    rewrite (get_or_create_meta_truthy st Ht).
    destruct (ctx_get st META) as [| |b|n|s|l|fs|r]; try discriminate;
      try reflexivity.
    + now destruct (Ho fs).
    + now destruct (Hr r).
  - intros l -> Hl. unfold read_words. now rewrite (convert_all_false _ Hl).
Qed.

Lemma must_include_each_records_witness :
  apply_filters (filters example_value)
    (evalToken (initial example_value) example_state) example_state
    = Ok (VStr "a, b")
  ∧ words_convert (VStr "a, b") = true
  ∧ meta_ready example_state
  ∧ ∃ st',
      renderTemplate (MustIncludeEachTag example_value) empty_emitter example_state
        = (st', Ok (write_html (helper_text ["a"; "b"]) empty_emitter))
      ∧ deref (RLocal 0) st'
        = Some {| constraints :=
                    [{| c_type := "must_include_each"; words := ["a"; "b"] |}];
                  sections := ∅ |}.
Proof.
  assert (H1 : apply_filters (filters example_value)
                 (evalToken (initial example_value) example_state) example_state
               = Ok (VStr "a, b")) by reflexivity.
  assert (H2 : meta_ready example_state) by (vm_compute; lia).
  split; [exact H1|]. split; [reflexivity|]. split; [exact H2|].
  destruct (must_include_each_records example_value empty_emitter example_state
              (VStr "a, b") H1) as (H & _).
  destruct (H eq_refl H2) as (st' & Hr & Hd & _).
  exists st'. split; [exact Hr|exact Hd].
Defined.

(** The template binds the metadata name to a string before the
    directive: the directive throws, and no constraint is recorded.
    It throws as well at a sequence with an element that cannot be
    converted to a string, [{toString: 1}]. *)
Lemma must_include_each_throws_when_shadowed :
  let e := RenderError TypeError {| pos_line := 1; pos_col := 35 |} in
  result (renderWithMeta TemplateParser shadowing_template ∅ ∅) = Throw e
  ∧ result (render TemplateParser shadowing_template ∅ ∅) = Throw e
  ∧ result (renderWithMeta TemplateParser words_template
              {[ "ws" := VArr [VObj [("toString", VNum 1)]] ]} ∅)
    = Throw (RenderError TypeError pos_1_1).
Proof. vm_compute. auto. Qed.

(** ** Two renders side by side *)

Section Simulation.

(** A relation between states that every template of a block keeps,
    with equal outcomes, is kept by the block, with equal outcomes. *)
Variable S : State → State → Prop.

Lemma renderTemplates_simulates (l : list Template) :
  Forall (λ tpl, simulates S (renderTemplate tpl)) l →
  simulates S (renderTemplates l).
Proof.
  induction 1 as [|tpl rest Htpl _ IH]; intros e a b Hab.
  - simpl. auto.
  - rewrite !renderTemplates_cons.
    destruct (Htpl e a b Hab) as [Ho Hs].
    destruct (renderTemplate tpl e a) as [a' [ea| |]];
      destruct (renderTemplate tpl e b) as [b' [eb| |]];
      simpl in *; try discriminate; auto.
    injection Ho as ->. apply IH, Hs.
Qed.

End Simulation.

Tactic Notation "sim_step" constr(L) "as" ident(sa) ident(sb) ident(r) ident(Hs) :=
  let Ho := fresh "Ho" in
  let r0 := fresh "r" in
  destruct L as [Ho Hs];
  match type of Ho with
  | (?x).2 = (?y).2 =>
      destruct x as [sa [r0| |]]; destruct y as [sb [r| |]];
      simpl in Ho, Hs |- *; try discriminate; try (injection Ho as ->);
      try (split; [reflexivity|exact Hs])
  end.

(** ** Rendering again *)

(** C7. [render] twice on the template [{% increment c %}] and the
    same variables object: the first call returns [0] and leaves the
    counter in the caller's object, so the second call returns [1].
    [renderWithMeta], which renders against a copy of the variables,
    returns [0] both times. *)
Lemma rerender_with_counter_differs :
  let template := [tag "increment" "c" "c" (bare (Var "c"))] in
  let s1 := render TemplateParser template ∅ ∅ in
  let s2 := render TemplateParser template (variables_after s1) (heap_after s1) in
  let r1 := renderWithMeta TemplateParser template ∅ ∅ in
  let r2 := renderWithMeta TemplateParser template
              (variables_after r1) (heap_after r1) in
  result s1 = Ok "0"
  ∧ result s2 = Ok "1"
  ∧ result r1 = Ok {| text := "0"; meta := new_meta |}
  ∧ result r2 = result r1.
Proof. vm_compute. auto. Qed.

(** ** Two calls in sequence *)

(** The caller holds a metadata record, at the address [0], as an
    earlier call returned it.  A call is given the record under the
    name [m], and its template rebinds the metadata name to it: the
    constraint of the call lands in the caller's record, and the
    record that the call returns has none. *)
Lemma calls_leak_through_rebinding :
  let r2 := renderWithMeta TemplateParser rebinding_template
              {[ "m" := VMeta (RCaller 0) ]} {[ 0%nat := new_meta ]} in
  result r2
    = Ok {| text := "IMPORTANT: You MUST use EACH of these words at least once: leak.";
            meta := new_meta |}
  ∧ heap_after r2 !! 0%nat
    = Some {| constraints := [{| c_type := "must_include_each"; words := ["leak"] |}];
              sections := ∅ |}.
Proof.
  vm_compute. repeat split; reflexivity.
Qed.

(** ** [render] beside [renderWithMeta] *)

Lemma with_meta_bound (a b : State) : with_meta a b → meta_bound b.
Proof.
  intros (H1 & H2 & H3 & H4 & H5). repeat split; auto.
  - rewrite H2. apply lookup_insert_eq.
  - destruct H5 as [(_ & _ & ->)|(_ & _ & H)]; [simpl; lia|exact H].
Qed.

Lemma has_key_meta_scope (k : string) : k ≠ META → has_key k meta_scope = false.
Proof.
  intros Hk. unfold has_key, meta_scope.
  apply bool_decide_eq_false_2. rewrite lookup_singleton_ne by auto.
  intros [? ?]; discriminate.
Qed.

Lemma ctx_get_with_meta (a b : State) (k : string) :
  with_meta a b → k ≠ META → ctx_get a k = ctx_get b k.
Proof.
  intros (H1 & H2 & H3 & H4 & H5) Hk. unfold ctx_get, findScope.
  assert (Hfind : List.find (has_key k) (rev (scopes a))
                  = List.find (has_key k) (rev (scopes b))).
  { destruct H5 as [(-> & _)|(-> & _)]; [reflexivity|].
    rewrite rev_app_distr. simpl. rewrite has_key_meta_scope by auto.
    reflexivity. }
  rewrite Hfind.
  destruct (List.find (has_key k) (rev (scopes b))); [reflexivity|].
  unfold has_key. rewrite H2, lookup_insert_ne by auto.
  destruct (bool_decide _); [|reflexivity].
  rewrite lookup_insert_ne by auto. reflexivity.
Qed.

Lemma evalToken_with_meta (a b : State) (x : Expr) :
  with_meta a b → expr_mentions META x = false → evalToken x a = evalToken x b.
Proof.
  intros H Hx. destruct x; simpl in *; auto.
  apply ctx_get_with_meta; auto.
  intros ->. rewrite String.eqb_refl in Hx. discriminate.
Qed.

Lemma apply_filters_with_meta (a b : State) (fs : list Filter) (v : value) :
  with_meta a b →
  existsb (fun f => existsb (expr_mentions META) (f_args f)) fs = false →
  apply_filters fs v a = apply_filters fs v b.
Proof.
  intros H. revert v. induction fs as [|f fs IH]; intros v Hfs; [reflexivity|].
  simpl in *. apply orb_false_iff in Hfs as [Hf Hfs].
  assert (E : map (λ x, evalToken x a) (f_args f)
              = map (λ x, evalToken x b) (f_args f)).
  { apply map_ext_in. intros x Hx. apply evalToken_with_meta; auto.
    destruct (expr_mentions META x) eqn:Ex; [|reflexivity].
    rewrite <- Hf. symmetry. apply existsb_exists. eauto. }
  rewrite E. destruct (f_handler f v _); simpl; auto.
Qed.

Lemma Value_with_meta (a b : State) (v : Value) :
  with_meta a b → value_mentions META v = false →
  apply_filters (filters v) (evalToken (initial v) a) a
  = apply_filters (filters v) (evalToken (initial v) b) b.
Proof.
  intros H Hv. unfold value_mentions in Hv.
  apply orb_false_iff in Hv as [H1 H2].
  rewrite (evalToken_with_meta a b _ H H1).
  apply apply_filters_with_meta; auto.
Qed.

Lemma bottom_set_with_meta (k : string) (v : value) (a b : State) :
  with_meta a b → k ≠ META →
  ∃ a' b', bottom_set k v a = (a', Ok tt) ∧ bottom_set k v b = (b', Ok tt)
           ∧ with_meta a' b'.
Proof.
  intros (H1 & H2 & H3 & H4 & H5) Hk. unfold bottom_set.
  destruct (scopes b) as [|s0 r] eqn:Eb; [contradiction|].
  apply Forall_cons in H3 as [Hs0 Hr].
  assert (Hs0' : <[k := v]> s0 !! META = None)
    by (rewrite lookup_insert_ne; auto).
  destruct H5 as [(Ea & La & Lb)|(Ea & La & Lb)]; rewrite Ea; simpl;
    eexists; eexists; (split; [reflexivity|]); (split; [reflexivity|]);
    unfold with_meta; simpl; rewrite ?Eb; repeat split; auto.
Qed.

Lemma get_or_create_meta_fresh (st : State) :
  truthy (ctx_get st META) = false →
  get_or_create_meta st
  = (set_scopes (scopes st ++ [{[ META := VMeta (RLocal (length (local st))) ]}])%list
       (set_local (local st ++ [new_meta])%list st),
     Ok (VMeta (RLocal (length (local st))))).
Proof.
  intros H. unfold get_or_create_meta. unfold META in *. rewrite H. reflexivity.
Qed.

Lemma ctx_get_meta_scope_on_top (st : State) (sc : list (gmap string value)) :
  scopes st = (sc ++ [meta_scope])%list → ctx_get st META = VMeta (RLocal 0).
Proof.
  intros E. unfold ctx_get, findScope. rewrite E, rev_app_distr. simpl.
  unfold has_key at 1, meta_scope. rewrite lookup_singleton_eq.
  rewrite bool_decide_eq_true_2 by eauto.
  rewrite lookup_singleton_eq. reflexivity.
Qed.

Lemma ctx_get_meta_unbound (st : State) :
  environments st !! META = None →
  Forall (λ s : gmap string value, s !! META = None) (scopes st) →
  ctx_get st META = VUndef.
Proof.
  intros Henv Hsc. unfold ctx_get, findScope.
  rewrite (find_has_key_None META (rev (scopes st)) (Forall_rev_list _ _ Hsc)).
  unfold has_key. rewrite Henv.
  rewrite bool_decide_eq_false_2 by (intros [? ?]; discriminate).
  rewrite lookup_empty. reflexivity.
Qed.

(** The directive's two steps, in both renders. *)
Lemma record_with_meta (f : PromptEngMeta → PromptEngMeta) (a b : State) :
  with_meta a b →
  ∃ a1 a2 b2,
    get_or_create_meta a = (a1, Ok (VMeta (RLocal 0)))
    ∧ get_or_create_meta b = (b, Ok (VMeta (RLocal 0)))
    ∧ update_meta (RLocal 0) f a1 = (a2, Ok tt)
    ∧ update_meta (RLocal 0) f b = (b2, Ok tt)
    ∧ with_meta a2 b2.
Proof.
  intros H. pose proof (with_meta_bound a b H) as Hb.
  destruct H as (H1 & H2 & H3 & H4 & H5).
  destruct (update_meta_own f b) as (m & rest & Hlo & Hub); [apply Hb|].
  destruct H5 as [(Ea & La & Lb)|(Ea & La & Lb)].
  - assert (Hget : ctx_get a META = VUndef).
    { apply ctx_get_meta_unbound; [exact H1|]. rewrite Ea. exact H3. }
    eexists. eexists. eexists.
    split; [rewrite get_or_create_meta_fresh by (rewrite Hget; reflexivity);
            rewrite La; reflexivity|].
    split; [apply get_or_create_meta_bound, Hb|].
    split; [reflexivity|]. split; [exact Hub|].
    unfold with_meta. simpl. rewrite Ea. repeat split; auto.
    right. rewrite Lb in Hlo. injection Hlo as <- <-.
    repeat split; simpl; auto.
  - assert (Hget : ctx_get a META = VMeta (RLocal 0))
      by (eapply ctx_get_meta_scope_on_top; eauto).
    destruct (update_meta_own f a) as (m' & rest' & Hlo' & Hua);
      [rewrite La; exact Lb|].
    eexists. eexists. eexists.
    split; [rewrite get_or_create_meta_truthy by (rewrite Hget; reflexivity);
            rewrite Hget; reflexivity|].
    split; [apply get_or_create_meta_bound, Hb|].
    split; [exact Hua|]. split; [exact Hub|].
    unfold with_meta. simpl. repeat split; auto.
    right. rewrite La, Hlo in Hlo'. injection Hlo' as <- <-.
    repeat split; simpl; auto. lia.
Qed.

Lemma quiet_node (tpl : Template) :
  (negb (is_section tpl) && negb (binds META tpl) && negb (reads META tpl))%bool = true →
  is_section tpl = false ∧ negb (binds META tpl) = true ∧ reads META tpl = false.
Proof.
  intros H. apply andb_true_iff in H as [H H3]. apply andb_true_iff in H as [H1 H2].
  repeat split; auto; apply negb_true_iff; auto.
Qed.

Lemma counter_with_meta (x : string) (va : value) (a b a' b' : State) :
  with_meta a b → x ≠ META →
  scopes a' = scopes a → local a' = local a →
  scopes b' = scopes b → local b' = local b →
  environments a' = <[x := va]> (environments a) →
  environments b' = <[x := va]> (environments b) →
  with_meta a' b'.
Proof.
  intros (H1 & H2 & H3 & H4 & H5) Hx Sa La Sb Lb Ea Eb. unfold with_meta.
  rewrite Sa, La, Sb, Lb, Ea, Eb. repeat split; auto.
  - rewrite lookup_insert_ne; auto.
  - rewrite H2. apply insert_insert_ne. auto.
Qed.

Lemma local_update_meta (r : ref) (f : PromptEngMeta → PromptEngMeta) (st : State) :
  length (local (update_meta r f st).1) = length (local st).
Proof.
  unfold update_meta. destruct r as [i|l]; [|reflexivity].
  destruct (local st !! i); simpl; [apply length_insert|reflexivity].
Qed.

Lemma local_get_or_create_meta (st : State) :
  (length (local st) ≤ length (local (get_or_create_meta st).1))%nat.
Proof.
  unfold get_or_create_meta. destruct (truthy _); simpl; [lia|].
  rewrite length_app. simpl. lia.
Qed.

Lemma local_grows_steps (b : list Template) :
  Forall (λ tpl, ∀ e st,
            (length (local st) ≤ length (local (renderTemplate tpl e st).1))%nat) b →
  ∀ e st, (length (local st) ≤ length (local (renderTemplates b e st).1))%nat.
Proof.
  apply (renderTemplates_steps
           (λ a c, (length (local a) ≤ length (local c))%nat)); intros; lia.
Qed.

Lemma local_counter_ready (x : string) (st : State) :
  local (counter_ready x st) = local st.
Proof. unfold counter_ready. now destruct (is_number _). Qed.

(** The records allocated by the call are never dropped. *)
Lemma local_grows (tpl : Template) :
  ∀ e st, (length (local st) ≤ length (local (renderTemplate tpl e st).1))%nat.
Proof.
  induction tpl as [s|v|k v|x b IH|x|x|v|v|p n b IH] using Template_nested_ind;
    intros e st.
  - rewrite render_HTML. simpl. lia.
  - rewrite render_Output. simpl. lia.
  - rewrite render_Assign, catching_state. unfold bottom_set.
    destruct (apply_filters _ _ _); simpl; try lia.
    destruct (scopes st); simpl; lia.
  - rewrite render_Capture.
    pose proof (local_grows_steps b IH {| kind := SimpleEmitter; buffer := "" |} st)
      as Hb. revert Hb.
    destruct (renderTemplates b _ st) as [st' [e'| |]]; simpl; auto.
    unfold bottom_set. destruct (scopes st'); simpl; auto.
  - rewrite render_Increment. cbn [fst].
    destruct (default VUndef _); simpl; rewrite ?local_counter_ready; lia.
  - rewrite render_Decrement. simpl. rewrite local_counter_ready. lia.
  - rewrite render_Upper. simpl. lia.
  - rewrite render_MustIncludeEach, catching_state.
    destruct (apply_filters _ _ _); simpl; try lia.
    destruct (read_words a) as [ws| |]; simpl; try lia.
    pose proof (local_get_or_create_meta st) as Hc. revert Hc.
    destruct (get_or_create_meta st) as [st1 [m| |]]; simpl; auto.
    intros Hc. unfold meta_constraints_push.
    destruct m as [| | | | | |fs|r]; simpl; auto.
    + destruct (assoc "constraints" fs) as [[]|]; simpl; auto.
    + pose proof (local_update_meta r
                    (push_constraint {| c_type := "must_include_each";
                                        words := ws |}) st1) as Hu.
      revert Hu. destruct (update_meta r _ st1) as [st2 [| |]]; simpl; lia.
  - rewrite render_Section, catching_state.
    pose proof (local_get_or_create_meta st) as Hc. revert Hc.
    destruct (get_or_create_meta st) as [st1 [m| |]]; simpl; auto.
    intros Hc.
    pose proof (local_grows_steps b IH {| kind := CaptureEmitter; buffer := "" |} st1)
      as Hb. revert Hb.
    destruct (renderTemplates b _ st1) as [st2 [e'| |]]; simpl; try lia.
    intros Hb. unfold meta_sections_set.
    destruct m as [| | | | | |fs|r]; simpl; try lia.
    + destruct (assoc "sections" fs) as [[]|]; simpl; lia.
    + pose proof (local_update_meta r (set_section (section_name n) (buffer e')) st2)
        as Hu.
      revert Hu. destruct (update_meta r _ st2) as [st3 [| |]]; simpl; lia.
Qed.

Lemma create_with_meta (a b : State) :
  with_meta a b →
  ∃ a1, get_or_create_meta a = (a1, Ok (VMeta (RLocal 0)))
        ∧ get_or_create_meta b = (b, Ok (VMeta (RLocal 0)))
        ∧ with_meta a1 b
        ∧ (0 < length (local a1))%nat.
Proof.
  intros H. pose proof (with_meta_bound a b H) as Hb.
  destruct H as (H1 & H2 & H3 & H4 & H5).
  destruct H5 as [(Ea & La & Lb)|(Ea & La & Lb)].
  - assert (Hget : ctx_get a META = VUndef).
    { apply ctx_get_meta_unbound; [exact H1|]. rewrite Ea. exact H3. }
    eexists.
    split; [rewrite get_or_create_meta_fresh by (rewrite Hget; reflexivity);
            rewrite La; reflexivity|].
    split; [apply get_or_create_meta_bound, Hb|].
    split; [|simpl; lia].
    unfold with_meta. simpl. rewrite Ea. repeat split; auto.
    right. rewrite Lb. repeat split; simpl; auto.
  - assert (Hget : ctx_get a META = VMeta (RLocal 0))
      by (eapply ctx_get_meta_scope_on_top; eauto).
    exists a.
    split; [rewrite get_or_create_meta_truthy by (rewrite Hget; reflexivity);
            rewrite Hget; reflexivity|].
    split; [apply get_or_create_meta_bound, Hb|].
    split; [|rewrite La; exact Lb].
    unfold with_meta. repeat split; auto.
Qed.

Lemma update_with_meta (f : PromptEngMeta → PromptEngMeta) (a b : State) :
  with_meta a b → (0 < length (local a))%nat →
  ∃ a2 b2, update_meta (RLocal 0) f a = (a2, Ok tt)
           ∧ update_meta (RLocal 0) f b = (b2, Ok tt)
           ∧ with_meta a2 b2.
Proof.
  intros H La0. pose proof (with_meta_bound a b H) as Hb.
  destruct H as (H1 & H2 & H3 & H4 & H5).
  destruct H5 as [(Ea & La & Lb)|(Ea & La & Lb)];
    [rewrite La in La0; simpl in La0; lia|].
  destruct (update_meta_own f b) as (m & rest & Hlo & Hub); [apply Hb|].
  destruct (update_meta_own f a) as (m' & rest' & Hlo' & Hua); [exact La0|].
  eexists. eexists. split; [exact Hua|]. split; [exact Hub|].
  unfold with_meta. simpl. repeat split; auto.
  right. rewrite La, Hlo in Hlo'. injection Hlo' as <- <-.
  repeat split; simpl; auto. lia.
Qed.

Lemma calm_node (tpl : Template) :
  (negb (binds META tpl) && negb (reads META tpl))%bool = true →
  negb (binds META tpl) = true ∧ reads META tpl = false.
Proof.
  intros H. apply andb_true_iff in H as [H1 H2].
  split; [exact H1|now apply negb_true_iff].
Qed.

(** Two runs that do the same inside [catching] do the same. *)
Lemma catching_simulates {A : Type} (S : State → State → Prop) (p : Position)
    (F G : M A) (a b : State) :
  (F a).2 = (G b).2 ∧ S (F a).1 (G b).1 →
  (catching p F a).2 = (catching p G b).2
  ∧ S (catching p F a).1 (catching p G b).1.
Proof.
  intros [H1 H2]. rewrite !catching_state, !catching_result, H1. auto.
Qed.

Lemma counter_ready_with_meta (x : string) (a b : State) :
  with_meta a b → x ≠ META →
  with_meta (counter_ready x a) (counter_ready x b)
  ∧ environments (counter_ready x b) !! x = environments (counter_ready x a) !! x.
Proof.
  intros H Hx.
  assert (Ex : environments b !! x = environments a !! x).
  { destruct H as (_ & -> & _). apply lookup_insert_ne. auto. }
  unfold counter_ready. rewrite Ex.
  destruct (is_number (environments a !! x)); [auto|].
  split.
  - eapply (counter_with_meta x (VNum 0) a b); eauto; reflexivity.
  - simpl. now rewrite !lookup_insert_eq.
Qed.

(** A template that does not mention the metadata name does the same
    in both renders, sections included. *)
Lemma calm_simulates (tpl : Template) :
  calm tpl = true → simulates with_meta (renderTemplate tpl).
Proof.
  unfold calm.
  induction tpl as [s|v|k v|x b IH|x|x|v|v|p n b IH] using Template_nested_ind;
    intros Hq e a0 b0 H; apply all_nodes_block in Hq as [Hp Hb];
    apply calm_node in Hp as (Hbind & Hread);
    pose proof (binds_ne _ "" Hbind) as Hne; simpl in Hne, Hread.
  - rewrite !render_HTML. simpl. auto.
  - rewrite !render_Output. rewrite (Value_with_meta a0 b0 v H Hread). simpl. auto.
  - rewrite !render_Assign. apply catching_simulates. cbv beta.
    rewrite (Value_with_meta a0 b0 v H Hread).
    destruct (apply_filters _ _ _) as [val| |]; simpl; auto.
    destruct (bottom_set_with_meta k val a0 b0 H Hne) as (a1 & b1 & -> & -> & H1).
    simpl. auto.
  - rewrite !render_Capture.
    sim_step (renderTemplates_simulates with_meta b (Forall_mp _ _ _ IH Hb)
                {| kind := SimpleEmitter; buffer := "" |} a0 b0 H) as a1 b1 e1 H1.
    destruct (bottom_set_with_meta x (VStr (buffer e1)) a1 b1 H1 Hne)
      as (a2 & b2 & -> & -> & H2).
    simpl. auto.
  - rewrite !render_Increment. cbv zeta.
    destruct (counter_ready_with_meta x a0 b0 H Hne) as [H1 Ex].
    rewrite Ex. cbn [fst snd]. split; [reflexivity|].
    destruct (default VUndef _); auto.
    eapply (counter_with_meta x _ _ _); eauto; reflexivity.
  - rewrite !render_Decrement. cbv zeta.
    destruct (counter_ready_with_meta x a0 b0 H Hne) as [H1 Ex].
    rewrite Ex. cbn [fst snd]. split; [reflexivity|].
    eapply (counter_with_meta x _ _ _); eauto; reflexivity.
  - rewrite !render_Upper. rewrite (Value_with_meta a0 b0 v H Hread). simpl. auto.
  - rewrite !render_MustIncludeEach. apply catching_simulates. cbv beta.
    rewrite (Value_with_meta a0 b0 v H Hread).
    destruct (apply_filters _ _ _) as [raw| |]; simpl; auto.
    destruct (read_words raw) as [ws| |]; simpl; auto.
    destruct (record_with_meta
                (push_constraint {| c_type := "must_include_each";
                                    words := ws |}) a0 b0 H)
      as (a1 & a2 & b2 & -> & -> & Ha & Hb' & H2).
    unfold meta_constraints_push. rewrite Ha, Hb'. simpl. auto.
  - rewrite !render_Section. apply catching_simulates. cbv beta.
    destruct (create_with_meta a0 b0 H) as (a1 & -> & -> & H1 & L1).
    pose proof (local_grows_steps b
                  (proj2 (List.Forall_forall _ b) (λ t _, local_grows t))
                  {| kind := CaptureEmitter; buffer := "" |} a1) as Lg.
    destruct (renderTemplates_simulates with_meta b (Forall_mp _ _ _ IH Hb)
                {| kind := CaptureEmitter; buffer := "" |} a1 b0 H1) as [Ho Hs].
    revert Lg Ho Hs.
    destruct (renderTemplates b _ a1) as [a2 [ea| |]];
      destruct (renderTemplates b _ b0) as [b2 [eb| |]];
      cbn [fst snd]; intros Lg Ho Hs; try discriminate; try (injection Ho as ->);
      try (split; [reflexivity|exact Hs]).
    destruct (update_with_meta (set_section (section_name n) (buffer eb)) a2 b2 Hs)
      as (a3 & b3 & Ha & Hb' & H3); [lia|].
    unfold meta_sections_set. rewrite Ha, Hb'. simpl. auto.
Qed.

(** ** Templates without sections *)

Lemma no_sections_yet_push (c : Constraint) (m : value) (st : State) :
  no_sections_yet st → no_sections_yet (meta_constraints_push m c st).1.
Proof.
  intros H. unfold meta_constraints_push. destruct m; simpl; auto.
  - destruct (assoc "constraints" fields) as [[]|]; simpl; auto.
  - destruct r as [i|l]; simpl; auto.
    destruct (local st !! i) as [m|] eqn:E; simpl; auto.
    unfold no_sections_yet in *. simpl.
    apply Forall_insert; auto.
    rewrite Forall_forall in H. simpl. apply H.
    apply list_elem_of_lookup. eauto.
Qed.

Lemma no_sections_yet_create (st : State) :
  no_sections_yet st → no_sections_yet (get_or_create_meta st).1.
Proof.
  intros H. unfold get_or_create_meta. destruct (truthy _); simpl; auto.
  unfold no_sections_yet in *. simpl. apply Forall_app. split; auto.
Qed.

Lemma no_sections_yet_bottom_set (k : string) (v : value) (st : State) :
  no_sections_yet st → no_sections_yet (bottom_set k v st).1.
Proof. unfold bottom_set. destruct (scopes st); auto. Qed.

Lemma no_sections_yet_counter_ready (x : string) (st : State) :
  no_sections_yet st → no_sections_yet (counter_ready x st).
Proof. unfold counter_ready. now destruct (is_number _). Qed.

(** Without a [section], no record gets a section. *)
Lemma no_section_keeps (tpl : Template) :
  no_section tpl = true →
  ∀ e st, no_sections_yet st → no_sections_yet (renderTemplate tpl e st).1.
Proof.
  unfold no_section.
  induction tpl as [s|v|k v|x b IH|x|x|v|v|p n b IH] using Template_nested_ind;
    intros Hns e st Hst; apply all_nodes_block in Hns as [Hp Hb];
    try discriminate.
  - now rewrite render_HTML.
  - now rewrite render_Output.
  - rewrite render_Assign, catching_state.
    destruct (apply_filters _ _ _); auto.
    pose proof (no_sections_yet_bottom_set k a st Hst) as H.
    destruct (bottom_set k a st) as [st' [[]| |]]; exact H.
  - rewrite render_Capture.
    assert (Hbody : ∀ e st, no_sections_yet st →
                            no_sections_yet (renderTemplates b e st).1).
    { apply (renderTemplates_steps (λ a c, no_sections_yet a → no_sections_yet c));
        [auto|auto|]. exact (Forall_mp _ _ _ IH Hb). }
    specialize (Hbody {| kind := SimpleEmitter; buffer := "" |} st Hst).
    destruct (renderTemplates b _ st) as [st' [e'| |]]; simpl in *; auto.
    pose proof (no_sections_yet_bottom_set x (VStr (buffer e')) st' Hbody) as H.
    destruct (bottom_set x _ st') as [st'' [[]| |]]; exact H.
  - rewrite render_Increment. cbn [fst].
    pose proof (no_sections_yet_counter_ready x st Hst) as H.
    now destruct (default VUndef _).
  - rewrite render_Decrement. cbn [fst].
    exact (no_sections_yet_counter_ready x st Hst).
  - now rewrite render_Upper.
  - rewrite render_MustIncludeEach, catching_state.
    destruct (apply_filters _ _ _); auto.
    destruct (read_words a) as [ws| |]; auto.
    pose proof (no_sections_yet_create st Hst) as H1.
    destruct (get_or_create_meta st) as [st1 [m| |]]; simpl in *; auto.
    pose proof (no_sections_yet_push
                  {| c_type := "must_include_each"; words := ws |}
                  m st1 H1) as H2.
    destruct (meta_constraints_push m _ st1) as [st2 [[]| |]]; exact H2.
Qed.

Lemma quiet_calm (tpl : Template) : quiet tpl = true → calm tpl = true.
Proof.
  unfold quiet, calm.
  induction tpl as [s|v|k v|x b IH|x|x|v|v|p n b IH] using Template_nested_ind;
    intros H; apply all_nodes_block in H as [Hp Hb];
    apply quiet_node in Hp as (_ & Hbind & Hread); simpl in *;
    rewrite ?Hbind, ?Hread; try reflexivity.
  - apply forallb_forall. intros t Ht.
    rewrite Forall_forall in IH, Hb.
    apply list_elem_of_In in Ht. auto.
  - apply forallb_forall. intros t Ht.
    rewrite Forall_forall in IH, Hb.
    apply list_elem_of_In in Ht. auto.
Qed.

(** [render] beside [renderWithMeta] on templates that do not mention
    the metadata name. *)
Lemma calm_same_text (liquid : Liquid) (toks : list TopLevelToken)
    (vars : gmap string value) (heap : gmap nat PromptEngMeta) :
  vars !! META = None →
  (∀ tpls, parse liquid toks = Ok tpls → forallb calm tpls = true) →
  result (render liquid toks vars heap)
  = (do r <- result (renderWithMeta liquid toks vars heap); Ok (text r)).
Proof.
  intros Hvars Hq. unfold render, renderWithMeta, parseAndRender.
  destruct (parse liquid toks) as [tpls| |]; try reflexivity.
  assert (H0 : with_meta (new_Context vars [] heap)
                 (new_Context (<["__promptengMeta" := VMeta (RLocal 0)]> vars)
                    [new_meta] heap)).
  { unfold with_meta. simpl. repeat split; auto. }
  destruct (renderTemplates_simulates with_meta tpls) with
    (e := {| kind := SimpleEmitter; buffer := "" |})
    (a := new_Context vars [] heap)
    (b := new_Context (<["__promptengMeta" := VMeta (RLocal 0)]> vars)
            [new_meta] heap) as [Ho Hs]; [|exact H0|].
  { apply Forall_forall. intros t Ht. apply calm_simulates.
    specialize (Hq tpls eq_refl). rewrite forallb_forall in Hq.
    apply Hq, list_elem_of_In, Ht. }
  destruct (renderTemplates tpls _ (new_Context vars [] heap)) as [sa [ea| |]];
    destruct (renderTemplates tpls _ (new_Context _ [new_meta] heap))
      as [sb [eb| |]];
    simpl in *; try discriminate; try (injection Ho as ->); try reflexivity.
  destruct (with_meta_bound sa sb Hs) as (_ & _ & _ & Hlen).
  destruct (local sb) as [|m rest]; [simpl in Hlen; lia|]. reflexivity.
Qed.

(** C8. For a template of the embedded fragment (literal text, outputs,
    and the tags [assign], [capture], [increment], [decrement],
    [upper] and [must_include_each]; the other tags of LiquidJS, [if]
    and [for] among them, are outside it) without [section]: the
    sections map that [renderWithMeta] returns is empty; and when,
    moreover, the template neither reads nor binds the metadata name
    and the caller's variables have no such key, [render] returns the
    very text that [renderWithMeta] returns, and throws the error that
    it throws. *)
Theorem no_section_same_text (liquid : Liquid) (toks : list TopLevelToken)
    (vars : gmap string value) (heap : gmap nat PromptEngMeta) :
  ((∀ tpls, parse liquid toks = Ok tpls → forallb no_section tpls = true) →
   ∀ r, result (renderWithMeta liquid toks vars heap) = Ok r →
        sections (meta r) = ∅)
  ∧ (vars !! META = None →
     (∀ tpls, parse liquid toks = Ok tpls → forallb quiet tpls = true) →
     result (render liquid toks vars heap)
     = (do r <- result (renderWithMeta liquid toks vars heap); Ok (text r))).
Proof.
  split.
  - intros Hns r. unfold renderWithMeta, parseAndRender.
    destruct (parse liquid toks) as [tpls| |]; try discriminate.
    assert (H : no_sections_yet
                  (renderTemplates tpls {| kind := SimpleEmitter; buffer := "" |}
                     (new_Context (<["__promptengMeta" := VMeta (RLocal 0)]> vars)
                        [new_meta] heap)).1).
    { apply (renderTemplates_steps (λ a c, no_sections_yet a → no_sections_yet c));
        [auto|auto| |].
      - apply Forall_forall. intros t Ht e st. apply no_section_keeps.
        specialize (Hns tpls eq_refl). rewrite forallb_forall in Hns.
        apply Hns, list_elem_of_In, Ht.
      - repeat constructor. }
    destruct (renderTemplates tpls _ _) as [st [e| |]]; simpl in *;
      try discriminate.
    destruct (local st !! 0%nat) as [m|] eqn:E; [|discriminate].
    intros [= <-]. simpl.
    unfold no_sections_yet in H. rewrite Forall_forall in H.
    apply H. apply list_elem_of_lookup. eauto.
  - intros Hvars Hq. apply calm_same_text; [exact Hvars|].
    intros tpls E. specialize (Hq tpls E).
    apply forallb_forall. intros t Ht.
    rewrite forallb_forall in Hq. apply quiet_calm, Hq, Ht.
Qed.

Lemma no_section_same_text_witness :
  (∅ : gmap string value) !! META = None
  ∧ (∀ tpls, parse TemplateParser words_template = Ok tpls →
             forallb quiet tpls = true)
  ∧ result (render TemplateParser words_template ∅ ∅)
    = (do r <- result (renderWithMeta TemplateParser words_template ∅ ∅);
       Ok (text r)).
Proof.
  assert (H : ∀ tpls, parse TemplateParser words_template = Ok tpls →
                      forallb quiet tpls = true).
  { intros tpls E. vm_compute in E. injection E as <-. reflexivity. }
  split; [reflexivity|]. split; [exact H|].
  exact (proj2 (no_section_same_text TemplateParser words_template ∅ ∅)
           eq_refl H).
Defined.

(** The template [{{ __promptengMeta }}] has no section; [render]
    returns the empty text and [renderWithMeta] the text
    [[object Object]]. *)
Lemma reading_meta_differs :
  result (render TemplateParser [OutputToken (bare (Var "__promptengMeta"))] ∅ ∅)
    = Ok ""
  ∧ (do r <- result (renderWithMeta TemplateParser
                       [OutputToken (bare (Var "__promptengMeta"))] ∅ ∅);
     Ok (text r)) = Ok "[object Object]".
Proof. vm_compute. auto. Qed.

(** ** Templates made of sections and literal text *)

(** A section block writes nothing into the emitter of its
    surroundings. *)
Lemma section_emits_nothing (p : Position) (n : string) (b : list Template)
    (e e' : Emitter) (st st' : State) :
  renderTemplate (SectionTag p n b) e st = (st', Ok e') → e' = e.
Proof.
  rewrite render_Section. unfold catching.
  destruct (get_or_create_meta st) as [st1 [m| |]]; try discriminate.
  destruct (renderTemplates b _ st1) as [st2 [ec| |]]; try discriminate.
  destruct (meta_sections_set m _ _ st2) as [st3 [[]| |]]; try discriminate.
  now intros [= _ <-].
Qed.

Lemma literal_text_run (tpls : list Template) :
  forallb section_or_text tpls = true →
  ∀ e st st' e', renderTemplates tpls e st = (st', Ok e') →
    e' = {| kind := kind e; buffer := buffer e ++ literal_text tpls |}.
Proof.
  induction tpls as [|tpl rest IH]; intros Hshape e st st' e' H.
  - rewrite renderTemplates_nil in H. injection H as _ <-.
    simpl. rewrite append_nil_r. now destruct e.
  - simpl in Hshape. apply andb_true_iff in Hshape as [Ht Hr].
    rewrite renderTemplates_cons in H.
    destruct tpl as [s| | | | | | | |p n body]; try discriminate.
    + rewrite render_HTML in H. apply (IH Hr) in H. rewrite H. simpl.
      now rewrite append_assoc.
    + destruct (renderTemplate (SectionTag p n body) e st) as [st1 [e1| |]] eqn:E;
        try discriminate.
      apply section_emits_nothing in E. subst e1.
      exact (IH Hr _ _ _ _ H).
Qed.












(** ** The cases of [parser.test.ts] *)

Example test_filters_join_upper :
  result (render TemplateParser
            [HTMLToken "Names: ";
             OutputToken {| vt_initial := Var "names";
                            vt_filters :=
                              [{| ft_name := "join"; ft_args := [LitStr "; "] |};
                               {| ft_name := "upper"; ft_args := [] |}];
                            vt_pos := {| pos_line := 1; pos_col := 8 |} |}]
            {[ "names" := VArr [VStr "alice"; VStr "bob"] ]} ∅)
  = Ok "Names: ALICE; BOB".
Proof. reflexivity. Qed.

Example test_custom_tag_upper :
  result (render TemplateParser [tag "upper" "name" "name" (bare (Var "name"))]
            {[ "name" := VStr "MiXeD" ]} ∅)
  = Ok "MIXED".
Proof. reflexivity. Qed.

Example test_section_capture :
  result (renderWithMeta TemplateParser
            [tag "section" "prompt" "prompt" (bare (Var "prompt"));
             HTMLToken "Hello "; OutputToken (bare (Var "name"));
             tag "endsection" "" "" (bare Absent);
             HTMLToken (String (ascii_of_nat 10) "Body")]
            {[ "name" := VStr "Ada" ]} ∅)
  = Ok {| text := String (ascii_of_nat 10) "Body";
          meta := {| constraints := [];
                     sections := {[ "prompt" := "Hello Ada" ]} |} |}.
Proof. vm_compute. reflexivity. Qed.

Example test_must_include_each :
  result (renderWithMeta TemplateParser
            [tag "must_include_each" "words" "words" (bare (Var "words"))]
            {[ "words" := VArr [VStr "red"; VStr "green"] ]} ∅)
  = Ok {| text := "IMPORTANT: You MUST use EACH of these words at least once: red, green.";
          meta := {| constraints :=
                       [{| c_type := "must_include_each";
                           words := ["red"; "green"] |}];
                     sections := ∅ |} |}.
Proof. vm_compute. reflexivity. Qed.

Example test_default_filter :
  result (render TemplateParser
            [HTMLToken "Hi "; OutputToken (piped (Var "who") "default" [LitStr "world"])]
            ∅ ∅)
  = Ok "Hi world".
Proof. reflexivity. Qed.

(** * Further properties *)

(** ** Section names *)

Lemma endsWith_snoc (c : ascii) (s : string) :
  endsWith c (s ++ String c "") = true.
Proof.
  induction s as [|a r IH]; simpl.
  - apply Ascii.eqb_refl.
  - destruct (r ++ String c "") eqn:E; [destruct r; discriminate|exact IH].
Qed.

Lemma dropLast_snoc (c : ascii) (s : string) :
  dropLast (s ++ String c "") = s.
Proof.
  induction s as [|a r IH]; simpl; [reflexivity|].
  destruct (r ++ String c "") eqn:E; [destruct r; discriminate|].
  now rewrite IH.
Qed.

Lemma section_name_quoted (s : string) : section_name (quoted s) = s.
Proof.
  unfold section_name, quoted.
  change (String dquote (s ++ String dquote ""))
    with (String dquote s ++ String dquote "").
  rewrite endsWith_snoc. simpl. apply dropLast_snoc.
Qed.

Lemma section_name_squoted (s : string) : section_name (squoted s) = s.
Proof.
  unfold section_name, squoted.
  change (String squote (s ++ String squote ""))
    with (String squote s ++ String squote "").
  rewrite endsWith_snoc. simpl. apply dropLast_snoc.
Qed.

(** X1. A section name between double quotes or between single quotes is
    recorded without the quotes, whatever stands between them; a name
    that does not begin with a quote character is recorded as it is
    written.  So a section renders the same whether its name is bare,
    between double quotes or between single quotes. *)
Theorem section_name_spellings (p : Position) (s : string) (b : list Template)
    (e : Emitter) (st : State) :
  section_name (quoted s) = s
  ∧ section_name (squoted s) = s
  ∧ (startsWith dquote s = false →
     startsWith squote s = false →
     section_name s = s
     ∧ renderTemplate (SectionTag p (quoted s) b) e st
       = renderTemplate (SectionTag p s b) e st
     ∧ renderTemplate (SectionTag p (squoted s) b) e st
       = renderTemplate (SectionTag p s b) e st).
Proof.
  split; [apply section_name_quoted|]. split; [apply section_name_squoted|].
  intros Hd Hs.
  assert (Hn : section_name s = s).
  { unfold section_name. now rewrite Hd, Hs. }
  split; [exact Hn|].
  rewrite !render_Section.
  rewrite section_name_quoted, section_name_squoted, Hn. split; reflexivity.
Qed.

Lemma section_name_spellings_witness :
  startsWith dquote "prompt" = false
  ∧ startsWith squote "prompt" = false
  ∧ section_name (quoted "prompt") = "prompt"
  ∧ renderTemplate (SectionTag pos_1_1 (quoted "prompt") [HTML "Hi"])
      empty_emitter example_state
    = renderTemplate (SectionTag pos_1_1 "prompt" [HTML "Hi"])
        empty_emitter example_state.
Proof.
  split; [reflexivity|]. split; [reflexivity|].
  destruct (section_name_spellings pos_1_1 "prompt" [HTML "Hi"] empty_emitter
              example_state)
    as (H1 & _ & H3).
  split; [exact H1|]. exact (proj1 (proj2 (H3 eq_refl eq_refl))).
Defined.

(** ** The words of [must_include_each] *)

Lemma trimEnd_idem (s : string) : trimEnd (trimEnd s) = trimEnd s.
Proof.
  induction s as [|c r IH]; simpl; [reflexivity|].
  destruct (trimEnd r) as [|d r'] eqn:E.
  - destruct (is_ws c) eqn:W; simpl; [reflexivity|now rewrite W].
  - simpl. simpl in IH. now rewrite IH.
Qed.

Lemma trimStart_fixed (s : string) :
  match s with String c _ => is_ws c = false | EmptyString => True end →
  trimStart s = s.
Proof. destruct s as [|c r]; simpl; [reflexivity|]. now intros ->. Qed.

Lemma trimStart_head (s : string) :
  match trimStart s with String c _ => is_ws c = false | EmptyString => True end.
Proof.
  induction s as [|c r IH]; simpl; [exact I|].
  destruct (is_ws c) eqn:W; [exact IH|exact W].
Qed.

Lemma trimEnd_head (s : string) :
  match s with String c _ => is_ws c = false | EmptyString => True end →
  match trimEnd s with String c _ => is_ws c = false | EmptyString => True end.
Proof.
  destruct s as [|c r]; simpl; [auto|].
  intros W. destruct (trimEnd r); [rewrite W|]; exact W.
Qed.

Lemma trim_idem (s : string) : trim (trim s) = trim s.
Proof.
  unfold trim.
  rewrite (trimStart_fixed (trimEnd (trimStart s))).
  - apply trimEnd_idem.
  - apply trimEnd_head, trimStart_head.
Qed.

Lemma has_char_trimStart (c : ascii) (s : string) :
  has_char c s = false → has_char c (trimStart s) = false.
Proof.
  induction s as [|a r IH]; simpl; [auto|].
  intros H. apply orb_false_iff in H as [Ha Hr].
  destruct (is_ws a); [auto|]. simpl. now rewrite Ha, Hr.
Qed.

Lemma has_char_trimEnd (c : ascii) (s : string) :
  has_char c s = false → has_char c (trimEnd s) = false.
Proof.
  induction s as [|a r IH]; simpl; [auto|].
  intros H. apply orb_false_iff in H as [Ha Hr].
  specialize (IH Hr).
  destruct (trimEnd r) as [|d r'].
  - destruct (is_ws a); simpl; [reflexivity|now rewrite Ha].
  - simpl. simpl in IH. now rewrite Ha, IH.
Qed.

Lemma split_no_sep (c : ascii) (s : string) :
  Forall (λ w, has_char c w = false) (split c s).
Proof.
  induction s as [|a r IH]; simpl.
  - constructor; [reflexivity|constructor].
  - destruct (Ascii.eqb a c) eqn:E.
    + constructor; [reflexivity|exact IH].
    + destruct (split c r) as [|w ws]; inversion IH; subst;
        constructor; simpl; rewrite ?E; auto.
Qed.

(** X2. When [must_include_each] is given a string, every word it
    records is non-empty, has no blank at either end (trimming it again
    changes nothing) and contains no comma. *)
Theorem words_of_string_are_clean (s w : string) :
  In w (words_of (VStr s)) →
  w ≠ "" ∧ trim w = w ∧ has_char comma w = false.
Proof.
  unfold words_of. intros H.
  apply filter_In in H as [H Hne].
  apply in_map_iff in H as (p & <- & Hp).
  split; [|split].
  - unfold nonempty in Hne. intros E. rewrite E in Hne. discriminate.
  - apply trim_idem.
  - unfold trim. apply has_char_trimEnd, has_char_trimStart.
    pose proof (split_no_sep comma s) as F.
    exact (proj1 (List.Forall_forall _ _) F p Hp).
Qed.

Lemma words_of_string_are_clean_witness :
  In "b" (words_of (VStr " a ,, b ,c"))
  ∧ "b" ≠ "" ∧ trim "b" = "b" ∧ has_char comma "b" = false.
Proof.
  split; [vm_compute; auto|].
  apply (words_of_string_are_clean " a ,, b ,c" "b"). vm_compute. auto.
Defined.

(** ** The filters on arrays *)

Lemma same_value_zero_eq (a b : value) : same_value_zero a b = true → a = b.
Proof.
  destruct a, b; simpl; try discriminate; intros H; try reflexivity.
  - apply Bool.eqb_prop in H. now subst.
  - apply Z.eqb_eq in H. now subst.
  - apply String.eqb_eq in H. now subst.
  - apply bool_decide_eq_true in H. now subst.
Qed.

Lemma set_insert_cases (seen : list value) (x : value) :
  (set_insert seen x = seen ∧ In x seen)
  ∨ (set_insert seen x = (seen ++ [x])%list
     ∧ forallb (fun y => negb (same_value_zero y x)) seen = true).
Proof.
  induction seen as [|y r IH]; simpl; [right; auto|].
  destruct (same_value_zero y x) eqn:E.
  - left. split; [reflexivity|]. left. now apply same_value_zero_eq.
  - destruct IH as [[-> Hin]|[-> Hall]]; [left|right]; simpl; auto.
Qed.

Lemma set_insert_fresh (seen : list value) (x : value) :
  forallb (fun y => negb (same_value_zero y x)) seen = true →
  set_insert seen x = (seen ++ [x])%list.
Proof.
  induction seen as [|y r IH]; simpl; [reflexivity|].
  intros H. apply andb_true_iff in H as [Hy Hr].
  apply negb_true_iff in Hy. rewrite Hy. now rewrite IH.
Qed.

Lemma no_repeat_snoc (l : list value) (x : value) :
  no_repeat (l ++ [x]) = true
  ↔ no_repeat l = true
    ∧ forallb (fun y => negb (same_value_zero y x)) l = true.
Proof.
  induction l as [|a l IH]; simpl; [tauto|].
  rewrite forallb_app. simpl.
  rewrite !andb_true_iff, IH. tauto.
Qed.

Lemma no_repeat_app_l (a b : list value) :
  no_repeat (a ++ b) = true → no_repeat a = true.
Proof.
  induction a as [|x a IH]; simpl; [reflexivity|].
  rewrite forallb_app, !andb_true_iff. tauto.
Qed.

Lemma uniq_fold (l : list value) : ∀ acc,
  no_repeat acc = true →
  ∃ ext, fold_left set_insert l acc = (acc ++ ext)%list
         ∧ ext `sublist_of` l
         ∧ no_repeat (acc ++ ext) = true
         ∧ ∀ x, In x l → In x (acc ++ ext)%list.
Proof.
  induction l as [|x l IH]; intros acc Hacc; simpl.
  - exists []. rewrite app_nil_r.
    split; [reflexivity|]. split; [constructor|]. split; [exact Hacc|].
    intros x [].
  - destruct (set_insert_cases acc x) as [[-> Hin]|[-> Hall]].
    + destruct (IH acc Hacc) as (ext & -> & Hs & Hn & Hc).
      exists ext. repeat split; auto.
      * now apply sublist_cons.
      * intros y [<-|Hy]; [apply in_or_app; now left|now apply Hc].
    + assert (Hx : no_repeat (acc ++ [x]) = true) by now apply no_repeat_snoc.
      destruct (IH _ Hx) as (ext & -> & Hs & Hn & Hc).
      exists (x :: ext). rewrite <- app_assoc in *. simpl in *.
      repeat split; auto.
      * now apply sublist_skip.
      * intros y [<-|Hy]; [apply in_or_app; right; now left|now apply Hc].
Qed.

Lemma uniq_fixed (l : list value) : ∀ acc,
  no_repeat (acc ++ l) = true → fold_left set_insert l acc = (acc ++ l)%list.
Proof.
  induction l as [|x l IH]; intros acc H; simpl; [now rewrite app_nil_r|].
  change (acc ++ x :: l)%list with (acc ++ [x] ++ l)%list in H.
  rewrite app_assoc in H.
  pose proof (no_repeat_app_l _ _ H) as Hx.
  apply no_repeat_snoc in Hx as [_ Hall].
  rewrite (set_insert_fresh _ _ Hall), (IH _ H), <- app_assoc. reflexivity.
Qed.

(** X3. On an array, [uniq] returns an array without repeated values:
    a subsequence of the input (first occurrences, in their order) in
    which every value of the input still occurs. *)
Theorem uniq_removes_repeats (l args : list value) :
  ∃ l', filter_uniq (VArr l) args = Ok (VArr l')
        ∧ no_repeat l' = true
        ∧ l' `sublist_of` l
        ∧ ∀ x, In x l → In x l'.
Proof.
  destruct (uniq_fold l [] eq_refl) as (ext & E & Hs & Hn & Hc).
  exists ext. unfold filter_uniq. simpl. rewrite E. auto.
Qed.

(** X4. [uniq] is idempotent: applied to its own result, whatever the
    input was, it returns that result again. *)
Theorem uniq_idempotent (v r : value) (args args' : list value) :
  filter_uniq v args = Ok r → filter_uniq r args' = Ok r.
Proof.
  unfold filter_uniq. destruct (isArray v) eqn:A.
  - destruct v; try discriminate. simpl.
    destruct (uniq_fold elems [] eq_refl) as (ext & E & _ & Hn & _).
    rewrite E. intros [= <-]. simpl.
    now rewrite (uniq_fixed ext [] Hn).
  - intros [= <-]. now rewrite A.
Qed.

Lemma uniq_idempotent_witness :
  filter_uniq (VArr [VNum 1; VStr "a"; VNum 1]) [] = Ok (VArr [VNum 1; VStr "a"])
  ∧ filter_uniq (VArr [VNum 1; VStr "a"]) [] = Ok (VArr [VNum 1; VStr "a"]).
Proof.
  split; [reflexivity|].
  apply (uniq_idempotent (VArr [VNum 1; VStr "a"; VNum 1]) _ [] []). reflexivity.
Defined.

Lemma filter_set_insert (seen : list value) (x : value) :
  List.filter truthy (set_insert seen x)
  = if truthy x then set_insert (List.filter truthy seen) x
    else List.filter truthy seen.
Proof.
  induction seen as [|y r IH]; simpl.
  - destruct (truthy x); reflexivity.
  - destruct (same_value_zero y x) eqn:E.
    + pose proof (same_value_zero_eq _ _ E) as ->. simpl.
      destruct (truthy x) eqn:T; [|reflexivity]. simpl. now rewrite E.
    + simpl. rewrite IH.
      destruct (truthy y), (truthy x); simpl; rewrite ?E; reflexivity.
Qed.

Lemma filter_uniq_fold (l : list value) : ∀ acc,
  List.filter truthy (fold_left set_insert l acc)
  = fold_left set_insert (List.filter truthy l) (List.filter truthy acc).
Proof.
  induction l as [|x l IH]; intros acc; simpl; [reflexivity|].
  rewrite IH, filter_set_insert. destruct (truthy x); reflexivity.
Qed.

(** X5. [compact] and [uniq] commute: on every value, dropping the
    falsy elements and then the repeated ones gives what dropping the
    repeated elements and then the falsy ones gives. *)
Theorem compact_uniq_commute (v : value) (a1 a2 a3 a4 : list value) :
  (do u <- filter_uniq v a1; filter_compact u a2)
  = (do c <- filter_compact v a3; filter_uniq c a4).
Proof.
  unfold filter_uniq, filter_compact.
  destruct v; simpl; try reflexivity.
  now rewrite filter_uniq_fold.
Qed.

Lemma sort_insert_perm (x : value) (l : list value) : sort_insert x l ≡ₚ x :: l.
Proof.
  induction l as [|y r IH]; simpl; [reflexivity|].
  destruct (String.ltb (js_String y) (js_String x)); [|reflexivity].
  rewrite IH. apply Permutation_swap.
Qed.

Lemma insertion_sort_perm (l : list value) : fold_right sort_insert [] l ≡ₚ l.
Proof.
  induction l as [|x l IH]; simpl; [reflexivity|].
  now rewrite sort_insert_perm, IH.
Qed.

Lemma partition_perm (p : value → bool) (l : list value) :
  (List.filter (fun v => negb (p v)) l ++ List.filter p l)%list ≡ₚ l.
Proof.
  induction l as [|x l IH]; simpl; [reflexivity|].
  destruct (p x); simpl.
  - rewrite <- Permutation_middle. now rewrite IH.
  - now rewrite IH.
Qed.

Lemma ltb_asym (a b : string) : String.ltb a b = true → String.ltb b a = false.
Proof.
  unfold String.ltb. rewrite (String.compare_antisym a b).
  destruct (String.compare b a); simpl; congruence.
Qed.

Lemma ascending_cons (x : value) (l : list value) :
  ascending (x :: l) = true
  ↔ match l with
    | y :: _ => String.ltb (js_String y) (js_String x) = false
    | [] => True
    end ∧ ascending l = true.
Proof.
  simpl. rewrite andb_true_iff. destruct l; [tauto|].
  now rewrite negb_true_iff.
Qed.

Lemma sort_insert_ascending (x : value) (l : list value) :
  ascending l = true → ascending (sort_insert x l) = true.
Proof.
  induction l as [|y r IH]; [reflexivity|].
  intros H. apply ascending_cons in H as [Hh Hr].
  cbn [sort_insert].
  destruct (String.ltb (js_String y) (js_String x)) eqn:E.
  - apply ascending_cons. split; [|now apply IH].
    destruct r as [|z r']; cbn [sort_insert].
    + now apply ltb_asym.
    + destruct (String.ltb (js_String z) (js_String x)); [exact Hh|now apply ltb_asym].
  - apply ascending_cons. split; [exact E|].
    apply ascending_cons. now split.
Qed.

Lemma insertion_sort_ascending (l : list value) :
  ascending (fold_right sort_insert [] l) = true.
Proof.
  induction l as [|x l IH]; [reflexivity|]. now apply sort_insert_ascending.
Qed.

(** X6. On an array, when each of the elements that [sort] converts to
    a string can be converted ([sort] converts the elements other than
    [undefined] when there are two or more of them), [sort] returns a
    rearrangement of the elements (nothing is lost, added or
    duplicated): the elements other than [undefined], in the order of
    their string forms, followed by the [undefined] elements. *)
Theorem sort_sorts (l args : list value) :
  convert_all (conversions "sort" (VArr l) args) = Ok tt →
  ∃ body tail,
    filter_sort (VArr l) args = Ok (VArr (body ++ tail))
    ∧ (body ++ tail)%list ≡ₚ l
    ∧ ascending body = true
    ∧ Forall (λ v, v ≠ VUndef) body
    ∧ Forall (λ v, v = VUndef) tail.
Proof.
  intros Hconv.
  exists (fold_right sort_insert [] (List.filter (fun v => negb (is_undef v)) l)),
         (List.filter is_undef l).
  split; [|split; [|split; [apply insertion_sort_ascending|split]]].
  - unfold filter_sort. cbn [isArray js_spread_sort].
    unfold conversions in Hconv. cbn [String.eqb Ascii.eqb Bool.eqb orb] in Hconv.
    destruct (Nat.leb _ 1); [reflexivity|].
    now rewrite Hconv.
  - rewrite insertion_sort_perm. apply partition_perm.
  - rewrite insertion_sort_perm.
    apply List.Forall_forall. intros v Hv. apply filter_In in Hv as [_ Hv].
    intros ->. discriminate.
  - apply List.Forall_forall. intros v Hv. apply filter_In in Hv as [_ Hv].
    destruct v; try discriminate. reflexivity.
Qed.

Lemma sort_sorts_witness :
  convert_all (conversions "sort" (VArr [VStr "b"; VUndef; VNum 10; VStr "a"]) [])
    = Ok tt
  ∧ ∃ body tail,
      filter_sort (VArr [VStr "b"; VUndef; VNum 10; VStr "a"]) []
        = Ok (VArr (body ++ tail))
      ∧ ascending body = true
      ∧ Forall (λ v, v = VUndef) tail.
Proof.
  split; [reflexivity|].
  destruct (sort_sorts [VStr "b"; VUndef; VNum 10; VStr "a"] [] eq_refl)
    as (body & tail & H1 & _ & H3 & _ & H5).
  exists body, tail. auto.
Defined.

(** ** The [upper] tag and the [upper] filter *)

Lemma apply_filters_app (fs gs : list Filter) (v : value) (st : State) :
  apply_filters (fs ++ gs) v st
  = do v' <- apply_filters fs v st; apply_filters gs v' st.
Proof.
  revert v. induction fs as [|f fs IH]; intros v; simpl; [reflexivity|].
  destruct (f_handler f v _); simpl; auto.
Qed.

(** X7. The tag [upper] and the filter [upper] print the same text for
    every value other than [undefined] and [null].  For those two the
    filter prints nothing, while the tag prints the upper-cased name of
    the value. *)
Theorem upper_tag_and_filter (v : Value) (e : Emitter) (st : State) (x : value) :
  apply_filters (filters v) (evalToken (initial v) st) st = Ok x →
  let piped_upper :=
    Output {| initial := initial v; filters := filters v ++ [upper_filter];
              v_pos := v_pos v |} in
  (x ≠ VUndef → x ≠ VNull →
   renderTemplate (UpperTag v) e st = renderTemplate piped_upper e st)
  ∧ (x = VUndef ∨ x = VNull →
     renderTemplate piped_upper e st = (st, Ok e)
     ∧ renderTemplate (UpperTag v) e st
       = (st, Ok {| kind := kind e;
                    buffer := buffer e ++ map_string upper_ascii (js_String x) |})).
Proof.
  intros Hx piped_upper.
  assert (Htag : renderTemplate (UpperTag v) e st
                 = (st, caught (v_pos v)
                          (do s <- to_string x;
                           Ok {| kind := kind e;
                                 buffer := buffer e ++ map_string upper_ascii s |}))).
  { rewrite render_Upper, Hx. simpl.
    destruct (to_string x); simpl; try reflexivity.
    now rewrite write_html_string. }
  assert (Hout : renderTemplate piped_upper e st
                 = (st, caught (v_pos v)
                          (do s <- to_string (nullish x (VStr ""));
                           Ok {| kind := kind e;
                                 buffer := buffer e ++ map_string upper_ascii s |}))).
  { unfold piped_upper. rewrite render_Output. cbn [filters initial v_pos].
    rewrite apply_filters_app, Hx. simpl. unfold filter_upper.
    destruct (to_string (nullish x (VStr ""))); simpl; try reflexivity.
    now rewrite write_string. }
  split.
  - intros Hu Hn. rewrite Htag, Hout. destruct x; try reflexivity; congruence.
  - intros Hnil. split.
    + rewrite Hout. destruct Hnil as [-> | ->]; simpl;
        rewrite append_nil_r; destruct e; reflexivity.
    + rewrite Htag. destruct Hnil as [-> | ->]; reflexivity.
Qed.

Lemma upper_tag_and_filter_witness :
  apply_filters (filters example_value)
    (evalToken (initial example_value) example_state) example_state
    = Ok (VStr "a, b")
  ∧ renderTemplate (UpperTag example_value) empty_emitter example_state
    = renderTemplate
        (Output {| initial := initial example_value;
                   filters := filters example_value ++ [upper_filter];
                   v_pos := v_pos example_value |})
        empty_emitter example_state.
Proof.
  assert (H : apply_filters (filters example_value)
                (evalToken (initial example_value) example_state) example_state
              = Ok (VStr "a, b")) by reflexivity.
  split; [exact H|].
  apply (proj1 (upper_tag_and_filter example_value empty_emitter example_state
                  (VStr "a, b") H)); discriminate.
Defined.

(** ** Registering filters and tags *)

Section Agreement.

Variables a b : Liquid.

Lemma parse_agree (n : nat) :
  (∀ tok rem, agree a b tok → Forall (agree a b) rem →
     parseToken a n tok rem = parseToken b n tok rem
     ∧ ∀ tpl rest, parseToken a n tok rem = Some (Ok (tpl, rest)) →
         Forall (agree a b) rest)
  ∧ (∀ stop toks, Forall (agree a b) toks →
     parseStream a n stop toks = parseStream b n stop toks
     ∧ ∀ tpls closed rest,
         parseStream a n stop toks = Some (Ok (tpls, closed, rest)) →
         Forall (agree a b) rest).
Proof.
  induction n as [|n [IHt IHs]]; [split; intros; split; intros; try reflexivity; discriminate|].
  assert (Hblock : ∀ stop rem (k : list Template → Template) msg,
    Forall (agree a b) rem →
    let p (lq : Liquid) :=
      fdo r <- parseStream lq n stop rem;
      let '(tpls, closed, rest) := r in
      if closed : bool then Some (Ok (k tpls, rest)) else Some (Throw msg) in
    p a = p b
    ∧ ∀ tpl rest, p a = Some (Ok (tpl, rest)) → Forall (agree a b) rest).
  { intros stop rem k msg Hrem. destruct (IHs stop rem Hrem) as [Heq Hok].
    simpl. rewrite <- Heq. split; [reflexivity|].
    destruct (parseStream a n stop rem) as [[[[tpls closed] rest]| |]|];
      simpl; try (intros; discriminate).
    destruct closed; try (intros; discriminate).
    intros ? ? [= <- <-]. eapply Hok; reflexivity. }
  split.
  - intros tok rem Htok Hrem. simpl.
    destruct tok as [s|v|t].
    + split; [reflexivity|intros ? ? [= <- <-]; exact Hrem].
    + simpl in Htok. rewrite Htok.
      split; [reflexivity|intros ? ? [= <- <-]; exact Hrem].
    + destruct Htok as [Ht Hv]. rewrite <- Ht, <- Hv.
      destruct (assoc (tag_name t) (liquid_tags a)) as [[]|];
        try (split; [reflexivity|intros ? ? [= <- <-]; exact Hrem]);
        try (split; [reflexivity|intros; discriminate]).
      * destruct (String.eqb (tag_key t) "");
          split; try reflexivity; try (intros; discriminate).
        intros ? ? [= <- <-]; exact Hrem.
      * destruct (String.eqb (tag_key t) "").
        -- split; [reflexivity|intros; discriminate].
        -- apply (Hblock "endcapture" rem (CaptureTag (tag_key t))), Hrem.
      * apply (Hblock "endsection" rem (SectionTag (tag_pos t) (trim (tag_args t)))), Hrem.
  - intros stop toks Htoks. simpl.
    destruct toks as [|token rest0].
    { split; [reflexivity|]. intros ? ? ? [= <- <- <-]. constructor. }
    inversion Htoks as [|? ? Htok Hrest]; subst.
    destruct (is_tag stop token).
    { split; [reflexivity|]. intros ? ? ? [= <- <- <-]. exact Hrest. }
    destruct (IHt token rest0 Htok Hrest) as [Heq Hok]. rewrite <- Heq.
    destruct (parseToken a n token rest0) as [[[tpl rest']| |]|];
      simpl; try (split; [reflexivity|intros; discriminate]).
    specialize (Hok _ _ eq_refl).
    destruct (IHs stop rest' Hok) as [Heq' Hok']. rewrite <- Heq'.
    destruct (parseStream a n stop rest') as [[[[tpls closed] rest'']| |]|];
      simpl; try (split; [reflexivity|intros; discriminate]).
    split; [reflexivity|]. intros ? ? ? [= <- <- <-]. eapply Hok'; reflexivity.
Qed.

Lemma parseTokens_agree (n : nat) : ∀ toks,
  Forall (agree a b) toks → parseTokens a n toks = parseTokens b n toks.
Proof.
  induction n as [|n IH]; [reflexivity|].
  intros toks Htoks. simpl.
  destruct toks as [|token rest0]; [reflexivity|].
  inversion Htoks as [|? ? Htok Hrest]; subst.
  destruct (proj1 (parse_agree n) token rest0 Htok Hrest) as [Heq Hok].
  rewrite <- Heq.
  destruct (parseToken a n token rest0) as [[[tpl rest']| |]|];
    simpl; try reflexivity.
  now rewrite (IH rest' (Hok _ _ eq_refl)).
Qed.

Lemma render_agree (toks : list TopLevelToken) (vars : gmap string value)
    (heap : gmap nat PromptEngMeta) :
  Forall (agree a b) toks →
  parse a toks = parse b toks
  ∧ render a toks vars heap = render b toks vars heap
  ∧ renderWithMeta a toks vars heap = renderWithMeta b toks vars heap.
Proof.
  intros H.
  assert (Hp : parse a toks = parse b toks).
  { unfold parse. now rewrite (parseTokens_agree _ toks H). }
  unfold render, renderWithMeta, parseAndRender. rewrite Hp. auto.
Qed.

End Agreement.

Lemma newValue_ext (a b : Liquid) (vt : ValueToken) :
  (∀ ft, In ft (vt_filters vt) →
     assoc (ft_name ft) (liquid_filters a) = assoc (ft_name ft) (liquid_filters b)) →
  newValue a vt = newValue b vt.
Proof.
  intros H. unfold newValue. f_equal.
  apply map_ext_in. intros ft Hft. now rewrite (H ft Hft).
Qed.

Lemma agree_same_tables (a b : Liquid) (tok : TopLevelToken) :
  (∀ k, assoc k (liquid_filters a) = assoc k (liquid_filters b)) →
  (∀ k, assoc k (liquid_tags a) = assoc k (liquid_tags b)) →
  agree a b tok.
Proof.
  intros Hf Ht. destruct tok as [s|v|t]; simpl; auto using newValue_ext.
Qed.

(** X8. The last registration of a filter name, or of a tag name, wins: an
    engine on which a name was registered twice parses and renders
    every template as the engine that only got the second
    registration. *)
Theorem last_registration_wins (nm : string) (fn fn0 : FilterImpl)
    (impl impl0 : TagClass) (liquid : Liquid) (toks : list TopLevelToken)
    (vars : gmap string value) (heap : gmap nat PromptEngMeta) :
  (let twice := registerFilter nm fn (registerFilter nm fn0 liquid) in
   let once := registerFilter nm fn liquid in
   parse twice toks = parse once toks
   ∧ render twice toks vars heap = render once toks vars heap
   ∧ renderWithMeta twice toks vars heap = renderWithMeta once toks vars heap)
  ∧ (let twice := registerTag nm impl (registerTag nm impl0 liquid) in
     let once := registerTag nm impl liquid in
     parse twice toks = parse once toks
     ∧ render twice toks vars heap = render once toks vars heap
     ∧ renderWithMeta twice toks vars heap = renderWithMeta once toks vars heap).
Proof.
  split; intros twice once; apply render_agree;
    apply List.Forall_forall; intros tok _; apply agree_same_tables;
    try reflexivity; intros k; simpl; destruct (String.eqb k nm); reflexivity.
Qed.

(** X9. Registering a filter changes nothing for a template that pipes no
    value through that name, and registering a tag changes nothing for
    a template in which no tag has that name: the template parses to
    the same templates and renders to the same result as before. *)
Theorem registration_frame (nm : string) (fn : FilterImpl) (impl : TagClass)
    (liquid : Liquid) (toks : list TopLevelToken)
    (vars : gmap string value) (heap : gmap nat PromptEngMeta) :
  (forallb (fun tok => negb (uses_filter nm tok)) toks = true →
   parse (registerFilter nm fn liquid) toks = parse liquid toks
   ∧ render (registerFilter nm fn liquid) toks vars heap
     = render liquid toks vars heap
   ∧ renderWithMeta (registerFilter nm fn liquid) toks vars heap
     = renderWithMeta liquid toks vars heap)
  ∧ (forallb (fun tok => negb (is_tag nm tok)) toks = true →
     parse (registerTag nm impl liquid) toks = parse liquid toks
     ∧ render (registerTag nm impl liquid) toks vars heap
       = render liquid toks vars heap
     ∧ renderWithMeta (registerTag nm impl liquid) toks vars heap
       = renderWithMeta liquid toks vars heap).
Proof.
  split; intros H; apply render_agree; apply List.Forall_forall;
    intros tok Htok; rewrite forallb_forall in H; specialize (H tok Htok);
    apply negb_true_iff in H.
  - assert (Hv : ∀ vt,
      existsb (fun ft => String.eqb (ft_name ft) nm) (vt_filters vt) = false →
      newValue (registerFilter nm fn liquid) vt = newValue liquid vt).
    { intros vt Hvt. apply newValue_ext. intros ft Hft. simpl.
      destruct (String.eqb (ft_name ft) nm) eqn:E; [|reflexivity].
      assert (existsb (fun ft => String.eqb (ft_name ft) nm) (vt_filters vt) = true)
        by (apply existsb_exists; eauto).
      congruence. }
    destruct tok as [s|v|t]; simpl in *; auto.
  - destruct tok as [s|v|t]; simpl in *; auto.
    rewrite H. auto.
Qed.

Lemma registration_frame_witness :
  forallb (fun tok => negb (uses_filter "shout" tok)) words_template = true
  ∧ forallb (fun tok => negb (is_tag "shout" tok)) words_template = true
  ∧ render (registerFilter "shout" filter_upper TemplateParser) words_template
      {[ "ws" := VStr "a" ]} ∅
    = render TemplateParser words_template {[ "ws" := VStr "a" ]} ∅
  ∧ render (registerTag "shout" UpperClass TemplateParser) words_template
      {[ "ws" := VStr "a" ]} ∅
    = render TemplateParser words_template {[ "ws" := VStr "a" ]} ∅.
Proof.
  split; [reflexivity|]. split; [reflexivity|].
  destruct (registration_frame "shout" filter_upper UpperClass TemplateParser
              words_template {[ "ws" := VStr "a" ]} ∅) as [Hf Ht].
  split; [apply (Hf eq_refl)|apply (Ht eq_refl)].
Defined.

(** ** What rendering does to the emitter *)

Lemma render_buffer (tpl : Template) (k : EmitterKind) (b : string) (st : State) :
  renderTemplate tpl {| kind := k; buffer := b |} st
  = let '(st', r) := renderTemplate tpl {| kind := k; buffer := "" |} st in
    (st', do e <- r; Ok {| kind := k; buffer := b ++ buffer e |}).
Proof.
  destruct tpl.
  - now rewrite !render_HTML.
  - rewrite !render_Output.
    destruct (apply_filters _ _ _); try reflexivity.
    simpl. unfold write. destruct (convert_all _); try reflexivity.
    destruct k; reflexivity.
  - rewrite !render_Assign. unfold catching.
    destruct (apply_filters _ _ _); try reflexivity.
    destruct (bottom_set _ _ _) as [? [| |]]; simpl; rewrite ?append_nil_r; reflexivity.
  - rewrite !render_Capture.
    destruct (renderTemplates _ _ _) as [? [| |]]; try reflexivity.
    destruct (bottom_set _ _ _) as [? [| |]]; simpl; rewrite ?append_nil_r; reflexivity.
  - rewrite !render_Increment. cbv zeta.
    destruct (stringify _); try reflexivity. cbn [bind]. now rewrite !write_string.
  - rewrite !render_Decrement. cbv zeta.
    destruct (stringify _); try reflexivity. cbn [bind]. now rewrite !write_string.
  - rewrite !render_Upper.
    destruct (apply_filters _ _ _); try reflexivity.
    simpl. destruct (to_string _); try reflexivity.
    simpl. now rewrite !write_html_string.
  - rewrite !render_MustIncludeEach. unfold catching.
    destruct (apply_filters _ _ _); try reflexivity.
    destruct (read_words _); try reflexivity.
    destruct (get_or_create_meta _) as [? [| |]]; try reflexivity.
    destruct (meta_constraints_push _ _ _) as [? [| |]]; try reflexivity.
    simpl. now rewrite !write_html_string.
  - rewrite !render_Section. unfold catching.
    destruct (get_or_create_meta _) as [? [| |]]; try reflexivity.
    destruct (renderTemplates _ _ _) as [? [| |]]; try reflexivity.
    destruct (meta_sections_set _ _ _) as [? [| |]]; simpl;
      rewrite ?append_nil_r; reflexivity.
Qed.

Lemma renderTemplates_buffer (tpls : list Template) (k : EmitterKind)
    (b : string) (st : State) :
  renderTemplates tpls {| kind := k; buffer := b |} st
  = let '(st', r) := renderTemplates tpls {| kind := k; buffer := "" |} st in
    (st', do e <- r; Ok {| kind := k; buffer := b ++ buffer e |}).
Proof.
  revert b st. induction tpls as [|tpl tpls IH]; intros b st.
  - rewrite !renderTemplates_nil. simpl. now rewrite append_nil_r.
  - rewrite !renderTemplates_cons, (render_buffer tpl k b).
    pose proof (render_buffer tpl k "" st) as Hk.
    destruct (renderTemplate tpl {| kind := k; buffer := "" |} st)
      as [st1 [[k1 b1]| |]]; simpl; try reflexivity.
    simpl in Hk. injection Hk as ->.
    rewrite (IH (b ++ b1)), (IH b1).
    destruct (renderTemplates tpls {| kind := k; buffer := "" |} st1)
      as [st2 [[k2 b2]| |]]; simpl; try reflexivity.
    now rewrite append_assoc.
Qed.

Lemma renderTemplates_kind (tpls : list Template) (e e' : Emitter)
    (st st' : State) :
  renderTemplates tpls e st = (st', Ok e') → kind e' = kind e.
Proof.
  destruct e as [k b]. rewrite renderTemplates_buffer.
  destruct (renderTemplates tpls {| kind := k; buffer := "" |} st)
    as [st1 [[k1 b1]| |]]; simpl; try discriminate.
  now intros [= <- <-].
Qed.

(** X11. Rendering never reads or rewrites what the emitter already
    holds.  When a list of templates has been rendered, the emitter is
    of the kind it was, its buffer is the old buffer followed by some
    text, and rendering the list into an empty emitter from the same
    state yields exactly that text and the same final state. *)
Theorem rendering_only_appends (tpls : list Template) (e e' : Emitter)
    (st st' : State) :
  renderTemplates tpls e st = (st', Ok e') →
  kind e' = kind e
  ∧ ∃ s, buffer e' = buffer e ++ s
         ∧ renderTemplates tpls {| kind := kind e; buffer := "" |} st
           = (st', Ok {| kind := kind e; buffer := s |}).
Proof.
  destruct e as [k b]. rewrite renderTemplates_buffer. simpl.
  pose proof (renderTemplates_buffer tpls k "" st) as Hk.
  destruct (renderTemplates tpls {| kind := k; buffer := "" |} st)
    as [st1 [[k1 b1]| |]]; simpl; try discriminate.
  simpl in Hk. injection Hk as ->.
  intros [= <- <-]. simpl. eauto.
Qed.

Lemma rendering_only_appends_witness :
  renderTemplates [HTML "b"; SectionTag pos_1_1 "p" [HTML "x"]; HTML "c"]
    {| kind := SimpleEmitter; buffer := "a" |} example_state
  = (set_local [{| constraints := []; sections := {[ "p" := "x" ]} |}] example_state,
     Ok {| kind := SimpleEmitter; buffer := "abc" |})
  ∧ ∃ s, "abc" = "a" ++ s
         ∧ renderTemplates [HTML "b"; SectionTag pos_1_1 "p" [HTML "x"]; HTML "c"]
             {| kind := SimpleEmitter; buffer := "" |} example_state
           = (set_local [{| constraints := []; sections := {[ "p" := "x" ]} |}]
                example_state,
              Ok {| kind := SimpleEmitter; buffer := s |}).
Proof.
  assert (H : renderTemplates [HTML "b"; SectionTag pos_1_1 "p" [HTML "x"]; HTML "c"]
                {| kind := SimpleEmitter; buffer := "a" |} example_state
              = (set_local [{| constraints := []; sections := {[ "p" := "x" ]} |}]
                   example_state,
                 Ok {| kind := SimpleEmitter; buffer := "abc" |}))
    by (vm_compute; reflexivity).
  split; [exact H|].
  exact (proj2 (rendering_only_appends _ _ _ _ _ H)).
Defined.

(** ** Templates put together *)


Lemma parse_app_ok (liquid : Liquid) (pre post : list TopLevelToken)
    (a : list Template) (r : outcome (list Template)) :
  parse liquid pre = Ok a →
  parse liquid post = r →
  parse liquid (pre ++ post) = (do b <- r; Ok (a ++ b)%list).
Proof.
  intros Ha Hb.
  apply parse_fuel in Ha as [n Hn]. apply parse_fuel in Hb as [m Hm].
  apply parse_fuel. exists (n + m)%nat.
  exact (parseTokens_app liquid n pre a Hn m post r Hm).
Qed.

(** X12. A token stream made of two token streams that parse, one
    after the other, renders as the first followed by the second from
    the state the first leaves: the text is the two texts put
    together.  (This is about token streams: the texts of two
    templates put together need not tokenize to the two streams put
    together.) *)
Theorem render_of_concatenation (liquid : Liquid) (pre post : list TopLevelToken)
    (a b : list Template) (st : State) :
  parse liquid pre = Ok a →
  parse liquid post = Ok b →
  parseAndRender liquid (pre ++ post) st
  = match parseAndRender liquid pre st with
    | (st1, Ok s1) =>
        match parseAndRender liquid post st1 with
        | (st2, Ok s2) => (st2, Ok (s1 ++ s2))
        | (st2, Throw msg) => (st2, Throw msg)
        | (st2, OutOfFragment) => (st2, OutOfFragment)
        end
    | (st1, Throw msg) => (st1, Throw msg)
    | (st1, OutOfFragment) => (st1, OutOfFragment)
    end.
Proof.
  intros Ha Hb. unfold parseAndRender.
  rewrite (parse_app_ok liquid pre post a (Ok b) Ha Hb), Ha, Hb. simpl.
  rewrite renderTemplates_app.
  destruct (renderTemplates a {| kind := SimpleEmitter; buffer := "" |} st)
    as [st1 [e1| |]] eqn:E1; try reflexivity.
  pose proof (renderTemplates_kind a _ _ _ _ E1) as K.
  destruct e1 as [k1 b1]. simpl in K. subst k1.
  rewrite renderTemplates_buffer.
  destruct (renderTemplates b {| kind := SimpleEmitter; buffer := "" |} st1)
    as [st2 [e2| |]]; reflexivity.
Qed.

Lemma render_of_concatenation_witness :
  parse TemplateParser [HTMLToken "a"] = Ok [HTML "a"]
  ∧ parse TemplateParser words_template
    = Ok [MustIncludeEachTag (newValue TemplateParser (bare (Var "ws")))]
  ∧ parseAndRender TemplateParser ([HTMLToken "a"] ++ words_template) example_state
    = match parseAndRender TemplateParser [HTMLToken "a"] example_state with
      | (st1, Ok s1) =>
          match parseAndRender TemplateParser words_template st1 with
          | (st2, Ok s2) => (st2, Ok (s1 ++ s2))
          | (st2, Throw msg) => (st2, Throw msg)
          | (st2, OutOfFragment) => (st2, OutOfFragment)
          end
      | (st1, Throw msg) => (st1, Throw msg)
      | (st1, OutOfFragment) => (st1, OutOfFragment)
      end.
Proof.
  split; [reflexivity|]. split; [reflexivity|].
  apply (render_of_concatenation TemplateParser [HTMLToken "a"] words_template
           [HTML "a"] [MustIncludeEachTag (newValue TemplateParser (bare (Var "ws")))]);
    reflexivity.
Defined.

(** ** End tags *)

(** X13. A tag whose name is in no table, after a beginning that
    parses, fails the parse with a [ParseError] at the tag, whose
    message is [tag "<name>" not found, line:L, col:C] for the line [L]
    and the column [C] where the tag begins.  This is also what an
    [endsection] without an open section does.  Nothing is rendered:
    the caller's variables and records stay as they were. *)
Theorem stray_end_tag_is_fatal (liquid : Liquid) (pre post : list TopLevelToken)
    (t : TagToken) (tpls : list Template)
    (vars : gmap string value) (heap : gmap nat PromptEngMeta) :
  parse liquid pre = Ok tpls →
  assoc (tag_name t) (liquid_tags liquid) = None →
  let template := (pre ++ TagTok t :: post)%list in
  result (render liquid template vars heap) = Throw (not_found_tag t)
  ∧ result (renderWithMeta liquid template vars heap) = Throw (not_found_tag t)
  ∧ message_of (not_found_tag t)
    = Some (("tag " ++ quoted (tag_name t) ++ " not found")
            ++ ", line:" ++ pretty (pos_line (tag_pos t))
            ++ ", col:" ++ pretty (pos_col (tag_pos t)))
  ∧ variables_after (render liquid template vars heap) = vars
  ∧ heap_after (render liquid template vars heap) = heap
  ∧ heap_after (renderWithMeta liquid template vars heap) = heap.
Proof.
  intros Hpre Ht template.
  assert (Hpost : parse liquid (TagTok t :: post) = Throw (not_found_tag t)).
  { apply parse_fuel. exists 2%nat. simpl. now rewrite Ht. }
  assert (Hp : parse liquid template = Throw (not_found_tag t)).
  { unfold template. now rewrite (parse_app_ok liquid pre _ tpls _ Hpre Hpost). }
  destruct (render_parse_failed liquid template vars heap)
    as (H1 & H2 & H3 & H4 & H5 & H6).
  { intros ?. rewrite Hp. discriminate. }
  rewrite Hp in H1, H4. repeat split; auto.
Qed.

Lemma stray_end_tag_is_fatal_witness :
  let t := {| tag_name := "endsection"; tag_args := "";
              tag_text := "{% endsection %}"; tag_key := "";
              tag_value := {| vt_initial := Absent; vt_filters := [];
                              vt_pos := {| pos_line := 1; pos_col := 2 |} |} |} in
  parse TemplateParser [HTMLToken "a"] = Ok [HTML "a"]
  ∧ assoc "endsection" (liquid_tags TemplateParser) = None
  ∧ result (render TemplateParser [HTMLToken "a"; TagTok t; HTMLToken "b"] ∅ ∅)
    = Throw (not_found_tag t)
  ∧ message_of (not_found_tag t)
    = Some ("tag " ++ quoted "endsection" ++ " not found, line:1, col:2").
Proof.
  intros t.
  split; [reflexivity|]. split; [reflexivity|].
  destruct (stray_end_tag_is_fatal TemplateParser [HTMLToken "a"] [HTMLToken "b"]
              t [HTML "a"] ∅ ∅ eq_refl eq_refl) as (H1 & _ & H3 & _).
  split; [exact H1|exact H3].
Defined.

Lemma parseStream_closed (liquid : Liquid) (stop : string) (n : nat) :
  assoc stop (liquid_tags liquid) = None →
  ∀ body tpls, parseTokens liquid n body = Some (Ok tpls) →
  ∀ e post, is_tag stop e = true →
    parseStream liquid n stop (body ++ e :: post)%list = Some (Ok (tpls, true, post)).
Proof.
  intros Hstop. induction n as [|n IH]; [discriminate|].
  intros body tpls Hbody e post He.
  destruct body as [|tok rest].
  - simpl in *. injection Hbody as <-. now rewrite He.
  - simpl in Hbody. simpl app. cbn [parseStream].
    destruct (is_tag stop tok) eqn:Etok.
    { destruct tok as [| |t]; try discriminate. simpl in Etok.
      apply String.eqb_eq in Etok. destruct n; [discriminate|].
      simpl in Hbody. rewrite Etok, Hstop in Hbody. discriminate. }
    destruct (parseToken liquid n tok rest) as [[[tpl rest']| |]|] eqn:Etk;
      try discriminate.
    simpl in Hbody.
    rewrite (proj1 (parse_app liquid n) tok rest tpl rest' Etk (e :: post)).
    simpl.
    destruct (parseTokens liquid n rest') as [[tpls'| |]|] eqn:Ers;
      try discriminate.
    simpl in Hbody. injection Hbody as <-.
    now rewrite (IH rest' tpls' Ers e post He).
Qed.

(** X14. A [section] tag followed by a well-formed body, [endsection]
    and a well-formed remainder parses to one section template, named
    by the trimmed argument text and holding the body's templates, in
    front of the remainder's templates. *)
Theorem closed_section_parses (liquid : Liquid) (t : TagToken)
    (body post : list TopLevelToken) (e : TopLevelToken)
    (inner outer : list Template) :
  assoc (tag_name t) (liquid_tags liquid) = Some SectionClass →
  assoc "endsection" (liquid_tags liquid) = None →
  is_tag "endsection" e = true →
  parse liquid body = Ok inner →
  parse liquid post = Ok outer →
  parse liquid (TagTok t :: body ++ e :: post)
  = Ok (SectionTag (tag_pos t) (trim (tag_args t)) inner :: outer).
Proof.
  intros Ht Hend He Hbody Hpost.
  apply parse_fuel in Hbody as [n Hn]. apply parse_fuel in Hpost as [m Hm].
  apply parse_fuel. exists (S (S (n + m))).
  pose proof (parseStream_closed liquid "endsection" n Hend body inner Hn e post He)
    as Hs.
  apply (proj2 (parse_mono liquid n) _ _ _) with (m := (n + m)%nat) in Hs; [|lia].
  apply (parseTokens_mono liquid m _ _) with (m := S (n + m)) in Hm; [|lia].
  remember (S (n + m)) as k eqn:Ek.
  cbn [parseTokens]. rewrite Ek at 1.
  cbn [parseToken]. rewrite Ht, Hs. cbn [fbind].
  rewrite Hm. reflexivity.
Qed.

Lemma closed_section_parses_witness :
  assoc "section" (liquid_tags TemplateParser) = Some SectionClass
  ∧ assoc "endsection" (liquid_tags TemplateParser) = None
  ∧ parse TemplateParser
      (tag "section" " p " "p" (bare (Var "p"))
       :: [HTMLToken "x"] ++ tag "endsection" "" "" (bare Absent) :: [HTMLToken "y"])
    = Ok [SectionTag pos_1_1 "p" [HTML "x"]; HTML "y"].
Proof.
  split; [reflexivity|]. split; [reflexivity|].
  apply (closed_section_parses TemplateParser
           {| tag_name := "section"; tag_args := " p "; tag_text := "{% section  p  %}";
              tag_key := "p"; tag_value := bare (Var "p") |}
           [HTMLToken "x"] [HTMLToken "y"] (tag "endsection" "" "" (bare Absent))
           [HTML "x"] [HTML "y"]); reflexivity.
Defined.

(** ** [render] and the caller's records *)

Lemma find_snoc {A : Type} (p : A → bool) (l : list A) (x : A) :
  List.find p (l ++ [x]) = match List.find p l with
                           | Some y => Some y
                           | None => if p x then Some x else None
                           end.
Proof.
  induction l as [|y l IH]; simpl; [reflexivity|].
  destruct (p y); auto.
Qed.

Lemma ctx_get_bottom_set_ne (k k' : string) (v : value) (st : State) :
  k ≠ k' → ctx_get (bottom_set k v st).1 k' = ctx_get st k'.
Proof.
  intros Hne. unfold bottom_set.
  destruct (scopes st) as [|s0 r] eqn:E; [reflexivity|].
  unfold ctx_get, findScope. simpl. rewrite E. simpl.
  rewrite !find_snoc.
  destruct (List.find (has_key k') (rev r)); [reflexivity|].
  unfold has_key at 1 3. rewrite lookup_insert_ne by exact Hne.
  destruct (bool_decide (is_Some (s0 !! k'))); [|reflexivity].
  now rewrite lookup_insert_ne.
Qed.

Lemma meta_is_local_create (st : State) :
  meta_is_local st →
  meta_is_local (get_or_create_meta st).1
  ∧ caller (get_or_create_meta st).1 = caller st
  ∧ ∀ l, (get_or_create_meta st).2 ≠ Ok (VMeta (RCaller l)).
Proof.
  intros H. destruct (truthy (ctx_get st META)) eqn:T.
  - rewrite (get_or_create_meta_truthy st T). simpl.
    split; [exact H|]. split; [reflexivity|]. intros l [= E]. exact (H l E).
  - rewrite (get_or_create_meta_fresh st T). simpl.
    split; [|split; [reflexivity|discriminate]].
    intros l. unfold ctx_get, findScope. simpl.
    rewrite rev_app_distr. simpl.
    unfold has_key at 1. rewrite lookup_singleton_eq. simpl.
    rewrite lookup_singleton_eq. discriminate.
Qed.

Lemma meta_is_local_update (i : nat) (f : PromptEngMeta → PromptEngMeta)
    (st : State) :
  meta_is_local st →
  meta_is_local (update_meta (RLocal i) f st).1
  ∧ caller (update_meta (RLocal i) f st).1 = caller st.
Proof.
  intros H. unfold update_meta. destruct (local st !! i); simpl; auto.
Qed.

Lemma meta_is_local_push (m : value) (c : Constraint) (st : State) :
  meta_is_local st → (∀ l, m ≠ VMeta (RCaller l)) →
  meta_is_local (meta_constraints_push m c st).1
  ∧ caller (meta_constraints_push m c st).1 = caller st.
Proof.
  intros H Hm. unfold meta_constraints_push.
  destruct m as [| | | | | |fs|[i|l]]; simpl; auto.
  - destruct (assoc "constraints" fs) as [[]|]; simpl; auto.
  - now apply meta_is_local_update.
  - now destruct (Hm l).
Qed.

Lemma meta_is_local_set (m : value) (k s : string) (st : State) :
  meta_is_local st → (∀ l, m ≠ VMeta (RCaller l)) →
  meta_is_local (meta_sections_set m k s st).1
  ∧ caller (meta_sections_set m k s st).1 = caller st.
Proof.
  intros H Hm. unfold meta_sections_set.
  destruct m as [| | | | | |fs|[i|l]]; simpl; auto.
  - destruct (assoc "sections" fs) as [[]|]; simpl; auto.
  - now apply meta_is_local_update.
  - now destruct (Hm l).
Qed.

Lemma meta_is_local_steps (b : list Template) :
  Forall (λ tpl, ∀ e st, meta_is_local st →
            meta_is_local (renderTemplate tpl e st).1
            ∧ caller (renderTemplate tpl e st).1 = caller st) b →
  ∀ e st, meta_is_local st →
    meta_is_local (renderTemplates b e st).1
    ∧ caller (renderTemplates b e st).1 = caller st.
Proof.
  apply (renderTemplates_steps
           (λ a c, meta_is_local a → meta_is_local c ∧ caller c = caller a)).
  - auto.
  - intros a b0 c Hab Hbc Ha. destruct (Hab Ha) as [Hb1 Hb2].
    destruct (Hbc Hb1) as [Hc1 Hc2]. split; [auto|congruence].
Qed.

Lemma ctx_get_ext (a b : State) (k : string) :
  scopes a = scopes b → environments a !! k = environments b !! k →
  ctx_get a k = ctx_get b k.
Proof.
  intros Hs He. unfold ctx_get, findScope. rewrite Hs.
  destruct (List.find (has_key k) (rev (scopes b))); [reflexivity|].
  unfold has_key. rewrite He.
  destruct (bool_decide (is_Some (environments b !! k))); [|reflexivity].
  now rewrite He.
Qed.

Lemma meta_is_local_bottom_set (k : string) (v : value) (st : State) :
  k ≠ META → meta_is_local st →
  meta_is_local (bottom_set k v st).1 ∧ caller (bottom_set k v st).1 = caller st.
Proof.
  intros Hk H. split.
  - intros l. rewrite ctx_get_bottom_set_ne by exact Hk. apply H.
  - unfold bottom_set. destruct (scopes st); reflexivity.
Qed.

Lemma meta_is_local_counter_ready (x : string) (st : State) :
  x ≠ META → meta_is_local st →
  meta_is_local (counter_ready x st) ∧ caller (counter_ready x st) = caller st.
Proof.
  intros Hx Hst. unfold counter_ready.
  destruct (is_number _); [auto|].
  split; [|reflexivity]. intros l.
  erewrite ctx_get_ext; [apply (Hst l)|reflexivity|].
  simpl. now rewrite lookup_insert_ne.
Qed.

(** A template that does not bind the metadata name never makes it
    resolve to a record of the caller, and touches no such record. *)
Lemma no_rebind_local (tpl : Template) :
  no_rebind tpl = true →
  ∀ e st, meta_is_local st →
    meta_is_local (renderTemplate tpl e st).1
    ∧ caller (renderTemplate tpl e st).1 = caller st.
Proof.
  unfold no_rebind.
  induction tpl as [s|v|k v|x b IH|x|x|v|v|p n b IH] using Template_nested_ind;
    intros Hnr e st Hst; apply all_nodes_block in Hnr as [Hp Hb];
    pose proof (binds_ne _ "" Hp) as Hne; clear Hp.
  - rewrite render_HTML. auto.
  - rewrite render_Output. auto.
  - rewrite render_Assign, catching_state.
    destruct (apply_filters _ _ _); auto.
    destruct (meta_is_local_bottom_set k a st Hne Hst) as [H1 H2].
    destruct (bottom_set k a st) as [st' [| |]]; auto.
  - rewrite render_Capture.
    destruct (meta_is_local_steps b (Forall_mp _ _ _ IH Hb)
                {| kind := SimpleEmitter; buffer := "" |} st Hst) as [H1 H2].
    destruct (renderTemplates b _ st) as [st' [e'| |]]; simpl in *; auto.
    destruct (meta_is_local_bottom_set x (VStr (buffer e')) st' Hne H1) as [H3 H4].
    destruct (bottom_set x _ st') as [st'' [| |]]; simpl in *;
      split; auto; congruence.
  - rewrite render_Increment. cbn [fst]. simpl in Hne.
    destruct (meta_is_local_counter_ready x st Hne Hst) as [H1 H2].
    destruct (default VUndef _); auto.
    split; [|exact H2]. intros l.
    erewrite ctx_get_ext; [apply (H1 l)|reflexivity|].
    simpl. now rewrite lookup_insert_ne.
  - rewrite render_Decrement. cbn [fst]. simpl in Hne.
    destruct (meta_is_local_counter_ready x st Hne Hst) as [H1 H2].
    split; [|exact H2]. intros l.
    erewrite ctx_get_ext; [apply (H1 l)|reflexivity|].
    simpl. now rewrite lookup_insert_ne.
  - rewrite render_Upper. auto.
  - rewrite render_MustIncludeEach, catching_state.
    destruct (apply_filters _ _ _); auto.
    destruct (read_words a) as [ws| |]; auto.
    destruct (meta_is_local_create st Hst) as (H1 & H2 & H3).
    destruct (get_or_create_meta st) as [st1 [m| |]]; simpl in *; auto.
    destruct (meta_is_local_push m
                {| c_type := "must_include_each"; words := ws |} st1 H1)
      as [H4 H5].
    { intros l E. apply (H3 l). now rewrite E. }
    destruct (meta_constraints_push m _ st1) as [st2 [| |]]; simpl in *;
      split; auto; congruence.
  - rewrite render_Section, catching_state.
    destruct (meta_is_local_create st Hst) as (H1 & H2 & H3).
    destruct (get_or_create_meta st) as [st1 [m| |]]; simpl in *; auto.
    destruct (meta_is_local_steps b (Forall_mp _ _ _ IH Hb)
                {| kind := CaptureEmitter; buffer := "" |} st1 H1) as [H4 H5].
    destruct (renderTemplates b _ st1) as [st2 [e'| |]]; simpl in *;
      try (split; auto; congruence).
    destruct (meta_is_local_set m (section_name n) (buffer e') st2 H4) as [H6 H7].
    { intros l E. apply (H3 l). now rewrite E. }
    destruct (meta_sections_set m _ _ st2) as [st3 [| |]]; simpl in *;
      split; auto; congruence.
Qed.

(** X15. [render] touches no metadata record that the caller holds,
    provided the variables do not bind the metadata name to such a
    record and the template does not rebind that name.  The records
    that sections and [must_include_each] write into during the call
    are the call's own. *)
Theorem render_keeps_records (liquid : Liquid) (toks : list TopLevelToken)
    (vars : gmap string value) (heap : gmap nat PromptEngMeta) :
  (∀ l, vars !! META ≠ Some (VMeta (RCaller l))) →
  (∀ tpls, parse liquid toks = Ok tpls → forallb no_rebind tpls = true) →
  heap_after (render liquid toks vars heap) = heap.
Proof.
  intros Hvars Hnr. unfold render, parseAndRender.
  destruct (parse liquid toks) as [tpls| |]; try reflexivity.
  assert (Hst : meta_is_local (new_Context vars [] heap)).
  { intros l. unfold ctx_get, findScope. simpl.
    unfold has_key at 1. rewrite lookup_empty.
    rewrite bool_decide_eq_false_2 by (intros [? ?]; discriminate).
    unfold has_key.
    destruct (vars !! META) as [v|] eqn:E.
    - rewrite bool_decide_eq_true_2 by eauto. rewrite E. simpl.
      intros ->. exact (Hvars l eq_refl).
    - rewrite bool_decide_eq_false_2 by (intros [? ?]; discriminate).
      rewrite lookup_empty. discriminate. }
  assert (Hall : Forall (λ tpl, ∀ e st, meta_is_local st →
            meta_is_local (renderTemplate tpl e st).1
            ∧ caller (renderTemplate tpl e st).1 = caller st) tpls).
  { apply List.Forall_forall. intros t Ht. apply no_rebind_local.
    specialize (Hnr tpls eq_refl). rewrite forallb_forall in Hnr. now apply Hnr. }
  destruct (meta_is_local_steps tpls Hall
              {| kind := SimpleEmitter; buffer := "" |} _ Hst) as [_ H].
  destruct (renderTemplates tpls _ _) as [st [e| |]]; exact H.
Qed.

Lemma render_keeps_records_witness :
  (∀ l, ({[ "old" := VMeta (RCaller 5) ]} : gmap string value) !! META
        ≠ Some (VMeta (RCaller l)))
  ∧ (∀ tpls, parse TemplateParser section_template = Ok tpls →
             forallb no_rebind tpls = true)
  ∧ heap_after (render TemplateParser section_template
                  {[ "old" := VMeta (RCaller 5) ]} {[ 5%nat := new_meta ]})
    = {[ 5%nat := new_meta ]}.
Proof.
  assert (H1 : ∀ l, ({[ "old" := VMeta (RCaller 5) ]} : gmap string value) !! META
                    ≠ Some (VMeta (RCaller l))) by (intros l; vm_compute; discriminate).
  assert (H2 : ∀ tpls, parse TemplateParser section_template = Ok tpls →
                       forallb no_rebind tpls = true)
    by (intros tpls [= <-]; reflexivity).
  split; [exact H1|]. split; [exact H2|].
  exact (render_keeps_records TemplateParser section_template _ _ H1 H2).
Defined.

(** ** [render] beside [renderWithMeta], sections included *)

(** X16. For a template of the embedded fragment (literal text,
    outputs, and the tags [assign], [capture], [increment],
    [decrement], [upper], [must_include_each] and [section]; the other
    tags of LiquidJS, [if] and [for] among them, are outside it) that
    does not mention the metadata name, and variables without a
    property of that name: [render] returns the text that
    [renderWithMeta] returns, and throws the error that it throws. *)
Theorem render_text_is_renderWithMeta_text (liquid : Liquid)
    (toks : list TopLevelToken) (vars : gmap string value)
    (heap : gmap nat PromptEngMeta) :
  vars !! META = None →
  (∀ tpls, parse liquid toks = Ok tpls → forallb calm tpls = true) →
  result (render liquid toks vars heap)
  = (do r <- result (renderWithMeta liquid toks vars heap); Ok (text r)).
Proof.
  intros Hvars Hq. unfold render, renderWithMeta, parseAndRender.
  destruct (parse liquid toks) as [tpls| |]; try reflexivity.
  assert (H0 : with_meta (new_Context vars [] heap)
                 (new_Context (<["__promptengMeta" := VMeta (RLocal 0)]> vars)
                    [new_meta] heap)).
  { unfold with_meta. simpl. repeat split; auto. }
  destruct (renderTemplates_simulates with_meta tpls) with
    (e := {| kind := SimpleEmitter; buffer := "" |})
    (a := new_Context vars [] heap)
    (b := new_Context (<["__promptengMeta" := VMeta (RLocal 0)]> vars)
            [new_meta] heap) as [Ho Hs]; [|exact H0|].
  { apply Forall_forall. intros t Ht. apply calm_simulates.
    specialize (Hq tpls eq_refl). rewrite forallb_forall in Hq.
    apply Hq, list_elem_of_In, Ht. }
  destruct (renderTemplates tpls _ (new_Context vars [] heap)) as [sa [ea| |]];
    destruct (renderTemplates tpls _ (new_Context _ [new_meta] heap))
      as [sb [eb| |]];
    simpl in *; try discriminate; try (injection Ho as ->); try reflexivity.
  destruct (with_meta_bound sa sb Hs) as (_ & _ & _ & Hlen).
  destruct (local sb) as [|m rest]; [simpl in Hlen; lia|]. reflexivity.
Qed.

Lemma render_text_is_renderWithMeta_text_witness :
  (∅ : gmap string value) !! META = None
  ∧ (∀ tpls, parse TemplateParser (tpl_content with_system) = Ok tpls →
             forallb calm tpls = true)
  ∧ result (render TemplateParser (tpl_content with_system) ∅ ∅) = Ok "Footer"
  ∧ (do r <- result (renderWithMeta TemplateParser (tpl_content with_system) ∅ ∅);
     Ok (text r)) = Ok "Footer".
Proof.
  assert (H1 : (∅ : gmap string value) !! META = None) by reflexivity.
  assert (H2 : ∀ tpls, parse TemplateParser (tpl_content with_system) = Ok tpls →
                       forallb calm tpls = true)
    by (intros tpls [= <-]; reflexivity).
  split; [exact H1|]. split; [exact H2|].
  pose proof (render_text_is_renderWithMeta_text TemplateParser
                (tpl_content with_system) ∅ ∅ H1 H2) as E.
  split; [reflexivity|]. exact (eq_trans (eq_sym E) eq_refl).
Defined.

(** * The prompt engine *)

(** ** Validation of the variables *)

Lemma validate_loop (variables : gmap string value)
    (l : list VariableDefinition) : ∀ acc,
  fold_left
    (fun errors varDef =>
       if (required varDef && negb (js_in (var_name varDef) variables))%bool
       then (errors ++ [missing_required varDef])%list
       else errors) l acc
  = (acc ++ map missing_required (List.filter (is_missing variables) l))%list.
Proof.
  induction l as [|vd l IH]; intros acc; simpl; [now rewrite app_nil_r|].
  rewrite IH. unfold is_missing at 2.
  destruct (required vd && negb (js_in (var_name vd) variables))%bool;
    [|reflexivity].
  now rewrite <- app_assoc.
Qed.

Lemma validate_found (templates : list (string * PromptTemplate))
    (templateName : string) (variables : gmap string value)
    (template : PromptTemplate) :
  assoc templateName templates = Some template →
  validateVariablesCommon templates templateName variables
  = Ok {| valid :=
            Nat.eqb (length (List.filter (is_missing variables)
                               (tpl_variables template))) 0;
          errors := map missing_required
                      (List.filter (is_missing variables)
                         (tpl_variables template)) |}.
Proof.
  intros H. unfold validateVariablesCommon. rewrite H, validate_loop. simpl.
  now rewrite length_map.
Qed.

Lemma filter_nil_iff {A : Type} (p : A → bool) (l : list A) :
  Nat.eqb (length (List.filter p l)) 0 = true ↔ ∀ x, In x l → p x = false.
Proof.
  induction l as [|x l IH]; simpl; [split; [intros _ ? []|reflexivity]|].
  destruct (p x) eqn:E; simpl.
  - split; [discriminate|]. intros H. specialize (H x (or_introl eq_refl)). congruence.
  - rewrite IH. split.
    + intros H y [<-|Hy]; auto.
    + intros H y Hy. apply H. now right.
Qed.

(** X17. For a loaded template, validation returns one message for
    every definition of a required variable for which the variables
    have no property, in the order of the definitions; the verdict is
    [valid] exactly when every required variable is a property of the
    variables, own or inherited. *)
Theorem validation_reports_missing (templates : list (string * PromptTemplate))
    (templateName : string) (variables : gmap string value)
    (template : PromptTemplate) :
  assoc templateName templates = Some template →
  ∃ r, validateVariablesCommon templates templateName variables = Ok r
       ∧ errors r = map missing_required
                      (List.filter (is_missing variables) (tpl_variables template))
       ∧ (valid r = true
          ↔ ∀ varDef, In varDef (tpl_variables template) →
              required varDef = true →
              js_in (var_name varDef) variables = true).
Proof.
  intros H. eexists. split; [apply (validate_found _ _ _ _ H)|].
  split; [reflexivity|]. simpl. rewrite filter_nil_iff.
  unfold is_missing. split.
  - intros Hall vd Hin Hreq. specialize (Hall vd Hin).
    rewrite Hreq in Hall. simpl in Hall. now apply negb_false_iff in Hall.
  - intros Hall vd Hin. destruct (required vd) eqn:Hreq; [|reflexivity].
    simpl. now rewrite (Hall vd Hin Hreq).
Qed.

Lemma validation_reports_missing_witness :
  assoc "greet" example_templates = Some greet
  ∧ ∃ r, validateVariablesCommon example_templates "greet" ∅ = Ok r
         ∧ errors r = ["Missing required variable: 'name'"].
Proof.
  split; [reflexivity|].
  destruct (validation_reports_missing example_templates "greet" ∅ greet eq_refl)
    as (r & Hr & He & _).
  exists r. split; [exact Hr|]. rewrite He. reflexivity.
Defined.

Lemma js_in_insert (k k' : string) (v : value) (o : gmap string value) :
  js_in k o = true → js_in k (<[k' := v]> o) = true.
Proof.
  unfold js_in, has_key. rewrite !orb_true_iff. intros [H|H]; [left|now right].
  apply bool_decide_eq_true in H. apply bool_decide_eq_true.
  destruct (decide (k' = k)) as [->|Hne].
  - rewrite lookup_insert_eq. eauto.
  - now rewrite lookup_insert_ne.
Qed.

Lemma validate_valid_iff (templates : list (string * PromptTemplate))
    (templateName : string) (variables : gmap string value)
    (template : PromptTemplate) (r : ValidationResult) :
  assoc templateName templates = Some template →
  validateVariablesCommon templates templateName variables = Ok r →
  valid r = true ↔ ∀ varDef, In varDef (tpl_variables template) →
                     is_missing variables varDef = false.
Proof.
  intros H. rewrite (validate_found _ _ _ _ H). intros [= <-]. simpl.
  apply filter_nil_iff.
Qed.

(** X18. Binding one more name never invalidates the variables: what
    is valid stays valid when a property is added or overwritten,
    whatever the value, [undefined] included.  Validation looks at the
    names only. *)
Theorem validation_is_monotone (templates : list (string * PromptTemplate))
    (templateName : string) (variables : gmap string value)
    (r : ValidationResult) (k : string) (v : value) :
  validateVariablesCommon templates templateName variables = Ok r →
  valid r = true →
  ∃ r', validateVariablesCommon templates templateName (<[k := v]> variables) = Ok r'
        ∧ valid r' = true.
Proof.
  intros Hr Hv.
  destruct (assoc templateName templates) as [template|] eqn:E;
    [|unfold validateVariablesCommon in Hr; rewrite E in Hr; discriminate].
  eexists. split; [apply (validate_found _ _ _ _ E)|]. simpl.
  apply filter_nil_iff. intros vd Hin.
  pose proof (proj1 (validate_valid_iff _ _ _ _ _ E Hr) Hv vd Hin) as Hm.
  unfold is_missing in *. destruct (required vd); [|reflexivity]. simpl in *.
  apply negb_false_iff in Hm. now rewrite (js_in_insert _ k v _ Hm).
Qed.

Lemma validation_is_monotone_witness :
  validateVariablesCommon example_templates "greet" {[ "name" := VStr "Ada" ]}
    = Ok {| valid := true; errors := [] |}
  ∧ ∃ r', validateVariablesCommon example_templates "greet"
            (<[ "name" := VUndef ]> {[ "name" := VStr "Ada" ]}) = Ok r'
          ∧ valid r' = true.
Proof.
  split; [reflexivity|].
  apply (validation_is_monotone example_templates "greet" {[ "name" := VStr "Ada" ]}
           {| valid := true; errors := [] |} "name" VUndef); reflexivity.
Defined.

(** ** Rendering by template name *)

(** X19. When no template has the given name, validation and the three
    render functions throw the same error, which quotes the name; the
    variables and the caller's records stay as they were. *)
Theorem unknown_template_is_rejected (parser : Liquid)
    (templates : list (string * PromptTemplate)) (templateName : string)
    (variables : gmap string value) (heap : gmap nat PromptEngMeta) :
  assoc templateName templates = None →
  let msg := "Template '" ++ templateName ++ "' not found." in
  validateVariablesCommon templates templateName variables = Throw msg
  ∧ renderCommon parser templates templateName variables heap
    = rejected (Throw msg) variables heap
  ∧ renderWithMetaCommon parser templates templateName variables heap
    = rejected (Throw msg) variables heap
  ∧ renderMultiCommon parser templates templateName variables heap
    = rejected (Throw msg) variables heap.
Proof.
  intros H msg.
  unfold renderMultiCommon, renderWithMetaCommon, renderCommon,
    validateVariablesCommon.
  rewrite H. repeat split.
Qed.

Lemma unknown_template_is_rejected_witness :
  assoc "nope" example_templates = None
  ∧ renderMultiCommon TemplateParser example_templates "nope" ∅ ∅
    = rejected (Throw "Template 'nope' not found.") ∅ ∅.
Proof.
  split; [reflexivity|].
  apply (unknown_template_is_rejected TemplateParser example_templates "nope" ∅ ∅).
  reflexivity.
Defined.

(** X20. Rendering a loaded template does not depend on the verdict of
    the validation: [renderCommon] returns what the parser's [render]
    returns for the template's content, and [renderWithMetaCommon] what
    the parser's [renderWithMeta] returns, also when required variables
    are missing. *)
Theorem render_ignores_validation (parser : Liquid)
    (templates : list (string * PromptTemplate)) (templateName : string)
    (variables : gmap string value) (heap : gmap nat PromptEngMeta)
    (template : PromptTemplate) :
  assoc templateName templates = Some template →
  renderCommon parser templates templateName variables heap
  = render parser (tpl_content template) variables heap
  ∧ let r := renderWithMeta parser (tpl_content template) variables heap in
    renderWithMetaCommon parser templates templateName variables heap
    = {| result := do tm <- result r;
                   Ok {| r_text := text tm;
                         r_sections := sections (meta tm);
                         r_constraints := constraints (meta tm) |};
         variables_after := variables_after r;
         heap_after := heap_after r |}.
Proof.
  intros H. unfold renderCommon, renderWithMetaCommon.
  rewrite H, (validate_found _ _ _ _ H). split; reflexivity.
Qed.

Lemma render_ignores_validation_witness :
  assoc "greet" example_templates = Some greet
  ∧ validateVariablesCommon example_templates "greet" ∅
    = Ok {| valid := false; errors := ["Missing required variable: 'name'"] |}
  ∧ result (renderCommon TemplateParser example_templates "greet" ∅ ∅) = Ok "Hello ".
Proof.
  split; [reflexivity|]. split; [reflexivity|].
  rewrite (proj1 (render_ignores_validation TemplateParser example_templates
                    "greet" ∅ ∅ greet eq_refl)).
  reflexivity.
Defined.

(** ** [renderMulti] *)

Lemma size_zero_empty (m : gmap string string) :
  Nat.eqb (size m) 0 = true ↔ m = ∅.
Proof. rewrite Nat.eqb_eq. apply map_size_empty_iff. Qed.

(** X21. The map that [renderMulti] returns is never empty: it is the
    sections of the render when there is at least one, and otherwise
    the single entry [prompt] with the rendered text. *)
Theorem renderMulti_is_never_empty (parser : Liquid)
    (templates : list (string * PromptTemplate)) (templateName : string)
    (variables : gmap string value) (heap : gmap nat PromptEngMeta)
    (m : gmap string string) :
  result (renderMultiCommon parser templates templateName variables heap) = Ok m →
  m ≠ ∅
  ∧ ∃ x, result (renderWithMetaCommon parser templates templateName variables heap)
         = Ok x
         ∧ ((r_sections x ≠ ∅ ∧ m = r_sections x)
            ∨ (r_sections x = ∅ ∧ m = {[ "prompt" := r_text x ]})).
Proof.
  unfold renderMultiCommon. simpl.
  destruct (result (renderWithMetaCommon _ _ _ _ _)) as [x| |]; try discriminate.
  simpl. destruct (Nat.eqb (size (r_sections x)) 0) eqn:E; intros [= <-].
  - apply size_zero_empty in E. split; [apply insert_non_empty|].
    exists x. split; [reflexivity|]. right. auto.
  - assert (Hne : r_sections x ≠ ∅).
    { intros H. apply size_zero_empty in H. congruence. }
    split; [exact Hne|]. exists x. split; [reflexivity|]. left. auto.
Qed.

Lemma renderMulti_is_never_empty_witness :
  result (renderMultiCommon TemplateParser example_templates "with-system" ∅ ∅)
    = Ok {[ "system" := "Be brief." ]}
  ∧ ({[ "system" := "Be brief." ]} : gmap string string) ≠ ∅.
Proof.
  assert (H : result (renderMultiCommon TemplateParser example_templates
                        "with-system" ∅ ∅) = Ok {[ "system" := "Be brief." ]})
    by (vm_compute; reflexivity).
  split; [exact H|].
  exact (proj1 (renderMulti_is_never_empty _ _ _ _ _ _ H)).
Defined.

Lemma no_section_no_sections (liquid : Liquid) (toks : list TopLevelToken)
    (vars : gmap string value) (heap : gmap nat PromptEngMeta) :
  (∀ tpls, parse liquid toks = Ok tpls → forallb no_section tpls = true) →
  ∀ r, result (renderWithMeta liquid toks vars heap) = Ok r →
       sections (meta r) = ∅.
Proof.
  intros Hns r. unfold renderWithMeta, parseAndRender.
  destruct (parse liquid toks) as [tpls| |]; try discriminate.
  assert (H : no_sections_yet
                (renderTemplates tpls {| kind := SimpleEmitter; buffer := "" |}
                   (new_Context (<["__promptengMeta" := VMeta (RLocal 0)]> vars)
                      [new_meta] heap)).1).
  { apply (renderTemplates_steps (λ a c, no_sections_yet a → no_sections_yet c));
      [auto|auto| |].
    - apply Forall_forall. intros t Ht e st. apply no_section_keeps.
      specialize (Hns tpls eq_refl). rewrite forallb_forall in Hns.
      apply Hns, list_elem_of_In, Ht.
    - repeat constructor. }
  destruct (renderTemplates tpls _ _) as [st [e| |]]; simpl in *;
    try discriminate.
  destruct (local st !! 0%nat) as [m|] eqn:E; [|discriminate].
  intros [= <-]. simpl.
  unfold no_sections_yet in H. rewrite Forall_forall in H.
  apply H. apply list_elem_of_lookup. eauto.
Qed.

(** X22. For a loaded template without [section], [renderMulti]
    returns the single entry [prompt], and it holds the text that the
    parser's [renderWithMeta] returns for the template's content. *)
Theorem renderMulti_without_sections (parser : Liquid)
    (templates : list (string * PromptTemplate)) (templateName : string)
    (variables : gmap string value) (heap : gmap nat PromptEngMeta)
    (template : PromptTemplate) :
  assoc templateName templates = Some template →
  (∀ tpls, parse parser (tpl_content template) = Ok tpls →
           forallb no_section tpls = true) →
  result (renderMultiCommon parser templates templateName variables heap)
  = (do tm <- result (renderWithMeta parser (tpl_content template) variables heap);
     Ok {[ "prompt" := text tm ]}).
Proof.
  intros H Hns. unfold renderMultiCommon, renderWithMetaCommon.
  rewrite H, (validate_found _ _ _ _ H). simpl.
  pose proof (no_section_no_sections parser (tpl_content template) variables heap Hns)
    as Hs.
  destruct (result (renderWithMeta _ _ _ _)) as [tm| |]; try reflexivity.
  simpl. rewrite (Hs tm eq_refl). reflexivity.
Qed.

Lemma renderMulti_without_sections_witness :
  assoc "greet" example_templates = Some greet
  ∧ (∀ tpls, parse TemplateParser (tpl_content greet) = Ok tpls →
             forallb no_section tpls = true)
  ∧ result (renderMultiCommon TemplateParser example_templates "greet"
              {[ "name" := VStr "Ada" ]} ∅)
    = Ok {[ "prompt" := "Hello Ada" ]}.
Proof.
  assert (H : ∀ tpls, parse TemplateParser (tpl_content greet) = Ok tpls →
                      forallb no_section tpls = true)
    by (intros tpls [= <-]; reflexivity).
  split; [reflexivity|]. split; [exact H|].
  rewrite (renderMulti_without_sections TemplateParser example_templates "greet"
             {[ "name" := VStr "Ada" ]} ∅ greet eq_refl H).
  vm_compute. reflexivity.
Defined.

(** X23. For a loaded template of the embedded fragment that is made of
    section blocks and literal text, when [renderMulti] returns: as
    soon as a section was recorded, the result is the recorded
    sections, and the literal text outside the blocks, which is the
    whole text of the render, is not returned; only when no section
    was recorded is that text returned, as the entry [prompt]. *)
Theorem renderMulti_drops_outer_text (parser : Liquid)
    (templates : list (string * PromptTemplate)) (templateName : string)
    (variables : gmap string value) (heap : gmap nat PromptEngMeta)
    (template : PromptTemplate) (tpls : list Template)
    (m : gmap string string) :
  assoc templateName templates = Some template →
  parse parser (tpl_content template) = Ok tpls →
  forallb section_or_text tpls = true →
  result (renderMultiCommon parser templates templateName variables heap) = Ok m →
  ∃ r, result (renderWithMeta parser (tpl_content template) variables heap) = Ok r
       ∧ text r = literal_text tpls
       ∧ (sections (meta r) = ∅ → m = {[ "prompt" := literal_text tpls ]})
       ∧ (sections (meta r) ≠ ∅ → m = sections (meta r)).
Proof.
  intros H Hparse Hshape. unfold renderMultiCommon, renderWithMetaCommon.
  rewrite H, (validate_found _ _ _ _ H). cbn [result].
  destruct (result (renderWithMeta parser (tpl_content template) variables heap))
    as [r| |] eqn:Er; try discriminate.
  assert (Ht : text r = literal_text tpls).
  { revert Er. unfold renderWithMeta, parseAndRender. rewrite Hparse.
    destruct (renderTemplates tpls _ _) as [st [e| |]] eqn:Erun; try discriminate.
    cbn [result bind]. destruct (local st !! 0%nat); [|discriminate].
    intros [= <-]. simpl.
    now rewrite (literal_text_run tpls Hshape _ _ _ _ Erun). }
  cbn [bind r_sections r_text].
  destruct (Nat.eqb (size (sections (meta r))) 0) eqn:Es; intros [= <-];
    exists r; (split; [reflexivity|]); (split; [exact Ht|]); split.
  - intros _. now rewrite Ht.
  - intros Hne. apply size_zero_empty in Es. contradiction.
  - intros He. rewrite He in Es. discriminate.
  - reflexivity.
Qed.

Lemma renderMulti_drops_outer_text_witness :
  assoc "with-system" example_templates = Some with_system
  ∧ parse TemplateParser (tpl_content with_system)
    = Ok [SectionTag pos_1_1 "system" [HTML "Be brief."]; HTML "Footer"]
  ∧ forallb section_or_text
      [SectionTag pos_1_1 "system" [HTML "Be brief."]; HTML "Footer"] = true
  ∧ result (renderMultiCommon TemplateParser example_templates "with-system" ∅ ∅)
    = Ok {[ "system" := "Be brief." ]}
  ∧ ∃ r, result (renderWithMeta TemplateParser (tpl_content with_system) ∅ ∅) = Ok r
         ∧ text r = "Footer".
Proof.
  assert (Hm : result (renderMultiCommon TemplateParser example_templates
                         "with-system" ∅ ∅) = Ok {[ "system" := "Be brief." ]})
    by (vm_compute; reflexivity).
  split; [reflexivity|]. split; [reflexivity|]. split; [reflexivity|].
  split; [exact Hm|].
  destruct (renderMulti_drops_outer_text TemplateParser example_templates
              "with-system" ∅ ∅ with_system
              [SectionTag pos_1_1 "system" [HTML "Be brief."]; HTML "Footer"]
              _ eq_refl eq_refl eq_refl Hm) as (r & Hr & Ht & _).
  exists r. split; [exact Hr|exact Ht].
Defined.

(** ** The class and the helpers *)

(** X24. The methods of [PromptEngine] and the helper functions that
    [WorkerEngine] calls are the same functions of the parser, the
    loaded templates, the name and the variables. *)
Theorem engine_methods_are_the_helpers (this : PromptEngine)
    (templateName : string) (variables : gmap string value)
    (heap : gmap nat PromptEngMeta) :
  PromptEngine_validateVariables this templateName variables
  = validateVariablesCommon (engine_templates this) templateName variables
  ∧ PromptEngine_render this templateName variables heap
    = renderCommon (engine_parser this) (engine_templates this) templateName variables heap
  ∧ PromptEngine_renderWithMeta this templateName variables heap
    = renderWithMetaCommon (engine_parser this) (engine_templates this) templateName variables heap
  ∧ PromptEngine_renderMulti this templateName variables heap
    = renderMultiCommon (engine_parser this) (engine_templates this) templateName variables heap.
Proof. repeat split. Qed.

(** ** Type definitions *)

Lemma upper_ascii_not_separator (c : ascii) :
  is_separator c = false → is_separator (upper_ascii c) = false.
Proof.
  destruct c as [[] [] [] [] [] [] [] []]; vm_compute; auto.
Qed.

Lemma lower_ascii_not_separator (c : ascii) :
  is_separator c = false → is_separator (lower_ascii c) = false.
Proof.
  destruct c as [[] [] [] [] [] [] [] []]; vm_compute; auto.
Qed.

Lemma split_runs_no_separator (str : string) : ∀ in_run,
  Forall (λ w, has_separator w = false) (split_runs in_run str).
Proof.
  induction str as [|c r IH]; intros in_run; simpl.
  - constructor; [reflexivity|constructor].
  - destruct (is_separator c) eqn:E.
    + destruct in_run; [apply IH|]. constructor; [reflexivity|apply IH].
    + specialize (IH false).
      destruct (split_runs false r) as [|w ws]; inversion IH; subst;
        constructor; simpl; rewrite ?E; auto.
Qed.

Lemma capitalize_no_separator (w : string) :
  has_separator w = false → has_separator (capitalize w) = false.
Proof.
  destruct w as [|c r]; simpl; [auto|].
  intros H. apply orb_false_iff in H as [Hc Hr].
  rewrite (upper_ascii_not_separator c Hc). simpl.
  induction r as [|d r IH]; simpl in *; [reflexivity|].
  apply orb_false_iff in Hr as [Hd Hr].
  now rewrite (lower_ascii_not_separator d Hd), (IH Hr).
Qed.

Lemma has_separator_app (a b : string) :
  has_separator (a ++ b) = (has_separator a || has_separator b)%bool.
Proof.
  induction a as [|c a IH]; simpl; [reflexivity|].
  now rewrite IH, orb_assoc.
Qed.

Lemma concat_no_separator (ws : list string) :
  Forall (λ w, has_separator w = false) ws →
  has_separator (String.concat "" ws) = false.
Proof.
  induction 1 as [|w ws Hw Hws IH]; simpl; [reflexivity|].
  destruct ws as [|w' ws']; [exact Hw|].
  simpl. rewrite has_separator_app, Hw. exact IH.
Qed.

(** X25. The interface name that [toPascalCase] makes of a template
    name contains no hyphen, no underscore and no blank, whatever the
    name is; a name without such characters becomes its capitalised
    form. *)
Theorem toPascalCase_has_no_separator (str : string) :
  has_separator (toPascalCase str) = false
  ∧ (has_separator str = false → toPascalCase str = capitalize str).
Proof.
  split.
  - unfold toPascalCase. apply concat_no_separator.
    pose proof (split_runs_no_separator str false) as H.
    induction H as [|w ws Hw Hws IH]; simpl; constructor; auto.
    now apply capitalize_no_separator.
  - intros H. unfold toPascalCase.
    assert (E : split_runs false str = [str]).
    { induction str as [|c r IH]; [reflexivity|].
      simpl in *. apply orb_false_iff in H as [Hc Hr].
      now rewrite Hc, (IH Hr). }
    rewrite E. reflexivity.
Qed.

Lemma toPascalCase_has_no_separator_witness :
  has_separator "greet" = false
  ∧ has_separator (toPascalCase "with-system") = false
  ∧ toPascalCase "greet" = capitalize "greet".
Proof.
  split; [reflexivity|].
  split; [exact (proj1 (toPascalCase_has_no_separator "with-system"))|].
  exact (proj2 (toPascalCase_has_no_separator "greet") eq_refl).
Defined.

Lemma interfaces_loop (l : list (string * PromptTemplate)) : ∀ acc,
  fold_left
    (fun interfaces '(name, template) =>
       if Nat.ltb 0 (length (map property_line (tpl_variables template)))
       then (interfaces ++ [interface_text name template])%list
       else interfaces) l acc
  = (acc ++ map (fun entry => interface_text entry.1 entry.2)
              (List.filter has_variables l))%list.
Proof.
  induction l as [|[name template] l IH]; intros acc; simpl;
    [now rewrite app_nil_r|].
  rewrite IH. unfold has_variables at 2. simpl. rewrite length_map.
  destruct (Nat.ltb 0 (length (tpl_variables template))); [|reflexivity].
  now rewrite <- app_assoc.
Qed.

(** X26. A template without variable definitions gets no interface:
    the generated text is the one generated for the templates that
    have definitions, and it is empty when no template has any. *)
Theorem templates_without_variables_are_skipped
    (templates : list (string * PromptTemplate)) :
  generateTypeDefinitionsCommon templates
  = generateTypeDefinitionsCommon (List.filter has_variables templates)
  ∧ (forallb (fun entry => negb (has_variables entry)) templates = true →
     generateTypeDefinitionsCommon templates = "").
Proof.
  unfold generateTypeDefinitionsCommon. rewrite !interfaces_loop. simpl.
  split.
  - f_equal. f_equal.
    induction templates as [|x l IH]; simpl; [reflexivity|].
    destruct (has_variables x) eqn:E; simpl; rewrite ?E; congruence.
  - intros H.
    assert (E : List.filter has_variables templates = []).
    { induction templates as [|x l IH]; simpl in *; [reflexivity|].
      apply andb_true_iff in H as [Hx Hl]. apply negb_true_iff in Hx.
      rewrite Hx. auto. }
    rewrite E. reflexivity.
Qed.

Lemma templates_without_variables_are_skipped_witness :
  forallb (fun entry => negb (has_variables entry)) [("with-system", with_system)]
    = true
  ∧ generateTypeDefinitionsCommon [("with-system", with_system)] = ""
  ∧ generateTypeDefinitionsCommon example_templates
    = generateTypeDefinitionsCommon [("greet", greet)].
Proof.
  split; [reflexivity|].
  split; [exact (proj2 (templates_without_variables_are_skipped
                          [("with-system", with_system)]) eq_refl)|].
  exact (proj1 (templates_without_variables_are_skipped example_templates)).
Defined.

(** * The test runner *)

Lemma validateAssertions_loop (responseText : string)
    (assertions : list (list (string * value))) :
  ∀ acc,
    fold_left
      (fun results assertion =>
         do results <- results;
         do r <- validateAssertion responseText assertion;
         Ok (results ++ [r])%list)
      assertions (Ok acc)
    = do rs <- validateAssertions responseText assertions; Ok (acc ++ rs)%list.
Proof.
  unfold validateAssertions.
  induction assertions as [|a l IH]; intros acc.
  - simpl. now rewrite app_nil_r.
  - simpl. destruct (validateAssertion responseText a) as [r| |]; simpl.
    + rewrite (IH (acc ++ [r])%list), (IH [r]).
      destruct (fold_left _ l (Ok [])); simpl; try reflexivity.
      now rewrite <- app_assoc.
    + clear IH. induction l; simpl; auto.
    + clear IH. induction l; simpl; auto.
Qed.

Lemma validateAssertions_cons (responseText : string)
    (a : list (string * value)) (assertions : list (list (string * value))) :
  validateAssertions responseText (a :: assertions)
  = do r <- validateAssertion responseText a;
    do rs <- validateAssertions responseText assertions;
    Ok (r :: rs).
Proof.
  unfold validateAssertions at 1. simpl.
  destruct (validateAssertion responseText a) as [r| |]; simpl.
  - exact (validateAssertions_loop responseText assertions [r]).
  - induction assertions; simpl; auto.
  - induction assertions; simpl; auto.
Qed.

Lemma validateAssertion_first (responseText : string) (a : list (string * value)) :
  validateAssertion responseText (firstn 1 a) = validateAssertion responseText a.
Proof. now destruct a as [|[k v] rest]. Qed.

Lemma validateAssertion_returns (responseText : string) (a : list (string * value)) :
  is_ok (validateAssertion responseText a) = is_ok (convert_all (checked_value a)).
Proof.
  destruct a as [|[k v] rest]; [reflexivity|].
  unfold validateAssertion, checked_value.
  destruct (String.eqb k "contains"); cbn [orb].
  { unfold to_string. now destruct (convert_all [v]) as [[]| |]. }
  destruct (String.eqb k "not_contains"); [|reflexivity].
  unfold to_string. now destruct (convert_all [v]) as [[]| |].
Qed.

Lemma validateAssertion_passed (responseText : string) (a : list (string * value))
    (r : AssertionResult) :
  validateAssertion responseText a = Ok r →
  passed r = true
  ↔ ∃ v rest,
      (a = ("contains", v) :: rest
       ∧ includes (js_String v) responseText = true)
      ∨ (a = ("not_contains", v) :: rest
         ∧ includes (js_String v) responseText = false).
Proof.
  destruct a as [|[k v] rest]; unfold validateAssertion.
  - intros [= <-]. simpl.
    split; [discriminate|]. intros (v & rest & [[H _]|[H _]]); discriminate.
  - destruct (String.eqb k "contains") eqn:E1.
    { apply String.eqb_eq in E1 as ->. unfold to_string.
      destruct (convert_all [v]) as [[]| |]; try discriminate.
      intros [= <-]. cbn [passed]. split.
      - intros H. exists v, rest. left. auto.
      - intros (v' & rest' & [[H1 H2]|[H1 _]]); [|discriminate].
        now injection H1 as -> ->. }
    destruct (String.eqb k "not_contains") eqn:E2.
    { apply String.eqb_eq in E2 as ->. unfold to_string.
      destruct (convert_all [v]) as [[]| |]; try discriminate.
      intros [= <-]. cbn [passed]. split.
      - intros H. apply negb_true_iff in H. exists v, rest. right. auto.
      - intros (v' & rest' & [[H1 _]|[H1 H2]]); [discriminate|].
        injection H1 as -> ->. now rewrite H2. }
    intros [= <-]. cbn [passed]. split; [discriminate|].
    intros (v' & rest' & [[H1 _]|[H1 _]]); injection H1 as -> _ _.
    + rewrite String.eqb_refl in E1. discriminate.
    + rewrite String.eqb_refl in E2. discriminate.
Qed.

(** X27. Whether [validateAssertions] returns, and what it returns,
    depends on the first property of each assertion only: further
    properties of the same assertion are not checked.  It returns
    exactly when the value of every [contains] and [not_contains] can
    be converted to a string (it throws a [TypeError] otherwise), and
    then every assertion has one result, in the order of the
    assertions. *)
Theorem assertions_are_read_by_first_key (responseText : string)
    (assertions : list (list (string * value))) :
  validateAssertions responseText (map (firstn 1) assertions)
  = validateAssertions responseText assertions
  ∧ is_ok (validateAssertions responseText assertions)
    = forallb (fun a => is_ok (convert_all (checked_value a))) assertions
  ∧ (∀ e, validateAssertions responseText assertions = Throw e → e = TypeError)
  ∧ (∀ rs, validateAssertions responseText assertions = Ok rs →
       length rs = length assertions).
Proof.
  induction assertions as [|a l (IH1 & IH2 & IH3 & IH4)].
  { repeat split; try reflexivity; try discriminate. now intros rs [= <-]. }
  simpl map. rewrite !validateAssertions_cons, validateAssertion_first, IH1.
  split; [reflexivity|].
  simpl forallb. rewrite <- IH2, <- (validateAssertion_returns responseText a).
  assert (He : ∀ e, validateAssertion responseText a = Throw e → e = TypeError).
  { destruct a as [|[k v] rest]; unfold validateAssertion; [discriminate|].
    unfold to_string, convert_all.
    destruct (String.eqb k "contains").
    { destruct (forallb convertible [v]); [destruct (forallb in_range [v])|];
        simpl; intros e [=]; auto. }
    destruct (String.eqb k "not_contains"); [|discriminate].
    destruct (forallb convertible [v]); [destruct (forallb in_range [v])|];
      simpl; intros e [=]; auto. }
  destruct (validateAssertion responseText a) as [r| |]; simpl.
  - destruct (validateAssertions responseText l) as [rs| |]; simpl.
    + repeat split; try discriminate.
      intros ? [= <-]. simpl. now rewrite (IH4 rs eq_refl).
    + repeat split; try discriminate. intros e [= <-]. now apply IH3.
    + repeat split; discriminate.
  - repeat split; try discriminate. intros e0 [= <-]. now apply He.
  - repeat split; discriminate.
Qed.

(** X28. When [validateAssertions] returns, all results pass exactly
    when every assertion is, by its first property, a [contains] whose
    value, converted to a string, occurs in the response, or a
    [not_contains] whose value does not.  An assertion with another
    first property, or with none, fails. *)
Theorem assertions_pass_iff (responseText : string)
    (assertions : list (list (string * value))) (rs : list AssertionResult) :
  validateAssertions responseText assertions = Ok rs →
  forallb passed rs = true
  ↔ ∀ a, In a assertions →
      ∃ v rest,
        (a = ("contains", v) :: rest
         ∧ includes (js_String v) responseText = true)
        ∨ (a = ("not_contains", v) :: rest
           ∧ includes (js_String v) responseText = false).
Proof.
  revert rs. induction assertions as [|a l IH]; intros rs.
  - intros [= <-]. split; [intros _ ? []|reflexivity].
  - rewrite validateAssertions_cons.
    destruct (validateAssertion responseText a) as [r| |] eqn:Ea; try discriminate.
    simpl. destruct (validateAssertions responseText l) as [rs'| |];
      try discriminate.
    intros [= <-]. simpl forallb.
    rewrite andb_true_iff, (IH rs' eq_refl),
      (validateAssertion_passed responseText a r Ea).
    split.
    + intros [Ha Hl] b [<-|Hb]; auto.
    + intros H. split; [apply H; now left|]. intros b Hb. apply H. now right.
Qed.

Lemma assertions_pass_iff_witness :
  validateAssertions "Hello Ada"
    [[("contains", VStr "Ada")]; [("not_contains", VNum 7)]]
  = Ok [{| description := "contains " ++ quoted "Ada"; passed := true |};
        {| description := "not_contains " ++ quoted "7"; passed := true |}]
  ∧ (∀ a, In a [[("contains", VStr "Ada")]; [("not_contains", VNum 7)]] →
       ∃ v rest,
         (a = ("contains", v) :: rest
          ∧ includes (js_String v) "Hello Ada" = true)
         ∨ (a = ("not_contains", v) :: rest
            ∧ includes (js_String v) "Hello Ada" = false)).
Proof.
  assert (H : validateAssertions "Hello Ada"
                [[("contains", VStr "Ada")]; [("not_contains", VNum 7)]]
              = Ok [{| description := "contains " ++ quoted "Ada"; passed := true |};
                    {| description := "not_contains " ++ quoted "7";
                       passed := true |}])
    by (vm_compute; reflexivity).
  split; [exact H|].
  exact (proj1 (assertions_pass_iff _ _ _ H) eq_refl).
Defined.

(** X29. The tests that passed and the tests that failed are all the
    tests. *)
Theorem passed_and_failed_partition (results : list TestResult) :
  (TestResults_passed results + TestResults_failed results)%nat = length results.
Proof.
  unfold TestResults_passed, TestResults_failed.
  induction results as [|r l IH]; [reflexivity|].
  simpl. destruct (success r); simpl; lia.
Qed.

(** * The OpenAI provider *)

Lemma length_append (a b : string) :
  String.length (a ++ b) = (String.length a + String.length b)%nat.
Proof. induction a as [|c a IH]; simpl; [reflexivity|now rewrite IH]. Qed.

(** X30. The estimate is the least number of four-character tokens that
    cover the text: it is zero for the empty text only, and the
    estimate of two texts put together is at most the sum of their
    estimates. *)
Theorem estimateTokens_bounds (text more : string) :
  4 * (estimateTokens text - 1) < Z.of_nat (String.length text)
    ≤ 4 * estimateTokens text
  ∧ (estimateTokens text = 0 ↔ text = "")
  ∧ estimateTokens (text ++ more) ≤ estimateTokens text + estimateTokens more.
Proof.
  assert (B : ∀ t, 4 * (estimateTokens t - 1) < Z.of_nat (String.length t)
                     ≤ 4 * estimateTokens t).
  { intros t. unfold estimateTokens, ceil_div.
    destruct (Z.eqb_spec (Z.of_nat (String.length t) mod 4) 0);
      Z.div_mod_to_equations; lia. }
  split; [apply B|]. split.
  - split.
    + intros E. pose proof (B text) as Hb. rewrite E in Hb.
      destruct text; [reflexivity|]. simpl String.length in Hb. lia.
    + intros ->. reflexivity.
  - pose proof (B text) as H1. pose proof (B more) as H2.
    pose proof (B (text ++ more)) as H3.
    rewrite length_append, Nat2Z.inj_add in H3. lia.
Qed.

(** ** The cases of [engine.test.ts] and [worker.test.ts] *)

Example test_engine_render :
  result (renderCommon TemplateParser test_templates "greet"
            {[ "name" := VStr "Ada" ]} ∅)
  = Ok "Hello Ada".
Proof. vm_compute. reflexivity. Qed.

Example test_engine_validate :
  validateVariablesCommon test_templates "greet" ∅
  = Ok {| valid := false; errors := ["Missing required variable: 'name'"] |}.
Proof. reflexivity. Qed.

Example test_engine_renderWithMeta :
  (do r <- result (renderWithMetaCommon TemplateParser test_templates "with-system"
                     {[ "name" := VStr "Bob" ]} ∅);
   Ok (trim (r_text r), r_sections r !! "system", r_sections r !! "prompt"))
  = Ok ("Footer", Some "You are a helpful assistant.", Some "Hello Bob").
Proof. vm_compute. reflexivity. Qed.

Example test_engine_renderMulti :
  result (renderMultiCommon TemplateParser test_templates "with-system"
            {[ "name" := VStr "Bob" ]} ∅)
  = Ok {[ "system" := "You are a helpful assistant."; "prompt" := "Hello Bob" ]}.
Proof. vm_compute. reflexivity. Qed.

Example test_engine_renderMulti_fallback :
  result (renderMultiCommon TemplateParser test_templates "no-sections" ∅ ∅)
  = Ok {[ "prompt" := "Plain ok" ]}.
Proof. vm_compute. reflexivity. Qed.

Example test_engine_missing_template :
  result (renderCommon TemplateParser test_templates "missing" ∅ ∅)
    = Throw "Template 'missing' not found."
  ∧ result (renderWithMetaCommon TemplateParser test_templates "missing" ∅ ∅)
    = Throw "Template 'missing' not found.".
Proof. split; reflexivity. Qed.

Example test_worker_type_definitions :
  generateTypeDefinitionsCommon [("typed", typed)]
  = "export interface TypedVariables {" ++ newline
    ++ "    topic: string; // The topic" ++ newline
    ++ "    optional?: number;" ++ newline ++ "}".
Proof. reflexivity. Qed.

Example test_runner_assertions :
  validateAssertions "Hello Ada"
    [[("contains", VStr "Ada")]; [("not_contains", VStr "Bob")];
     [("matches", VStr "A.*")]]
  = Ok [{| description := "contains " ++ quoted "Ada"; passed := true |};
        {| description := "not_contains " ++ quoted "Bob"; passed := true |};
        {| description := "unknown assertion " ++ quoted "matches";
           passed := false |}].
Proof. reflexivity. Qed.
